(** * A shallow embedding of [vm.py], the LC-3 virtual machine

    The Python module keeps the machine in module-level globals ([reg],
    [memory], [is_running], the two [vsys] buffers) and talks to the host
    through [sys.stdout], [select.select] and [getch.getch].  Here the
    globals and the host are the fields of one [state] record, and every
    Python function is a computation in a state-and-exception monad: a call
    returns a value, raises, or blocks on the keyboard.

    Python integers are unbounded, so they are [Z]; [%] by a positive
    modulus is [Z.modulo]; [>>], [<<], [&], [|], [~] are [Z.shiftr],
    [Z.shiftl], [Z.land], [Z.lor], [Z.lnot].  A [str] is the list of its
    code points.  The [reg] dictionary is a [gmap Z Z]; [memory] is the
    list of the items of an [array.array("H")].

    The host is a Linux machine of the usual kind: [array("H")] is
    little-endian, the console encodes in UTF-8, a C [char] is signed, and
    the keyboard is a stream of bytes. *)

From Stdlib Require Import ZArith Lia List String Ascii Strings.Byte DecimalString.
From stdpp Require Import base option list gmap strings.

Local Open Scope Z_scope.

(** ** Python values the model needs *)

(** A Python [str], as its code points. *)
Definition pystr := list Z.

(** A string literal of the source. *)
Definition lit (s : string) : pystr :=
  map (fun a => Z.of_N (N_of_ascii a)) (list_ascii_of_string s).

(** [str(n)] for an integer, as an f-string renders it. *)
Definition str_of_int (n : Z) : pystr :=
  lit (DecimalString.NilZero.string_of_int (Z.to_int n)).

(** The exceptions the module can raise. *)
Inductive exn :=
| KeyError (k : Z)
| TypeError
| IndexError
| OverflowError
| ValueError
| UnicodeEncodeError                 (* a [ValueError] by inheritance *)
| UnsupportedOperation
| FileNotFoundError
| SystemExit (code : Z)
| Exception (msg : pystr).

(** The two host streams the module names. *)
Inductive stream := Stdin | Stdout.

Global Instance stream_eq_dec : EqDecision stream.
Proof. solve_decision. Defined.

(** ** The state: module globals and the host *)

Record state := mkState {
  reg : gmap Z Z;                    (* the global [reg] *)
  memory : option (list Z);          (* the global [memory]; [None] before a load *)
  memory_id : nat;                   (* which array object [memory] is bound to *)
  is_running : Z;                    (* the global [is_running] *)
  command_buffer : pystr;            (* [vsys.command_buffer] *)
  output_buffer : pystr;             (* [vsys.stdout.output_buffer] *)
  sys_stdout : pystr;                (* everything written to [sys.stdout] *)
  stdin_pending : list byte;         (* bytes typed and not yet consumed *)
  stdin_writable : bool;             (* does the host report stdin ready for writing *)
  stdout_readable : bool;            (* is [sys.stdout] opened for reading *)
  files : gmap string (list byte);   (* the file system seen by [open] *)
}.

Definition with_reg (r : gmap Z Z) (s : state) : state :=
  mkState r (memory s) (memory_id s) (is_running s) (command_buffer s) (output_buffer s)
          (sys_stdout s) (stdin_pending s) (stdin_writable s) (stdout_readable s) (files s).
Definition with_memory (m : option (list Z)) (s : state) : state :=
  mkState (reg s) m (memory_id s) (is_running s) (command_buffer s) (output_buffer s)
          (sys_stdout s) (stdin_pending s) (stdin_writable s) (stdout_readable s) (files s).
Definition with_memory_id (i : nat) (s : state) : state :=
  mkState (reg s) (memory s) i (is_running s) (command_buffer s) (output_buffer s)
          (sys_stdout s) (stdin_pending s) (stdin_writable s) (stdout_readable s) (files s).
Definition with_is_running (b : Z) (s : state) : state :=
  mkState (reg s) (memory s) (memory_id s) b (command_buffer s) (output_buffer s)
          (sys_stdout s) (stdin_pending s) (stdin_writable s) (stdout_readable s) (files s).
Definition with_command_buffer (c : pystr) (s : state) : state :=
  mkState (reg s) (memory s) (memory_id s) (is_running s) c (output_buffer s)
          (sys_stdout s) (stdin_pending s) (stdin_writable s) (stdout_readable s) (files s).
Definition with_output_buffer (o : pystr) (s : state) : state :=
  mkState (reg s) (memory s) (memory_id s) (is_running s) (command_buffer s) o
          (sys_stdout s) (stdin_pending s) (stdin_writable s) (stdout_readable s) (files s).
Definition with_sys_stdout (o : pystr) (s : state) : state :=
  mkState (reg s) (memory s) (memory_id s) (is_running s) (command_buffer s) (output_buffer s)
          o (stdin_pending s) (stdin_writable s) (stdout_readable s) (files s).
Definition with_stdin_pending (i : list byte) (s : state) : state :=
  mkState (reg s) (memory s) (memory_id s) (is_running s) (command_buffer s) (output_buffer s)
          (sys_stdout s) i (stdin_writable s) (stdout_readable s) (files s).

(** ** The monad *)

(** The outcome of a call: it returns, it raises, or it never returns
    because it waits for a character that the input stream does not hold. *)
Inductive result (A : Type) :=
| Ok (a : A) (s : state)
| Raise (e : exn) (s : state)
| Block (s : state).
Arguments Ok {A} a s.
Arguments Raise {A} e s.
Arguments Block {A} s.

Definition M (A : Type) := state -> result A.

Definition ret {A} (a : A) : M A := fun s => Ok a s.
Definition bind {A B} (m : M A) (f : A -> M B) : M B :=
  fun s => match m s with
           | Ok a s' => f a s'
           | Raise e s' => Raise e s'
           | Block s' => Block s'
           end.
Definition raise {A} (e : exn) : M A := fun s => Raise e s.
Definition gets {A} (f : state -> A) : M A := fun s => Ok (f s) s.
Definition modify (f : state -> state) : M unit := fun s => Ok tt (f s).

Global Instance M_ret : MRet M := @ret.
Global Instance M_bind : MBind M := fun A B f m => bind m f.

(** The state a call leaves behind, whatever its outcome. *)
Definition final_state {A} (r : result A) : state :=
  match r with Ok _ s | Raise _ s | Block s => s end.

(** ** Constants of the module *)

Definition UINT16_MAX : Z := 2 ^ 16.
Definition PC_START : Z := 0x3000.

(** [class R]: the keys of the register dictionary. *)
Module R.
Definition R0 : Z := 0.
Definition R1 : Z := 1.
Definition R2 : Z := 2.
Definition R3 : Z := 3.
Definition R4 : Z := 4.
Definition R5 : Z := 5.
Definition R6 : Z := 6.
Definition R7 : Z := 7.
Definition PC : Z := 8.
Definition COND : Z := 9.
Definition COUNT : Z := 10.
End R.

(** [class OP]: the opcodes. *)
Module OP.
Definition BR : Z := 0.
Definition ADD : Z := 1.
Definition LD : Z := 2.
Definition ST : Z := 3.
Definition JSR : Z := 4.
Definition AND : Z := 5.
Definition LDR : Z := 6.
Definition STR : Z := 7.
Definition RTI : Z := 8.
Definition NOT : Z := 9.
Definition LDI : Z := 10.
Definition STI : Z := 11.
Definition RET : Z := 12.
Definition JMP : Z := 12.
Definition RES : Z := 13.
Definition LEA : Z := 14.
Definition TRAP : Z := 15.
End OP.

(** [class FL]: the condition flags. *)
Module FL.
Definition POS : Z := Z.shiftl 1 0.
Definition ZRO : Z := Z.shiftl 1 1.
Definition NEG : Z := Z.shiftl 1 2.
End FL.

(** [class Trap]: the trap vectors. *)
Module Trap.
Definition GETC : Z := 0x20.
Definition OUT : Z := 0x21.
Definition PUTS : Z := 0x22.
Definition IN : Z := 0x23.
Definition PUTSP : Z := 0x24.
Definition HALT : Z := 0x25.
End Trap.

(** [class Mr]: the memory-mapped registers. *)
Module Mr.
Definition KBSR : Z := 0xFE00.
Definition KBDR : Z := 0xFE02.
End Mr.

(** ** Python primitives *)

(** What a call can hand to [register_dict.__setitem__]: an integer, or the
    [None] of a function that falls off its end. *)
Inductive pyval := PyInt (n : Z) | PyNone.

(** [value % n]: [None % n] is a [TypeError]. *)
Definition py_mod (value : pyval) (n : Z) : M Z :=
  match value with
  | PyInt v => mret (v mod n)
  | PyNone => raise TypeError
  end.

(** [x >> n] and [x << n]: a negative shift count is a [ValueError]. *)
Definition rshift (x n : Z) : M Z :=
  if n <? 0 then raise ValueError else mret (Z.shiftr x n).
Definition lshift (x n : Z) : M Z :=
  if n <? 0 then raise ValueError else mret (Z.shiftl x n).

(** [chr(i)]: a one-character [str], or a [ValueError] outside
    [range(0x110000)]. *)
Definition chr (i : Z) : M pystr :=
  if (0 <=? i) && (i <? 0x110000) then mret [i] else raise ValueError.

(** [ord(c)]: the code point of a one-character [str]. *)
Definition ord (c : pystr) : M Z :=
  match c with
  | [i] => mret i
  | _ => raise TypeError
  end.

(** A dictionary display or comprehension: the pairs are entered in order,
    a repeated key keeps the later value. *)
Definition dict {V} (items : list (Z * V)) : gmap Z V :=
  foldl (fun m kv => <[kv.1 := kv.2]> m) ∅ items.

(** [range(lo, hi)]. *)
Definition range (lo hi : Z) : list Z :=
  map (fun k => lo + Z.of_nat k) (seq 0 (Z.to_nat (hi - lo))).

(** ** The register dictionary

    [register_dict] overrides [__setitem__] only; lookups are those of
    [dict]. *)

(** [reg[key] = value]: [super().__setitem__(key, value % UINT16_MAX)]. *)
Definition register_dict_setitem (key : Z) (value : pyval) : M unit :=
  v ← py_mod value UINT16_MAX;
  modify (fun s => with_reg (<[key := v]> (reg s)) s).

(** [reg[key] = value] for an integer [value]. *)
Definition reg_set (key value : Z) : M unit :=
  register_dict_setitem key (PyInt value).

(** [reg[key]]: a [KeyError] on a missing key. *)
Definition reg_getitem (key : Z) : M Z :=
  fun s => match reg s !! key with
           | Some v => Ok v s
           | None => Raise (KeyError key) s
           end.

(** [reg.get(key)]: [None] on a missing key. *)
Definition reg_get (key : Z) : M (option Z) :=
  gets (fun s => reg s !! key).

(** [reg = register_dict({i: 0 for i in range(R.COUNT)})]: the dictionary is
    built by [dict]'s constructor from zeros. *)
Definition reg_init : gmap Z Z :=
  dict (map (fun i => (i, 0)) (range 0 R.COUNT)).

(** ** The memory array

    [memory] is an [array.array("H")]: its items are unsigned 16-bit
    integers, an index below zero counts from the end, an index out of range
    is an [IndexError], and storing an integer outside [0, 65535] is an
    [OverflowError]. Before the first load the global is [None], and
    subscripting it is a [TypeError]. *)

Definition array_index (m : list Z) (i : Z) : option nat :=
  let i := if i <? 0 then i + Z.of_nat (length m) else i in
  if (i <? 0) || (Z.of_nat (length m) <=? i) then None else Some (Z.to_nat i).

(** [memory[i]]. *)
Definition memory_getitem (i : Z) : M Z :=
  fun s => match memory s with
           | None => Raise TypeError s
           | Some m =>
               match array_index m i with
               | None => Raise IndexError s
               | Some k => match m !! k with
                           | Some v => Ok v s
                           | None => Raise IndexError s
                           end
               end
           end.

(** [memory[i] = val]: the index is checked before the value. *)
Definition memory_setitem (i : Z) (val : Z) : M unit :=
  fun s => match memory s with
           | None => Raise TypeError s
           | Some m =>
               match array_index m i with
               | None => Raise IndexError s
               | Some k =>
                   if (val <? 0) || (65535 <? val) then Raise OverflowError s
                   else Ok tt (with_memory (Some (<[k := val]> m)) s)
               end
           end.

(** [len(memory)]. *)
Definition memory_len : M Z :=
  fun s => match memory s with
           | None => Raise TypeError s
           | Some m => Ok (Z.of_nat (length m)) s
           end.

(** ** The host: console and keyboard *)

(** Can the console take the character: it encodes in UTF-8, which has a
    code for every code point but the surrogates 0xD800 to 0xDFFF. *)
Definition encodable (c : Z) : bool :=
  negb ((0xD800 <=? c) && (c <=? 0xDFFF)).

(** [sys.stdout.write(c)]: the text is encoded before anything is written;
    a character the console cannot encode is a [UnicodeEncodeError] and
    nothing of the text is written. *)
Definition sys_stdout_write (c : pystr) : M unit :=
  if forallb encodable c
  then modify (fun s => with_sys_stdout (sys_stdout s ++ c) s)
  else raise UnicodeEncodeError.

(** [sys.stdout.flush()]: nothing the model observes. *)
Definition sys_stdout_flush : M unit := mret tt.

(** [sys.stdout.read(n)]: the standard output is not readable, the call is
    an [io.UnsupportedOperation]; a readable replacement has nothing to
    give and returns the empty [str]. *)
Definition sys_stdout_read (n : Z) : M pystr :=
  fun s => if stdout_readable s then Ok [] s else Raise UnsupportedOperation s.

(** [print(text)]. *)
Definition print (text : pystr) : M unit :=
  sys_stdout_write (text ++ lit (String "010"%char EmptyString)).

(** The numeric value of a byte. *)
Definition byte_value (b : byte) : Z := Z.of_N (Byte.to_N b).

(** [getch.getch()]: the extension waits for one byte, takes it into a C
    [char] and makes the [str] with [PyUnicode_FromFormat("%c", c)]. A
    byte below 0x80 gives the character with that code; a byte from 0x80
    on is a negative [char], which is an [OverflowError], the byte being
    taken all the same. With nothing typed the call does not return (the
    end of the input stream is not part of the model). *)
Definition getch_getch : M pystr :=
  fun s => match stdin_pending s with
           | [] => Block s
           | b :: rest =>
               if byte_value b <? 0x80
               then Ok [byte_value b] (with_stdin_pending rest s)
               else Raise OverflowError (with_stdin_pending rest s)
           end.

(** Is a stream ready for reading, for writing: stdin is ready for reading
    when a character is pending; whether it is ready for writing is the
    host's business; stdout cannot be read and can be written. *)
Definition ready_read (s : state) (f : stream) : bool :=
  match f with
  | Stdin => bool_decide (stdin_pending s <> [])
  | Stdout => false
  end.
Definition ready_write (s : state) (f : stream) : bool :=
  match f with
  | Stdin => stdin_writable s
  | Stdout => true
  end.

(** [select.select(rlist, wlist, xlist, 0)]: a poll (the timeout is zero),
    returning the streams of [rlist] ready for reading, those of [wlist]
    ready for writing, and those of [xlist] in an exceptional condition
    (none). *)
Definition select_select (rlist wlist xlist : list stream)
  : M (list stream * list stream * list stream) :=
  fun s => Ok (filter (fun f => ready_read s f = true) rlist,
               filter (fun f => ready_write s f = true) wlist,
               []) s.

(** [class vsys]. *)
Module vsys.
(** [vsys.stdin()]. *)
Definition stdin : M stream := mret Stdin.

(** [vsys.stdout.flush()]. *)
Definition stdout_flush : M unit := sys_stdout_flush.

(** [vsys.stdout.write(c)]. *)
Definition stdout_write (c : pystr) : M unit :=
  sys_stdout_write c;;
  modify (fun s => with_output_buffer (output_buffer s ++ c) s).

(** [vsys.stdout.read(n)]: the body has no [return], so a call that comes
    back gives [None]. *)
Definition stdout_read (n : Z) : M pyval :=
  sys_stdout_read n;;
  mret PyNone.
End vsys.

(** ** Memory-mapped keyboard, memory access *)

(** [pass], and the end of a body without [return]. *)
Definition pass : M unit := mret tt.

(** A Python condition on an integer: zero is false. *)
Definition truthy (z : Z) : bool := negb (z =? 0).

(** [check_key]: the poll hands stdin to [select] as the second argument,
    the list of streams watched for writing, and looks for stdin among the
    streams reported ready for writing. *)
Definition check_key : M bool :=
  f ← vsys.stdin;
  '(_, o, _) ← select_select [] [f] [];
  f' ← vsys.stdin;
  mret (existsb (fun s => bool_decide (s = f')) o).

Definition mem_write (address val : Z) : M unit :=
  let address := address mod UINT16_MAX in
  memory_setitem address val.

Definition mem_read (address : Z) : M Z :=
  let address := address mod UINT16_MAX in
  (if address =? Mr.KBSR then
     k ← check_key;
     if (k : bool) then
       memory_setitem Mr.KBSR (Z.shiftl 1 15);;
       c ← getch_getch;
       o ← ord c;
       memory_setitem Mr.KBDR o
     else
       memory_setitem Mr.KBSR 0
   else pass);;
  memory_getitem address.

Definition sign_extend (x bit_count : Z) : M Z :=
  t ← rshift x (bit_count - 1);
  x ← (if truthy (Z.land t 1)
       then m ← lshift 0xFFFF bit_count; mret (Z.lor x m)
       else mret x);
  mret (Z.land x 0xffff).

Definition update_flags (r : Z) : M unit :=
  v ← reg_get r;
  match v with
  | None | Some 0 => reg_set R.COND FL.ZRO
  | Some _ =>
      x ← reg_getitem r;
      if truthy (Z.shiftr x 15) then reg_set R.COND FL.NEG
      else reg_set R.COND FL.POS
  end.

Definition set_command_buffer (c : pystr) : M unit :=
  modify (with_command_buffer c).

(** ** The opcode handlers *)

Definition bad_opcode (op : Z) : M unit :=
  raise (Exception (lit "Bad opcode: " ++ str_of_int op)).

Definition add (instr : Z) : M unit :=
  let r0 := Z.land (Z.shiftr instr 9) 0x7 in
  let r1 := Z.land (Z.shiftr instr 6) 0x7 in
  let imm_flag := Z.land (Z.shiftr instr 5) 0x1 in
  (if truthy imm_flag then
     imm5 ← sign_extend (Z.land instr 0x1F) 5;
     a ← reg_getitem r1;
     reg_set r0 (a + imm5)
   else
     let r2 := Z.land instr 0x7 in
     a ← reg_getitem r1;
     b ← reg_getitem r2;
     reg_set r0 (a + b));;
  update_flags r0.

Definition ldi (instr : Z) : M unit :=
  let r0 := Z.land (Z.shiftr instr 9) 0x7 in
  pc_offset ← sign_extend (Z.land instr 0x1ff) 9;
  pc ← reg_getitem R.PC;
  a ← mem_read (pc + pc_offset);
  v ← mem_read a;
  reg_set r0 v;;
  update_flags r0.

Definition and_ (instr : Z) : M unit :=
  let r0 := Z.land (Z.shiftr instr 9) 0x7 in
  let r1 := Z.land (Z.shiftr instr 6) 0x7 in
  let r2 := Z.land instr 0x7 in
  let imm_flag := Z.land (Z.shiftr instr 5) 0x1 in
  (if truthy imm_flag then
     imm5 ← sign_extend (Z.land instr 0x1F) 5;
     a ← reg_getitem r1;
     reg_set r0 (Z.land a imm5)
   else
     a ← reg_getitem r1;
     b ← reg_getitem r2;
     reg_set r0 (Z.land a b));;
  update_flags r0.

Definition not_ (instr : Z) : M unit :=
  let r0 := Z.land (Z.shiftr instr 9) 0x7 in
  let r1 := Z.land (Z.shiftr instr 6) 0x7 in
  a ← reg_getitem r1;
  reg_set r0 (Z.lnot a);;
  update_flags r0.

Definition br (instr : Z) : M unit :=
  pc_offset ← sign_extend (Z.land instr 0x1ff) 9;
  let cond_flag := Z.land (Z.shiftr instr 9) 0x7 in
  cond ← reg_getitem R.COND;
  if truthy (Z.land cond_flag cond) then
    pc ← reg_getitem R.PC;
    reg_set R.PC (pc + pc_offset)
  else pass.

Definition jmp (instr : Z) : M unit :=
  let r1 := Z.land (Z.shiftr instr 6) 0x7 in
  a ← reg_getitem r1;
  reg_set R.PC a;;
  set_command_buffer (lit "JMP " ++ str_of_int r1 ++ lit " ; Move the PC").

Definition jsr (instr : Z) : M unit :=
  let r1 := Z.land (Z.shiftr instr 6) 0x7 in
  long_pc_offset ← sign_extend (Z.land instr 0x7ff) 11;
  let long_flag := Z.land (Z.shiftr instr 11) 1 in
  pc ← reg_getitem R.PC;
  reg_set R.R7 pc;;
  if truthy long_flag then
    pc ← reg_getitem R.PC;
    reg_set R.PC (pc + long_pc_offset)
  else
    a ← reg_getitem r1;
    reg_set R.PC a.

Definition ld (instr : Z) : M unit :=
  let r0 := Z.land (Z.shiftr instr 9) 0x7 in
  pc_offset ← sign_extend (Z.land instr 0x1ff) 9;
  pc ← reg_getitem R.PC;
  v ← mem_read (pc + pc_offset);
  reg_set r0 v;;
  update_flags r0.

Definition ldr (instr : Z) : M unit :=
  let r0 := Z.land (Z.shiftr instr 9) 0x7 in
  let r1 := Z.land (Z.shiftr instr 6) 0x7 in
  offset ← sign_extend (Z.land instr 0x3F) 6;
  a ← reg_getitem r1;
  v ← mem_read (a + offset);
  reg_set r0 v;;
  update_flags r0.

Definition lea (instr : Z) : M unit :=
  let r0 := Z.land (Z.shiftr instr 9) 0x7 in
  pc_offset ← sign_extend (Z.land instr 0x1ff) 9;
  pc ← reg_getitem R.PC;
  reg_set r0 (pc + pc_offset);;
  update_flags r0;;
  v ← reg_getitem r0;
  set_command_buffer (lit "LEA " ++ str_of_int r0 ++ lit " " ++ str_of_int v
                        ++ lit " ; Load Effective Address").

Definition st (instr : Z) : M unit :=
  let r0 := Z.land (Z.shiftr instr 9) 0x7 in
  pc_offset ← sign_extend (Z.land instr 0x1ff) 9;
  pc ← reg_getitem R.PC;
  v ← reg_getitem r0;
  mem_write (pc + pc_offset) v.

Definition sti (instr : Z) : M unit :=
  let r0 := Z.land (Z.shiftr instr 9) 0x7 in
  pc_offset ← sign_extend (Z.land instr 0x1ff) 9;
  pc ← reg_getitem R.PC;
  a ← mem_read (pc + pc_offset);
  v ← reg_getitem r0;
  mem_write a v.

Definition str_ (instr : Z) : M unit :=
  let r0 := Z.land (Z.shiftr instr 9) 0x7 in
  let r1 := Z.land (Z.shiftr instr 6) 0x7 in
  offset ← sign_extend (Z.land instr 0x3F) 6;
  a ← reg_getitem r1;
  v ← reg_getitem r0;
  mem_write (a + offset) v.

(** ** The traps

    [trap_putc] of the source is not in the [traps] table and nothing calls
    it; it is left out. *)

Definition trap_getc : M unit :=
  c ← getch_getch;
  o ← ord c;
  reg_set R.R0 o.

Definition trap_out : M unit :=
  v ← reg_getitem R.R0;
  c ← chr v;
  vsys.stdout_write c;;
  vsys.stdout_flush;;
  buf ← gets output_buffer;
  set_command_buffer (lit "OUT (" ++ buf ++ lit ") ; output a character").

Definition trap_in : M unit :=
  vsys.stdout_write (lit "Enter a character: ");;
  vsys.stdout_flush;;
  set_command_buffer (lit "IN");;
  v ← vsys.stdout_read 1;
  register_dict_setitem R.R0 v.

(** The [for] loop of [trap_puts] over the indices still to visit; [break]
    ends it. *)
Fixpoint trap_puts_for (indices : list Z) : M unit :=
  match indices with
  | [] => pass
  | i :: rest =>
      c ← memory_getitem i;
      if c =? 0 then pass
      else
        ch ← chr c;
        vsys.stdout_write ch;;
        trap_puts_for rest
  end.

Definition trap_puts : M unit :=
  r0 ← reg_getitem R.R0;
  n ← memory_len;
  trap_puts_for (range r0 n);;
  buf ← gets output_buffer;
  set_command_buffer (lit "PUTS ; output a byte string (" ++ buf ++ lit ")");;
  vsys.stdout_flush.

Fixpoint trap_putsp_for (indices : list Z) : M unit :=
  match indices with
  | [] => pass
  | i :: rest =>
      c ← memory_getitem i;
      if c =? 0 then pass
      else
        lo ← chr (Z.land c 0xFF);
        vsys.stdout_write lo;;
        let char := Z.shiftr c 8 in
        (if truthy char then
           hi ← chr char;
           vsys.stdout_write hi
         else pass);;
        trap_putsp_for rest
  end.

Definition trap_putsp : M unit :=
  r0 ← reg_getitem R.R0;
  n ← memory_len;
  trap_putsp_for (range r0 n);;
  buf ← gets output_buffer;
  set_command_buffer (lit "PUTS ; (" ++ buf ++ lit ")");;
  vsys.stdout_flush.

Definition trap_halt : M unit :=
  print (lit "HALT");;
  set_command_buffer (lit "HALT ; end the program");;
  modify (with_is_running 0).

(** The functions stored in the [traps] table. *)
Inductive trap_function :=
| Trap_getc | Trap_out | Trap_puts | Trap_in | Trap_putsp | Trap_halt.

Definition call_trap (f : trap_function) : M unit :=
  match f with
  | Trap_getc => trap_getc
  | Trap_out => trap_out
  | Trap_puts => trap_puts
  | Trap_in => trap_in
  | Trap_putsp => trap_putsp
  | Trap_halt => trap_halt
  end.

Definition traps : gmap Z trap_function :=
  dict [
    (Trap.GETC, Trap_getc);
    (Trap.OUT, Trap_out);
    (Trap.PUTS, Trap_puts);
    (Trap.IN, Trap_in);
    (Trap.PUTSP, Trap_putsp);
    (Trap.HALT, Trap_halt)
  ].

(** [traps.get(instr & 0xFF)()]: a missing vector gives [None], and calling
    [None] is a [TypeError]. *)
Definition trap (instr : Z) : M unit :=
  match traps !! Z.land instr 0xFF with
  | Some f => call_trap f
  | None => raise TypeError
  end.

(** ** Dispatch *)

(** The functions stored in the [ops] table, and the default of the
    lookup. *)
Inductive function :=
| Fadd | Fnot_ | Fand_ | Fbr | Fjmp | Fjsr | Fld | Fldi | Fldr | Flea
| Fst | Fsti | Fstr_ | Ftrap | Fbad_opcode.

Definition call (f : function) (instr : Z) : M unit :=
  match f with
  | Fadd => add instr
  | Fnot_ => not_ instr
  | Fand_ => and_ instr
  | Fbr => br instr
  | Fjmp => jmp instr
  | Fjsr => jsr instr
  | Fld => ld instr
  | Fldi => ldi instr
  | Fldr => ldr instr
  | Flea => lea instr
  | Fst => st instr
  | Fsti => sti instr
  | Fstr_ => str_ instr
  | Ftrap => trap instr
  | Fbad_opcode => bad_opcode instr
  end.

(** [fun.__name__]; the decorator keeps the name of the function it wraps. *)
Definition function_name (f : function) : string :=
  match f with
  | Fadd => "add"
  | Fnot_ => "not_"
  | Fand_ => "and_"
  | Fbr => "br"
  | Fjmp => "jmp"
  | Fjsr => "jsr"
  | Fld => "ld"
  | Fldi => "ldi"
  | Fldr => "ldr"
  | Flea => "lea"
  | Fst => "st"
  | Fsti => "sti"
  | Fstr_ => "str_"
  | Ftrap => "trap"
  | Fbad_opcode => "bad_opcode"
  end.

(** The dictionary literal: [OP.JMP] and [OP.RET] are the same key, the
    later entry stays. *)
Definition ops : gmap Z function :=
  dict [
    (OP.ADD, Fadd);
    (OP.NOT, Fnot_);
    (OP.AND, Fand_);
    (OP.BR, Fbr);
    (OP.JMP, Fjmp);
    (OP.RET, Fjmp);
    (OP.JSR, Fjsr);
    (OP.LD, Fld);
    (OP.LDI, Fldi);
    (OP.LDR, Fldr);
    (OP.LEA, Flea);
    (OP.ST, Fst);
    (OP.STI, Fsti);
    (OP.STR, Fstr_);
    (OP.TRAP, Ftrap)
  ].

(** The body of the [while] loop of [main] and of [main_generator] up to the
    call of the handler; it returns the opcode and the handler for the
    event. *)
Definition fetch_and_execute : M (Z * function) :=
  pc ← reg_getitem R.PC;
  instr ← mem_read pc;
  pc ← reg_getitem R.PC;
  reg_set R.PC (pc + 1);;
  let op := Z.shiftr instr 12 in
  let fun_ := default Fbad_opcode (ops !! op) in
  call fun_ instr;;
  mret (op, fun_).

(** ** The image loader *)

(** [int.from_bytes(bs, byteorder='big')]. *)
Definition int_from_bytes_big (bs : list byte) : Z :=
  fold_left (fun acc b => acc * 256 + Z.of_N (Byte.to_N b)) bs 0.

(** [f.read(n)] on the bytes left in the file: what is read, what is left. *)
Definition file_read (n : Z) (f : list byte) : list byte * list byte :=
  if n <? 0 then (f, []) else (take (Z.to_nat n) f, drop (Z.to_nat n) f).

(** The items [frombytes] makes of a byte string: two bytes an item, in the
    byte order of the host, which is taken little-endian (the [byteswap]
    that follows in the loader is there for such a host). *)
Fixpoint items_of_bytes (bs : list byte) : list Z :=
  match bs with
  | b0 :: b1 :: rest =>
      (Z.of_N (Byte.to_N b0) + 256 * Z.of_N (Byte.to_N b1)) :: items_of_bytes rest
  | _ => []
  end.

(** One item with its two bytes exchanged. *)
Definition swap_bytes (x : Z) : Z :=
  Z.lor (Z.shiftl (Z.land x 0xFF) 8) (Z.shiftr x 8).

(** An in-place update of the array bound to [memory]. *)
Definition memory_update (f : list Z -> list Z) : M unit :=
  fun s => match memory s with
           | None => Raise TypeError s
           | Some m => Ok tt (with_memory (Some (f m)) s)
           end.

(** [memory.frombytes(bs)]: a length that is not a multiple of the item
    size is a [ValueError]. *)
Definition memory_frombytes (bs : list byte) : M unit :=
  if Z.of_nat (length bs) mod 2 =? 0
  then memory_update (fun m => m ++ items_of_bytes bs)
  else raise ValueError.

(** [memory.byteswap()]. *)
Definition memory_byteswap : M unit :=
  memory_update (map swap_bytes).

(** [memory.fromlist(l)]. *)
Definition memory_fromlist (l : list Z) : M unit :=
  memory_update (fun m => m ++ l).

(** [open(file_name, 'rb')]: the bytes of the file. *)
Definition open_rb (file_name : string) : M (list byte) :=
  fun s => match files s !! file_name with
           | Some bs => Ok bs s
           | None => Raise FileNotFoundError s
           end.

Definition read_image_file (file_name : string) : M unit :=
  f ← open_rb file_name;
  let '(header, f) := file_read 2 f in
  let origin := int_from_bytes_big header in
  modify (fun s => with_memory_id (S (memory_id s))
                     (with_memory (Some (repeat 0 (Z.to_nat origin))) s));;
  let max_read := UINT16_MAX - origin in
  let '(body, f) := file_read max_read f in
  memory_frombytes body;;
  memory_byteswap;;
  n ← memory_len;
  memory_fromlist (repeat 0 (Z.to_nat (UINT16_MAX - n))).

(** ** The two drivers *)

(** [exit(code)]. *)
Definition exit {A} (code : Z) : M A := raise (SystemExit code).

(** The lines of [main] and [main_generator] from the argument check to the
    reset of the program counter. *)
Definition load_args (args : list string) : M unit :=
  (if Z.of_nat (length args) <? 2 then
     print (lit "vm.py [obj-file]");;
     exit 2
   else pass);;
  match args !! 1%nat with
  | Some file_path => read_image_file file_path
  | None => raise IndexError
  end;;
  reg_set R.PC PC_START.

(** [main]: the loop runs while [is_running] is true; [fuel] bounds the
    number of instructions, and [None] says the bound was reached. *)
Fixpoint main_while (fuel : nat) (s : state) : option (result unit) :=
  if truthy (is_running s) then
    match fuel with
    | O => None
    | S fuel' =>
        match fetch_and_execute s with
        | Ok _ s' => main_while fuel' s'
        | Raise e s' => Some (Raise e s')
        | Block s' => Some (Block s')
        end
    end
  else Some (Ok tt s).

Definition main (fuel : nat) (args : list string) (s : state)
  : option (result unit) :=
  match load_args args s with
  | Ok _ s' => main_while fuel s'
  | Raise e s' => Some (Raise e s')
  | Block s' => Some (Block s')
  end.

(** The dictionary [main_generator] yields. The event yielded first has no
    ["op_code"] and no ["output_buffer"] key. The ["memory"] entry is a
    reference to the array, not a copy: the event records which array. *)
Record event := mkEvent {
  ev_PC : Z;
  ev_command : pystr;
  ev_op_name : string;
  ev_op_code : option Z;
  ev_output_buffer : option pystr;
  ev_memory : nat;
}.

(** Where the generator object is suspended. *)
Inductive gen_pos :=
| GenCreated (args : list string)   (* not started *)
| GenYieldOrig                       (* at the [yield] before the loop *)
| GenYieldStep                       (* at the [yield] in the loop *)
| GenFinished.                       (* returned or raised *)

(** What [next] on the generator does: it yields an event and suspends, it
    ends with [StopIteration], an exception comes out of it, or it does not
    return. Only a yield leaves the generator alive. *)
Inductive gen_result :=
| Yield (e : event) (g : gen_pos) (s : state)
| StopIteration (s : state)
| GenRaise (e : exn) (s : state)
| GenBlock (s : state).

Definition gen_pos_after (r : gen_result) : gen_pos :=
  match r with
  | Yield _ g _ => g
  | _ => GenFinished
  end.

Definition gen_state_after (r : gen_result) : state :=
  match r with
  | Yield _ _ s | StopIteration s | GenRaise _ s | GenBlock s => s
  end.

(** From the start of the generator to its first [yield]. *)
Definition gen_prologue (args : list string) : M event :=
  modify (with_is_running 1);;
  load_args args;;
  pc ← reg_getitem R.PC;
  id ← gets memory_id;
  mret (mkEvent pc (lit ".ORIG x3000") ".ORIG" None None id).

(** One turn of the loop of the generator, from the fetch to the [yield]. *)
Definition gen_step : M event :=
  '(op, fun_) ← fetch_and_execute;
  pc ← reg_getitem R.PC;
  command ← gets command_buffer;
  out ← gets output_buffer;
  id ← gets memory_id;
  mret (mkEvent pc command (function_name fun_) (Some op) (Some out) id).

(** The test of the [while] and, when it holds, one turn of the loop. *)
Definition gen_while (s : state) : gen_result :=
  if truthy (is_running s) then
    match gen_step s with
    | Ok e s' => Yield e GenYieldStep s'
    | Raise e s' => GenRaise e s'
    | Block s' => GenBlock s'
    end
  else StopIteration s.

(** [next(vm_gen)]. *)
Definition gen_next (g : gen_pos) (s : state) : gen_result :=
  match g with
  | GenCreated args =>
      match gen_prologue args s with
      | Ok e s' => Yield e GenYieldOrig s'
      | Raise e s' => GenRaise e s'
      | Block s' => GenBlock s'
      end
  | GenYieldOrig => gen_while s
  | GenYieldStep =>
      gen_while (with_command_buffer (lit "") (with_output_buffer (lit "") s))
  | GenFinished => StopIteration s
  end.

(** [main_generator(args)]: calling it runs nothing, it makes the generator
    object. *)
Definition main_generator (args : list string) : gen_pos := GenCreated args.

(** How a drive of the generator ended. *)
Inductive drive_end :=
| Exhausted                 (* [StopIteration]: the loop over the generator is done *)
| Faulted (e : exn)         (* an exception came out of [next] *)
| Waiting                   (* [next] waits for the keyboard *)
| Pending (g : gen_pos).    (* the driver stopped asking *)

(** [[c for c in vm_gen]], as the view of [routes.py] drives the generator,
    for at most [fuel] calls of [next]. *)
Fixpoint drive (fuel : nat) (g : gen_pos) (s : state)
  : list event * drive_end * state :=
  match fuel with
  | O => ([], Pending g, s)
  | S fuel' =>
      match gen_next g s with
      | Yield e g' s' =>
          let '(es, d, s'') := drive fuel' g' s' in (e :: es, d, s'')
      | StopIteration s' => ([], Exhausted, s')
      | GenRaise e s' => ([], Faulted e, s')
      | GenBlock s' => ([], Waiting, s')
      end
  end.

(** The state of a freshly imported module on a host. *)
Definition initial_state (input : list byte) (writable readable : bool)
    (fs : gmap string (list byte)) : state :=
  mkState reg_init None 0 1 (lit "") (lit "") [] input writable readable fs.

(** ** Specification-side definitions *)

(** Every register holds a Word. *)
Definition reg_ok (s : state) : Prop :=
  forall k v, reg s !! k = Some v -> 0 <= v <= 65535.

(** A computation keeps an invariant of the state whatever its outcome. *)
Definition preserves {A} (I : state -> Prop) (m : M A) : Prop :=
  forall s, I s -> I (final_state (m s)).

(** [mask(n)]: the [n] low bits. *)
Definition mask (n : Z) : Z := Z.shiftl 1 n - 1.

(** The value of the [n] low bits of [x] read as a signed number in two's
    complement: bit [n-1] is the sign. *)
Definition signed_value (n x : Z) : Z :=
  let low := x mod 2 ^ n in
  if Z.testbit x (n - 1) then low - 2 ^ n else low.

(** A signed number as an unsigned 16-bit word. *)
Definition to_word (z : Z) : Z := z mod 2 ^ 16.

(** A computation that never touches the register dictionary. *)
Definition keeps_reg {A} (m : M A) : Prop :=
  forall s, reg (final_state (m s)) = reg s.

(** The flag [update_flags] chooses for a Word. *)
Definition flag_of (v : Z) : Z :=
  if v =? 0 then FL.ZRO else if Z.testbit v 15 then FL.NEG else FL.POS.

(** The byte string as big-endian 16-bit words, a trailing odd byte left
    out. *)
Fixpoint be_words (bs : list byte) : list Z :=
  match bs with
  | b0 :: b1 :: rest => (256 * byte_value b0 + byte_value b1) :: be_words rest
  | _ => []
  end.

(** The memory an image describes: zeros up to the origin, the words of the
    body, zeros up to the end of the address space. *)
Definition image_memory (origin : Z) (body : list byte) : list Z :=
  repeat 0 (Z.to_nat origin) ++ be_words body ++
  repeat 0 (Z.to_nat (65536 - origin - Z.of_nat (length (be_words body)))).

(** States to evaluate on: the freshly imported module, with no file and no
    input; the same with a memory of 65536 zero cells. *)
Definition fresh : state := initial_state [] true false ∅.
Definition zeroed : state :=
  with_memory (Some (repeat 0 (Z.to_nat 65536))) fresh.

(** A loaded machine at whose keyboard the character [a] has been typed,
    on a host whose stdin is not open for writing (the read end of a
    pipe). *)
Definition typed : state :=
  with_memory (Some (repeat 0 (Z.to_nat 65536)))
    (initial_state [x61] false false ∅).

(** A loaded machine at whose keyboard the byte 0xE9 has been typed, on a
    host whose stdin is a terminal. *)
Definition accented : state :=
  with_memory (Some (repeat 0 (Z.to_nat 65536)))
    (initial_state [xe9] true false ∅).

(** The state in which a suspended generator resumes: after the [yield] in
    the loop the two buffers are emptied. *)
Definition resumed (g : gen_pos) (s : state) : state :=
  match g with
  | GenYieldStep => with_command_buffer (lit "") (with_output_buffer (lit "") s)
  | _ => s
  end.

(** The exception an instruction word without a handler ends in: [trap]
    calls the [None] its table gave, [bad_opcode] raises with the word. *)
Definition fault_of (instr : Z) : exn :=
  if decide (Z.shiftr instr 12 = OP.TRAP) then TypeError
  else Exception (lit "Bad opcode: " ++ str_of_int instr).

(** A loaded machine about to run the word [instr] at [PC_START]. *)
Definition about_to_run (instr : Z) : state :=
  with_memory (Some (<[Z.to_nat PC_START := instr]> (repeat 0 (Z.to_nat 65536))))
    (with_reg (<[R.PC := PC_START]> reg_init) fresh).

(** An image at origin 0x3000: [ADD R0, R0, #1], [TRAP OUT], [TRAP HALT]. *)
Definition count_image : list byte :=
  [x30; x00; x10; x21; xf0; x21; xf0; x25].

(** A freshly imported module in a process that holds the image as
    [count.obj], and the call the view of [routes.py] makes on it. *)
Definition host : state :=
  initial_state [] true false {[ "count.obj"%string := count_image ]}.
Definition view_disassembled (s : state) : list event * drive_end * state :=
  drive 10 (main_generator ["vm.py"%string; "count.obj"%string]) s.

(** The first run of the image in the process, and the second. *)
Definition first_run : list event * drive_end * state :=
  view_disassembled host.
Definition second_run : list event * drive_end * state :=
  view_disassembled first_run.2.

(** The cells of a list up to, not including, its first zero. *)
Fixpoint until_zero (l : list Z) : list Z :=
  match l with
  | [] => []
  | c :: rest => if c =? 0 then [] else c :: until_zero rest
  end.

(** The characters of a text up to, not including, the first one the
    console cannot encode. *)
Fixpoint encodable_prefix (l : pystr) : pystr :=
  match l with
  | [] => []
  | c :: rest => if encodable c then c :: encodable_prefix rest else []
  end.

(** The state after [vsys.stdout.write] has written the characters [out]. *)
Definition wrote (out : pystr) (s : state) : state :=
  with_output_buffer (output_buffer s ++ out)
    (with_sys_stdout (sys_stdout s ++ out) s).

(** A loaded machine with the codes of "HI" and a zero cell at 0x4000, other
    text behind the zero, and R0 = 0x4000. *)
Definition greeting : state :=
  with_memory
    (Some (<[Z.to_nat 0x4003 := 33]>
             (<[Z.to_nat 0x4001 := 73]>
                (<[Z.to_nat 0x4000 := 72]> (repeat 0 (Z.to_nat 65536))))))
    (with_reg (<[R.R0 := 0x4000]> reg_init) fresh).

(** The same machine with the surrogate code 0xD800 between the codes of
    "H" and "I". *)
Definition garbled : state :=
  with_memory
    (Some (<[Z.to_nat 0x4002 := 73]>
             (<[Z.to_nat 0x4001 := 0xD800]>
                (<[Z.to_nat 0x4000 := 72]> (repeat 0 (Z.to_nat 65536))))))
    (with_reg (<[R.R0 := 0x4000]> reg_init) fresh).

(** A process holding an image cut in the middle of its second word, and
    one holding two words at origin 0xFFFE. *)
Definition cut_host : state :=
  initial_state [] true false
    {[ "cut.obj"%string := [x30; x00; xf0; x25; x12] ]}.
Definition top_host : state :=
  initial_state [] true false
    {[ "top.obj"%string := [xff; xfe; x00; x01; x00; x02] ]}.

(** The cell of the memory at an address, when there is one. *)
Definition cell (s : state) (a : Z) : option Z :=
  match memory s with
  | Some m => m !! Z.to_nat a
  | None => None
  end.

(** Every key of the register dictionary is there. *)
Definition reg_full (s : state) : Prop :=
  forall k, 0 <= k < R.COUNT -> is_Some (reg s !! k).

(** The memory is loaded: 65536 cells, each a Word. *)
Definition memory_ok (s : state) : Prop :=
  exists m, memory s = Some m /\ Z.of_nat (length m) = 65536 /\
            Forall (fun c => 0 <= c <= 65535) m.

(** COND holds no flag (as at import) or exactly one of the three. *)
Definition cond_ok (s : state) : Prop :=
  exists c, reg s !! R.COND = Some c /\
            (c = 0 \/ c = FL.POS \/ c = FL.ZRO \/ c = FL.NEG).

(** A loaded machine: all ten registers present and Words, a memory of
    65536 Words, COND a flag. *)
Definition good (s : state) : Prop :=
  reg_full s /\ reg_ok s /\ memory_ok s /\ cond_ok s.

(** From a loaded machine the computation ends in a loaded machine; a
    value it returns satisfies [Q], an exception it raises satisfies [E]. *)
Definition triple {A} (E : exn -> Prop) (m : M A) (Q : A -> Prop) : Prop :=
  forall s, good s ->
    match m s with
    | Ok a s' => good s' /\ Q a
    | Raise e s' => good s' /\ E e
    | Block s' => good s'
    end.

(** No exception, and nothing asked of the value. *)
Definition never (e : exn) : Prop := False.
Definition any {A} (a : A) : Prop := True.
Definition is_word (v : Z) : Prop := 0 <= v <= 65535.
(** The exceptions of the IN trap and of a missing trap vector. *)
Definition trap_fault (e : exn) : Prop :=
  e = TypeError \/ e = UnsupportedOperation.

(** The exception of a write the console cannot encode, and of a byte
    from 0x80 on at the keyboard. *)
Definition console_fault (e : exn) : Prop := e = UnicodeEncodeError.
Definition keyboard_fault (e : exn) : Prop := e = OverflowError.

(** The exceptions one instruction cycle can end in. *)
Definition step_fault (e : exn) : Prop :=
  trap_fault e \/ console_fault e \/ keyboard_fault e \/
  exists w, e = Exception (lit "Bad opcode: " ++ str_of_int w).

(** The registers of a process between runs: present, Words, COND a flag.
    Nothing is asked of the memory. *)
Definition process_ok (s : state) : Prop :=
  reg_full s /\ reg_ok s /\ cond_ok s.
(** The exceptions a load can end in. *)
Definition load_fault (e : exn) : Prop :=
  e = SystemExit 2 \/ e = FileNotFoundError \/ e = ValueError.

(** The register fields of an instruction word: bits 11..9, 8..6, 2..0. *)
Definition DR (instr : Z) : Z := Z.land (Z.shiftr instr 9) 0x7.
Definition SR1 (instr : Z) : Z := Z.land (Z.shiftr instr 6) 0x7.
Definition SR2 (instr : Z) : Z := Z.land instr 0x7.

(** The registers after [x] has been written to [dr] and the flags have
    been updated from it. *)
Definition write_with_flags (dr x : Z) (s : state) : state :=
  with_reg (<[R.COND := flag_of (x mod 65536)]> (<[dr := x mod 65536]> (reg s))) s.

(** A machine with R1 = 0xFFFF and R2 = 5. *)
Definition operands : state :=
  with_reg (<[R.R2 := 5]> (<[R.R1 := 0xFFFF]> reg_init)) fresh.
(** The 16-bit complement of a Word. *)
Definition complement (a : Z) : Z := 65535 - a.
(** The machine after the program counter has been set. *)
Definition jump_to (target : Z) (s : state) : state :=
  with_reg (<[R.PC := target]> (reg s)) s.
(** A machine at PC = 0x3001 with R7 = 0x4000. *)
Definition calling : state :=
  with_reg (<[R.R7 := 0x4000]> (<[R.PC := 0x3001]> reg_init)) fresh.
(** In a loaded memory the cell at address [a], which is not the keyboard
    status register, holds [v]. *)
Definition plain_cell (s : state) (a v : Z) : Prop :=
  a <> Mr.KBSR /\
  exists m, memory s = Some m /\ Z.of_nat (length m) = 65536 /\
            m !! Z.to_nat a = Some v.

(** The machine after [v] has been stored in the cell at address [a]. *)
Definition store_at (a v : Z) (s : state) : state :=
  match memory s with
  | Some m => with_memory (Some (<[Z.to_nat a := v]> m)) s
  | None => s
  end.

(** A loaded machine with PC = 0x3001, R1 = 0x4000, R2 = 0xBEEF and the
    cell 0x3000 holding the address 0x5000. *)
Definition storing : state :=
  with_memory (Some (<[Z.to_nat 0x3000 := 0x5000]> (repeat 0 (Z.to_nat 65536))))
    (with_reg (<[R.R2 := 0xBEEF]> (<[R.R1 := 0x4000]> (<[R.PC := 0x3001]> reg_init)))
       fresh).
(** The characters the PUTSP trap writes for one cell: the low byte, then
    the high byte unless it is zero. *)
Definition packed (c : Z) : pystr :=
  [Z.land c 0xFF] ++ (if Z.shiftr c 8 =? 0 then [] else [Z.shiftr c 8]).

(** A loaded machine with R0 = 0x4000 and the cells "He", an "l" with a
    zero low byte, and a zero cell there. *)
Definition packed_text : state :=
  with_memory
    (Some (<[Z.to_nat 0x4001 := 0x6C00]>
             (<[Z.to_nat 0x4000 := 0x6548]> (repeat 0 (Z.to_nat 65536)))))
    (with_reg (<[R.R0 := 0x4000]> reg_init) fresh).
(** The machine after the HALT trap. *)
Definition halted (s : state) : state :=
  with_is_running 0
    (with_command_buffer (lit "HALT ; end the program")
       (with_sys_stdout (sys_stdout s ++ lit "HALT" ++ [10]) s)).
(** A loaded machine at whose keyboard [a] has been typed, on a host whose
    stdin is a terminal. *)
Definition keyed : state :=
  with_memory (Some (repeat 0 (Z.to_nat 65536)))
    (initial_state [x61] true false ∅).

(** Between two states the console and the output buffer have grown by the
    same characters. *)
Definition same_output (s s' : state) : Prop :=
  exists out, output_buffer s' = output_buffer s ++ out /\
              sys_stdout s' = sys_stdout s ++ out.

(** A computation that sends to the console exactly what it appends to the
    output buffer. *)
Definition echoes {A} (m : M A) : Prop :=
  forall s, same_output s (final_state (m s)).
(** Between two states the console and the output buffer have grown by the
    same characters, but for the line that the HALT trap prints on the
    console alone. *)
Definition same_output_but_halt (s s' : state) : Prop :=
  exists out,
    output_buffer s' = output_buffer s ++ out /\
    (sys_stdout s' = sys_stdout s ++ out \/
     sys_stdout s' = sys_stdout s ++ out ++ lit "HALT" ++ [10]).

(** A computation that leaves one component of the state, given by the
    projection [f], as it found it, however it ends. *)
Definition keeps {A B} (f : state -> B) (m : M A) : Prop :=
  forall s, f (final_state (m s)) = f s.

(** The handlers that do not describe themselves in the command buffer:
    all but [jmp], [lea] and [trap]. *)
Definition silent (f : function) : Prop :=
  f <> Fjmp /\ f <> Flea /\ f <> Ftrap.
(** Between two states at most one character has been taken from the
    keyboard. *)
Definition at_most_one_key (s s' : state) : Prop :=
  stdin_pending s' = stdin_pending s \/
  exists c, stdin_pending s = c :: stdin_pending s'.

(** A computation that takes at most one character from the keyboard. *)
Definition one_key {A} (m : M A) : Prop :=
  forall s, at_most_one_key s (final_state (m s)).

(** The state but for the two buffers of [vsys], which only the generator
    empties. *)
Definition machine (s : state) : state :=
  with_command_buffer [] (with_output_buffer [] s).

(** Two states that differ in the two buffers at most. *)
Definition same_machine (s1 s2 : state) : Prop := machine s1 = machine s2.

(** Two outcomes of the same kind, with the same value or exception, on
    states that differ in the two buffers at most. *)
Definition agree {A} (r1 r2 : result A) : Prop :=
  match r1, r2 with
  | Ok a s1, Ok b s2 => a = b /\ same_machine s1 s2
  | Raise e1 s1, Raise e2 s2 => e1 = e2 /\ same_machine s1 s2
  | Block s1, Block s2 => same_machine s1 s2
  | _, _ => False
  end.

(** A computation whose course does not depend on the two buffers. *)
Definition blind {A} (m : M A) : Prop :=
  forall s1 s2, same_machine s1 s2 -> agree (m s1) (m s2).

(** How a drive of the generator ends when [main] ends in [r]. *)
Definition end_of {A} (r : result A) : drive_end :=
  match r with
  | Ok _ _ => Exhausted
  | Raise e _ => Faulted e
  | Block _ => Waiting
  end.

(** The handlers that read the memory at an address they compute. *)
Definition reads_memory (f : function) : Prop :=
  f = Fld \/ f = Fldi \/ f = Fldr \/ f = Fsti.

(** What the handler of the instruction word [instr] can raise, and when:
    the bad-opcode exception when the opcode has no handler, [TypeError]
    for a trap vector without a routine, the exceptions of the IN trap,
    [UnicodeEncodeError] from the traps that write a cell to the console,
    [OverflowError] from the keyboard in GETC and in the handlers that
    read the memory. *)
Definition dispatch_fault (instr : Z) (e : exn) : Prop :=
  (ops !! Z.shiftr instr 12 = None /\
   e = Exception (lit "Bad opcode: " ++ str_of_int instr)) \/
  (ops !! Z.shiftr instr 12 = Some Ftrap /\
   traps !! Z.land instr 0xFF = None /\ e = TypeError) \/
  (ops !! Z.shiftr instr 12 = Some Ftrap /\
   traps !! Z.land instr 0xFF = Some Trap_in /\ trap_fault e) \/
  (ops !! Z.shiftr instr 12 = Some Ftrap /\
   (traps !! Z.land instr 0xFF = Some Trap_out \/
    traps !! Z.land instr 0xFF = Some Trap_puts) /\ console_fault e) \/
  (keyboard_fault e /\
   ((ops !! Z.shiftr instr 12 = Some Ftrap /\
     traps !! Z.land instr 0xFF = Some Trap_getc) \/
    exists f, ops !! Z.shiftr instr 12 = Some f /\ reads_memory f)).

(** * Properties *)

(** ** The monad laws used below *)

Lemma bind_Ok {A B} (m : M A) (f : A -> M B) s a s' :
  m s = Ok a s' -> (m ≫= f) s = f a s'.
Proof. intros H. unfold mbind, M_bind, bind. now rewrite H. Qed.

Lemma bind_Raise {A B} (m : M A) (f : A -> M B) s e s' :
  m s = Raise e s' -> (m ≫= f) s = Raise e s'.
Proof. intros H. unfold mbind, M_bind, bind. now rewrite H. Qed.

Lemma bind_Block {A B} (m : M A) (f : A -> M B) s s' :
  m s = Block s' -> (m ≫= f) s = Block s'.
Proof. intros H. unfold mbind, M_bind, bind. now rewrite H. Qed.

Lemma preserves_bind {A B} I (m : M A) (f : A -> M B) :
  preserves I m -> (forall a, preserves I (f a)) -> preserves I (m ≫= f).
Proof.
  intros Hm Hf s Hs. specialize (Hm s Hs).
  unfold mbind, M_bind, bind. destruct (m s) as [a s'|e s'|s']; simpl in *; auto.
  now apply Hf.
Qed.

Lemma preserves_ret {A} I (a : A) : preserves I (mret a).
Proof. intros s Hs. exact Hs. Qed.

Lemma preserves_raise {A} I e : preserves I (@raise A e).
Proof. intros s Hs. exact Hs. Qed.

Lemma preserves_gets {A} I (f : state -> A) : preserves I (gets f).
Proof. intros s Hs. exact Hs. Qed.

Lemma preserves_modify I (f : state -> state) :
  (forall s, I s -> I (f s)) -> preserves I (modify f).
Proof. intros Hf s Hs. now apply Hf. Qed.

(** ** Registers stay Words *)

Lemma reg_ok_same_reg s s' : reg s' = reg s -> reg_ok s -> reg_ok s'.
Proof. unfold reg_ok. intros ->. auto. Qed.

Lemma mod_UINT16_MAX_range v : 0 <= v mod UINT16_MAX <= 65535.
Proof.
  unfold UINT16_MAX. change (2 ^ 16) with 65536.
  pose proof (Z.mod_pos_bound v 65536). lia.
Qed.

Lemma reg_ok_insert s k v :
  reg_ok s -> reg_ok (with_reg (<[k := v mod UINT16_MAX]> (reg s)) s).
Proof.
  intros Hs k' v'. simpl. rewrite lookup_insert. case_decide.
  - intros [= <-]. apply mod_UINT16_MAX_range.
  - apply Hs.
Qed.

Lemma preserves_register_dict_setitem k v :
  preserves reg_ok (register_dict_setitem k v).
Proof.
  intros s Hs. destruct v as [v|]; simpl; [|exact Hs].
  now apply reg_ok_insert.
Qed.

Lemma preserves_reg_set k v : preserves reg_ok (reg_set k v).
Proof. apply preserves_register_dict_setitem. Qed.

Lemma keeps_reg_preserves {A} (m : M A) : keeps_reg m -> preserves reg_ok m.
Proof. intros H s Hs. eapply reg_ok_same_reg; [apply H | exact Hs]. Qed.

Lemma keeps_reg_bind {A B} (m : M A) (f : A -> M B) :
  keeps_reg m -> (forall a, keeps_reg (f a)) -> keeps_reg (m ≫= f).
Proof.
  intros Hm Hf s. specialize (Hm s).
  unfold mbind, M_bind, bind. destruct (m s) as [a s'|e s'|s']; simpl in *; auto.
  now rewrite Hf.
Qed.

Lemma keeps_reg_step {A} (m : M A) :
  (forall s, match m s with
             | Ok _ s' | Raise _ s' | Block s' => reg s' = reg s
             end) ->
  keeps_reg m.
Proof. intros H s. specialize (H s). now destruct (m s). Qed.

Lemma keeps_reg_memory_getitem i : keeps_reg (memory_getitem i).
Proof.
  apply keeps_reg_step. intros s. unfold memory_getitem.
  repeat case_match; simplify_eq; reflexivity.
Qed.

Lemma keeps_reg_memory_setitem i v : keeps_reg (memory_setitem i v).
Proof.
  apply keeps_reg_step. intros s. unfold memory_setitem.
  repeat case_match; simplify_eq; reflexivity.
Qed.

Lemma keeps_reg_memory_len : keeps_reg memory_len.
Proof.
  apply keeps_reg_step. intros s. unfold memory_len.
  repeat case_match; simplify_eq; reflexivity.
Qed.

Lemma keeps_reg_memory_update f : keeps_reg (memory_update f).
Proof.
  apply keeps_reg_step. intros s. unfold memory_update.
  repeat case_match; simplify_eq; reflexivity.
Qed.

Lemma keeps_reg_getch : keeps_reg getch_getch.
Proof.
  apply keeps_reg_step. intros s. unfold getch_getch.
  repeat case_match; simplify_eq; reflexivity.
Qed.

Lemma keeps_reg_reg_getitem k : keeps_reg (reg_getitem k).
Proof.
  apply keeps_reg_step. intros s. unfold reg_getitem.
  repeat case_match; simplify_eq; reflexivity.
Qed.

Lemma keeps_reg_sys_stdout_read n : keeps_reg (sys_stdout_read n).
Proof.
  apply keeps_reg_step. intros s. unfold sys_stdout_read.
  repeat case_match; simplify_eq; reflexivity.
Qed.

Lemma keeps_reg_open_rb f : keeps_reg (open_rb f).
Proof.
  apply keeps_reg_step. intros s. unfold open_rb.
  repeat case_match; simplify_eq; reflexivity.
Qed.

Create HintDb pres discriminated.

#[local] Hint Resolve preserves_bind preserves_ret preserves_raise preserves_gets
  preserves_reg_set preserves_register_dict_setitem : pres.
#[local] Hint Extern 1 (preserves _ (if ?b then _ else _)) => destruct b : pres.
#[local] Hint Extern 1 (preserves _ (match ?x with _ => _ end)) => destruct x : pres.
#[local] Hint Extern 1 (preserves _ (let x := _ in _)) => cbv zeta : pres.
#[local] Hint Extern 2 (preserves reg_ok (modify _)) =>
  apply preserves_modify; intros ? H; exact H : pres.
#[local] Hint Extern 2 (preserves reg_ok pass) => apply preserves_ret : pres.
#[local] Hint Extern 3 (preserves reg_ok _) =>
  apply keeps_reg_preserves;
  first [ apply keeps_reg_memory_getitem | apply keeps_reg_memory_setitem
        | apply keeps_reg_memory_len | apply keeps_reg_memory_update
        | apply keeps_reg_getch | apply keeps_reg_reg_getitem
        | apply keeps_reg_sys_stdout_read | apply keeps_reg_open_rb ] : pres.

(** Unfold the head of the computation and use the lemmas of its parts. *)
Ltac pres_unfold f := unfold f; auto 30 with pres.

Lemma preserves_py_mod v n : preserves reg_ok (py_mod v n).
Proof. pres_unfold py_mod. Qed.
#[local] Hint Resolve preserves_py_mod : pres.

Lemma preserves_rshift x n : preserves reg_ok (rshift x n).
Proof. pres_unfold rshift. Qed.
Lemma preserves_lshift x n : preserves reg_ok (lshift x n).
Proof. pres_unfold lshift. Qed.
Lemma preserves_chr i : preserves reg_ok (chr i).
Proof. pres_unfold chr. Qed.
Lemma preserves_ord c : preserves reg_ok (ord c).
Proof. pres_unfold ord. Qed.
#[local] Hint Resolve preserves_rshift preserves_lshift preserves_chr preserves_ord : pres.

Lemma preserves_reg_get k : preserves reg_ok (reg_get k).
Proof. pres_unfold reg_get. Qed.
Lemma preserves_sys_stdout_write c : preserves reg_ok (sys_stdout_write c).
Proof. pres_unfold sys_stdout_write. Qed.
Lemma preserves_sys_stdout_flush : preserves reg_ok sys_stdout_flush.
Proof. pres_unfold sys_stdout_flush. Qed.
#[local] Hint Resolve preserves_reg_get preserves_sys_stdout_write
  preserves_sys_stdout_flush : pres.

Lemma preserves_print t : preserves reg_ok (print t).
Proof. pres_unfold print. Qed.
Lemma preserves_select r w x : preserves reg_ok (select_select r w x).
Proof. intros s Hs. exact Hs. Qed.
Lemma preserves_vsys_stdin : preserves reg_ok vsys.stdin.
Proof. pres_unfold vsys.stdin. Qed.
Lemma preserves_vsys_stdout_flush : preserves reg_ok vsys.stdout_flush.
Proof. pres_unfold vsys.stdout_flush. Qed.
Lemma preserves_vsys_stdout_write c : preserves reg_ok (vsys.stdout_write c).
Proof. pres_unfold vsys.stdout_write. Qed.
Lemma preserves_vsys_stdout_read n : preserves reg_ok (vsys.stdout_read n).
Proof. pres_unfold vsys.stdout_read. Qed.
#[local] Hint Resolve preserves_print preserves_select preserves_vsys_stdin
  preserves_vsys_stdout_flush preserves_vsys_stdout_write
  preserves_vsys_stdout_read : pres.

Lemma preserves_check_key : preserves reg_ok check_key.
Proof. pres_unfold check_key. Qed.
Lemma preserves_mem_write a v : preserves reg_ok (mem_write a v).
Proof. pres_unfold mem_write. Qed.
#[local] Hint Resolve preserves_check_key preserves_mem_write : pres.

Lemma preserves_mem_read a : preserves reg_ok (mem_read a).
Proof. pres_unfold mem_read. Qed.
Lemma preserves_sign_extend x n : preserves reg_ok (sign_extend x n).
Proof. pres_unfold sign_extend. Qed.
Lemma preserves_update_flags r : preserves reg_ok (update_flags r).
Proof. pres_unfold update_flags. Qed.
Lemma preserves_set_command_buffer c : preserves reg_ok (set_command_buffer c).
Proof. pres_unfold set_command_buffer. Qed.
#[local] Hint Resolve preserves_mem_read preserves_sign_extend
  preserves_update_flags preserves_set_command_buffer : pres.

Lemma preserves_call f instr : preserves reg_ok (call f instr).
Proof.
  destruct f; simpl.
  - pres_unfold add.
  - pres_unfold not_.
  - pres_unfold and_.
  - pres_unfold br.
  - pres_unfold jmp.
  - pres_unfold jsr.
  - pres_unfold ld.
  - pres_unfold ldi.
  - pres_unfold ldr.
  - pres_unfold lea.
  - pres_unfold st.
  - pres_unfold sti.
  - pres_unfold str_.
  - unfold trap. destruct (traps !! _) as [t|]; [|auto with pres].
    destruct t; simpl.
    + pres_unfold trap_getc.
    + pres_unfold trap_out.
    + unfold trap_puts.
      assert (forall l, preserves reg_ok (trap_puts_for l)) as Hfor
        by (induction l; simpl; auto 30 with pres).
      auto 30 with pres.
    + pres_unfold trap_in.
    + unfold trap_putsp.
      assert (forall l, preserves reg_ok (trap_putsp_for l)) as Hfor
        by (induction l; simpl; auto 30 with pres).
      auto 30 with pres.
    + pres_unfold trap_halt.
  - pres_unfold bad_opcode.
Qed.
#[local] Hint Resolve preserves_call : pres.

Lemma preserves_fetch_and_execute : preserves reg_ok fetch_and_execute.
Proof. pres_unfold fetch_and_execute. Qed.
#[local] Hint Resolve preserves_fetch_and_execute : pres.

Lemma preserves_memory_frombytes bs : preserves reg_ok (memory_frombytes bs).
Proof. pres_unfold memory_frombytes. Qed.
Lemma preserves_memory_byteswap : preserves reg_ok memory_byteswap.
Proof. pres_unfold memory_byteswap. Qed.
Lemma preserves_memory_fromlist l : preserves reg_ok (memory_fromlist l).
Proof. pres_unfold memory_fromlist. Qed.
#[local] Hint Resolve preserves_memory_frombytes preserves_memory_byteswap
  preserves_memory_fromlist : pres.

Lemma preserves_read_image_file f : preserves reg_ok (read_image_file f).
Proof. pres_unfold read_image_file. Qed.
#[local] Hint Resolve preserves_read_image_file : pres.

Lemma preserves_load_args args : preserves reg_ok (load_args args).
Proof. unfold load_args, exit. auto 30 with pres. Qed.
#[local] Hint Resolve preserves_load_args : pres.

Lemma preserves_gen_prologue args : preserves reg_ok (gen_prologue args).
Proof. pres_unfold gen_prologue. Qed.

Lemma preserves_gen_step : preserves reg_ok gen_step.
Proof. pres_unfold gen_step. Qed.

Lemma reg_ok_gen_while s : reg_ok s -> reg_ok (gen_state_after (gen_while s)).
Proof.
  intros Hs. unfold gen_while. destruct (truthy _); [|exact Hs].
  pose proof (preserves_gen_step s Hs) as H.
  destruct (gen_step s); exact H.
Qed.

Lemma reg_ok_gen_next g s : reg_ok s -> reg_ok (gen_state_after (gen_next g s)).
Proof.
  intros Hs. destruct g as [args| | |]; simpl.
  - pose proof (preserves_gen_prologue args s Hs) as H.
    destruct (gen_prologue args s); exact H.
  - now apply reg_ok_gen_while.
  - apply reg_ok_gen_while. exact Hs.
  - exact Hs.
Qed.

Lemma drive_S fuel g s :
  drive (S fuel) g s =
    match gen_next g s with
    | Yield e g' s' =>
        let '(es, d, s'') := drive fuel g' s' in (e :: es, d, s'')
    | StopIteration s' => ([], Exhausted, s')
    | GenRaise e s' => ([], Faulted e, s')
    | GenBlock s' => ([], Waiting, s')
    end.
Proof. reflexivity. Qed.

Lemma bind_Ok_inv {A B} (m : M A) (f : A -> M B) s b s' :
  (m ≫= f) s = Ok b s' -> exists a s1, m s = Ok a s1 /\ f a s1 = Ok b s'.
Proof.
  unfold mbind, M_bind, bind. destruct (m s) as [a s1| |]; try discriminate.
  eauto.
Qed.

Lemma reg_getitem_Ok k s v s' :
  reg_getitem k s = Ok v s' -> s' = s /\ reg s !! k = Some v.
Proof.
  unfold reg_getitem. destruct (reg s !! k); [|discriminate].
  intros [= <- <-]. auto.
Qed.

Lemma gen_prologue_PC args s e s' :
  gen_prologue args s = Ok e s' -> reg s' !! R.PC = Some (ev_PC e).
Proof.
  unfold gen_prologue. intros H.
  apply bind_Ok_inv in H as (? & s1 & _ & H).
  apply bind_Ok_inv in H as (? & s2 & _ & H).
  apply bind_Ok_inv in H as (pc & s3 & Hpc & H).
  apply reg_getitem_Ok in Hpc as [-> Hpc].
  injection H as <- <-. exact Hpc.
Qed.

Lemma gen_step_PC s e s' :
  gen_step s = Ok e s' -> reg s' !! R.PC = Some (ev_PC e).
Proof.
  unfold gen_step. intros H.
  apply bind_Ok_inv in H as ([op f] & s1 & _ & H).
  apply bind_Ok_inv in H as (pc & s2 & Hpc & H).
  apply reg_getitem_Ok in Hpc as [-> Hpc].
  injection H as <- <-. exact Hpc.
Qed.

Lemma gen_next_PC g s e g' s' :
  gen_next g s = Yield e g' s' -> reg s' !! R.PC = Some (ev_PC e).
Proof.
  destruct g as [args| | |]; simpl; unfold gen_while.
  - destruct (gen_prologue args s) eqn:E; intros [= <- <- <-].
    eapply gen_prologue_PC, E.
  - destruct (truthy _); [|discriminate].
    destruct (gen_step s) eqn:E; intros [= <- <- <-].
    eapply gen_step_PC, E.
  - destruct (truthy _); [|discriminate].
    destruct (gen_step _) eqn:E; intros [= <- <- <-].
    eapply gen_step_PC, E.
  - discriminate.
Qed.

Lemma reg_ok_drive fuel : forall g s,
  reg_ok s ->
  reg_ok (drive fuel g s).2 /\
  Forall (fun e => 0 <= ev_PC e <= 65535) (drive fuel g s).1.1.
Proof.
  induction fuel as [|fuel IH]; intros g s Hs; [simpl; auto|].
  rewrite drive_S.
  pose proof (reg_ok_gen_next g s Hs) as Hn.
  destruct (gen_next g s) as [e g' s'| | |] eqn:E; simpl in *; auto.
  destruct (IH g' s' Hn) as [H1 H2].
  destruct (drive fuel g' s') as [[es d] s'']; simpl in *.
  split; [exact H1|]. constructor; [|exact H2].
  eapply Hn, gen_next_PC, E.
Qed.

Lemma reg_ok_main_while fuel : forall s r,
  reg_ok s -> main_while fuel s = Some r -> reg_ok (final_state r).
Proof.
  induction fuel as [|fuel IH]; intros s r Hs; simpl.
  - destruct (truthy _); [discriminate|]. intros [= <-]. exact Hs.
  - destruct (truthy _); [|intros [= <-]; exact Hs].
    pose proof (preserves_fetch_and_execute s Hs) as H.
    destruct (fetch_and_execute s) as [a s'|e s'|s']; simpl in H.
    + now apply IH.
    + intros [= <-]. exact H.
    + intros [= <-]. exact H.
Qed.

Lemma reg_ok_main fuel args s r :
  reg_ok s -> main fuel args s = Some r -> reg_ok (final_state r).
Proof.
  intros Hs. unfold main.
  pose proof (preserves_load_args args s Hs) as H.
  destruct (load_args args s) as [a s'|e s'|s']; simpl in H.
  - now apply reg_ok_main_while.
  - intros [= <-]. exact H.
  - intros [= <-]. exact H.
Qed.

Lemma reg_ok_initial input w r fs : reg_ok (initial_state input w r fs).
Proof.
  intros k v. simpl. unfold reg_init, dict. simpl.
  rewrite !lookup_insert. repeat case_decide; intros [= <-]; lia.
Qed.

(** C1: every write to a register stores the value reduced modulo 2^16:
    after [reg[r] = v] the register holds [v mod 65536], which lies in
    [0, 65535]; writing [65536 + k] yields [k] and writing [-1] yields
    [65535]. The registers of the imported module are Words, every call of
    [next] on the generator and every run of [main] leaves them Words, and
    the program counter shown in every event is a Word. *)
Theorem C1_register_write_mod_2_16 :
  (forall r v s,
      reg_set r v s = Ok tt (with_reg (<[r := v mod 65536]> (reg s)) s) /\
      reg (final_state (reg_set r v s)) !! r = Some (v mod 65536) /\
      0 <= v mod 65536 <= 65535) /\
  (forall r k s, 0 <= k <= 65535 ->
      reg (final_state (reg_set r (65536 + k) s)) !! r = Some k) /\
  (forall r s, reg (final_state (reg_set r (-1) s)) !! r = Some 65535) /\
  (forall input w rd fs, reg_ok (initial_state input w rd fs)) /\
  (forall g s, reg_ok s -> reg_ok (gen_state_after (gen_next g s))) /\
  (forall fuel g s, reg_ok s ->
      reg_ok (drive fuel g s).2 /\
      Forall (fun e => 0 <= ev_PC e <= 65535) (drive fuel g s).1.1) /\
  (forall fuel args s r, reg_ok s -> main fuel args s = Some r ->
      reg_ok (final_state r)).
Proof.
  assert (forall r v s,
             reg (final_state (reg_set r v s)) !! r = Some (v mod 65536)) as Hset
    by (intros; simpl; apply lookup_insert_eq).
  split; [|split; [|split; [|split; [|split; [|split]]]]].
  - intros r v s. split; [reflexivity|]. split; [apply Hset|].
    apply mod_UINT16_MAX_range.
  - intros r k s Hk. rewrite Hset. f_equal.
    rewrite Z.add_comm, <- (Z.mul_1_l 65536), Z.mod_add by lia.
    apply Z.mod_small. lia.
  - intros r s. apply Hset.
  - apply reg_ok_initial.
  - apply reg_ok_gen_next.
  - intros. now apply reg_ok_drive.
  - apply reg_ok_main.
Qed.

Lemma C1_register_write_witness :
  reg (final_state (reg_set R.R0 (65536 + 7) fresh)) !! R.R0 = Some 7 /\
  reg_ok (drive 3 (main_generator ["vm.py"%string; "hello.obj"%string]) fresh).2.
Proof.
  destruct C1_register_write_mod_2_16 as (_ & Hk & _ & Hinit & _ & Hdrive & _).
  split.
  - apply Hk. lia.
  - apply Hdrive, Hinit.
Defined.

(** ** Sign extension *)

Lemma mask_ones n : mask n = Z.ones n.
Proof. unfold mask, Z.ones. lia. Qed.

Lemma land_1_testbit a k : 0 <= k -> Z.land (Z.shiftr a k) 1 = Z.b2z (Z.testbit a k).
Proof.
  intros Hk. change 1 with (Z.ones 1). rewrite Z.land_ones by lia.
  change (2 ^ 1) with 2. rewrite <- Z.bit0_mod, Z.shiftr_spec by lia.
  reflexivity.
Qed.

Lemma lor_shiftl_add x c n :
  0 <= n -> 0 <= x < 2 ^ n -> Z.lor x (Z.shiftl c n) = x + c * 2 ^ n.
Proof.
  intros Hn Hx.
  assert (Z.land x (Z.shiftl c n) = 0) as Hdisj.
  { apply Z.bits_inj'. intros i Hi. rewrite Z.land_spec, Z.bits_0.
    destruct (Z.lt_ge_cases i n).
    - rewrite Z.shiftl_spec_low by lia. apply andb_false_r.
    - replace x with (x mod 2 ^ n) by (apply Z.mod_small; lia).
      rewrite Z.mod_pow2_bits_high by lia. reflexivity. }
  rewrite <- Z.lxor_lor, <- Z.add_nocarry_lxor by exact Hdisj.
  rewrite Z.shiftl_mul_pow2 by lia. reflexivity.
Qed.

(** C2: for every 16-bit value [v] and every width [n] from 1 to 16,
    [sign_extend(v & mask(n), n)] returns the value of the [n] low bits of
    [v] read as a signed two's-complement number, as an unsigned 16-bit
    word; for [n = 5] and [v = 0b10001] the result is [0xFFF1]. *)
Theorem C2_sign_extend_twos_complement :
  (forall v n s,
      0 <= v <= 65535 -> 1 <= n <= 16 ->
      sign_extend (Z.land v (mask n)) n s = Ok (to_word (signed_value n v)) s) /\
  (forall s, sign_extend (Z.land 17 (mask 5)) 5 s = Ok 0xFFF1 s).
Proof.
  split; [|reflexivity].
  intros v n s Hv Hn. unfold sign_extend, rshift, lshift.
  assert ((n - 1 <? 0) = false) as -> by lia.
  assert ((n <? 0) = false) as -> by lia.
  rewrite mask_ones, Z.land_ones by lia.
  assert (0 < 2 ^ n) as Hpow by (apply Z.pow_pos_nonneg; lia).
  pose proof (Z.mod_pos_bound v (2 ^ n) Hpow) as Hx.
  unfold mbind, M_bind, bind, mret, M_ret, ret, truthy.
  rewrite land_1_testbit, Z.mod_pow2_bits_low by lia.
  unfold to_word, signed_value.
  change 0xffff with (Z.ones 16).
  destruct (Z.testbit v (n - 1));
    [ change (negb (Z.b2z true =? 0)) with true
    | change (negb (Z.b2z false =? 0)) with false ]; cbv beta iota.
  - rewrite lor_shiftl_add, Z.land_ones by lia. f_equal.
    change (Z.ones 16) with 65535.
    replace (v mod 2 ^ n + 65535 * 2 ^ n) with (v mod 2 ^ n - 2 ^ n + 2 ^ n * 2 ^ 16) by lia.
    apply Z.mod_add. lia.
  - rewrite Z.land_ones by lia. reflexivity.
Qed.

Lemma C2_sign_extend_witness :
  sign_extend (Z.land 0xABCD (mask 9)) 9 fresh = Ok 0xFFCD fresh.
Proof.
  destruct C2_sign_extend_twos_complement as [H _].
  apply (H 0xABCD 9 fresh); lia.
Defined.

(** ** Memory writes *)

Lemma array_index_in_range (m : list Z) i :
  0 <= i < Z.of_nat (length m) -> array_index m i = Some (Z.to_nat i).
Proof.
  intros Hi. unfold array_index.
  assert ((i <? 0) = false) as Hneg by lia.
  assert ((Z.of_nat (length m) <=? i) = false) as Hlen by lia.
  rewrite Hneg. cbv zeta iota. now rewrite Hneg, Hlen.
Qed.

Lemma mod_UINT16_MAX_index (m : list Z) a :
  Z.of_nat (length m) = 65536 -> 0 <= a mod UINT16_MAX < Z.of_nat (length m).
Proof. intros ->. pose proof (mod_UINT16_MAX_range a). lia. Qed.

Lemma mem_write_word a v s m :
  memory s = Some m -> Z.of_nat (length m) = 65536 -> 0 <= v <= 65535 ->
  mem_write a v s =
    Ok tt (with_memory (Some (<[Z.to_nat (a mod 65536) := v]> m)) s).
Proof.
  intros Hm Hlen Hv. unfold mem_write, memory_setitem. rewrite Hm.
  rewrite array_index_in_range by now apply mod_UINT16_MAX_index.
  assert ((v <? 0) || (65535 <? v) = false) as -> by lia.
  reflexivity.
Qed.

Lemma mem_write_overflow a v s m :
  memory s = Some m -> Z.of_nat (length m) = 65536 -> ~ 0 <= v <= 65535 ->
  mem_write a v s = Raise OverflowError s.
Proof.
  intros Hm Hlen Hv. unfold mem_write, memory_setitem. rewrite Hm.
  rewrite array_index_in_range by now apply mod_UINT16_MAX_index.
  assert ((v <? 0) || (65535 <? v) = true) as -> by lia.
  reflexivity.
Qed.

Lemma sign_extend_returns x n s :
  1 <= n -> exists v, sign_extend x n s = Ok v s.
Proof.
  intros Hn. unfold sign_extend, rshift, lshift.
  assert ((n - 1 <? 0) = false) as -> by lia.
  assert ((n <? 0) = false) as -> by lia.
  unfold mbind, M_bind, bind, mret, M_ret, ret.
  destruct (truthy _); eauto.
Qed.

Lemma land_7_key x : 0 <= Z.land x 0x7 < R.COUNT.
Proof.
  change 0x7 with (Z.ones 3). rewrite Z.land_ones by lia.
  pose proof (Z.mod_pos_bound x (2 ^ 3)). unfold R.COUNT.
  change (2 ^ 3) with 8 in *. lia.
Qed.

Lemma reg_getitem_full k s :
  reg_full s -> reg_ok s -> 0 <= k < R.COUNT ->
  exists v, reg_getitem k s = Ok v s /\ 0 <= v <= 65535.
Proof.
  intros Hfull Hok Hk. destruct (Hfull k Hk) as [v Hv].
  exists v. unfold reg_getitem. rewrite Hv. eauto.
Qed.

(** On a loaded machine whose registers are Words, the ST and STR handlers
    return: the value they hand to [mem_write] comes from a register, so it
    is a Word and the array takes it. *)
Lemma store_handlers_return instr s :
  reg_full s -> reg_ok s -> memory_ok s ->
  (exists s', st instr s = Ok tt s' /\ memory_ok s') /\
  (exists s', str_ instr s = Ok tt s' /\ memory_ok s').
Proof.
  intros Hfull Hok (m & Hm & Hlen & Hcells).
  assert (forall a v, 0 <= v <= 65535 ->
            exists s', mem_write a v s = Ok tt s' /\ memory_ok s') as Hwrite.
  { intros a v Hv. eexists. split; [now apply (mem_write_word a v s m)|].
    eexists. split; [reflexivity|]. split; [now rewrite length_insert|].
    apply Forall_insert; assumption. }
  split.
  - unfold st.
    destruct (sign_extend_returns (Z.land instr 0x1ff) 9 s) as [off Hoff]; [lia|].
    destruct (reg_getitem_full R.PC s Hfull Hok) as (pc & Hpc & _);
      [unfold R.PC, R.COUNT; lia|].
    destruct (reg_getitem_full (Z.land (Z.shiftr instr 9) 0x7) s Hfull Hok
                (land_7_key _)) as (v & Hv & Hrange).
    destruct (Hwrite (pc + off) v Hrange) as (s' & Hs' & Hok').
    exists s'. split; [|exact Hok'].
    cbv zeta.
    rewrite (bind_Ok _ _ _ _ _ Hoff), (bind_Ok _ _ _ _ _ Hpc),
      (bind_Ok _ _ _ _ _ Hv).
    exact Hs'.
  - unfold str_.
    destruct (sign_extend_returns (Z.land instr 0x3F) 6 s) as [off Hoff]; [lia|].
    destruct (reg_getitem_full (Z.land (Z.shiftr instr 6) 0x7) s Hfull Hok
                (land_7_key _)) as (a & Ha & _).
    destruct (reg_getitem_full (Z.land (Z.shiftr instr 9) 0x7) s Hfull Hok
                (land_7_key _)) as (v & Hv & Hrange).
    destruct (Hwrite (a + off) v Hrange) as (s' & Hs' & Hok').
    exists s'. split; [|exact Hok'].
    cbv zeta.
    rewrite (bind_Ok _ _ _ _ _ Hoff), (bind_Ok _ _ _ _ _ Ha),
      (bind_Ok _ _ _ _ _ Hv).
    exact Hs'.
Qed.

(** C3, as the code has it: [mem_write] reduces the address modulo 65536
    and stores the value as it is. On a loaded memory (65536 cells) a value
    in [0, 65535], which is every value a register can hold, is stored at
    the reduced address, the other cells keep their values, and the call
    does not fail. The value is not reduced: a value outside [0, 65535] is
    refused by the array with an [OverflowError] and nothing is stored. *)
Theorem C3_mem_write_stores_word :
  forall a v s m,
    memory s = Some m -> Z.of_nat (length m) = 65536 ->
    (0 <= v <= 65535 ->
       exists m',
         mem_write a v s = Ok tt (with_memory (Some m') s) /\
         Z.of_nat (length m') = 65536 /\
         m' !! Z.to_nat (a mod 65536) = Some v /\
         forall k, k <> Z.to_nat (a mod 65536) -> m' !! k = m !! k) /\
    (~ 0 <= v <= 65535 -> mem_write a v s = Raise OverflowError s).
Proof.
  intros a v s m Hm Hlen. split.
  - intros Hv. exists (<[Z.to_nat (a mod 65536) := v]> m).
    split; [now apply mem_write_word|].
    split; [now rewrite length_insert|].
    split.
    + apply list_lookup_insert_eq.
      pose proof (mod_UINT16_MAX_index m a Hlen). unfold UINT16_MAX in *.
      change (2 ^ 16) with 65536 in *. lia.
    + intros k Hk. now apply list_lookup_insert_ne.
  - intros Hv. now apply (mem_write_overflow a v s m).
Qed.

Lemma C3_mem_write_witness :
  (exists m',
      mem_write (65536 + 3) 7 zeroed = Ok tt (with_memory (Some m') zeroed) /\
      Z.of_nat (length m') = 65536 /\
      m' !! Z.to_nat ((65536 + 3) mod 65536) = Some 7 /\
      forall k, k <> Z.to_nat ((65536 + 3) mod 65536) ->
                m' !! k = repeat 0 (Z.to_nat 65536) !! k) /\
  mem_write 3 (-1) zeroed = Raise OverflowError zeroed.
Proof.
  assert (Z.of_nat (length (repeat 0 (Z.to_nat 65536))) = 65536) as Hlen
    by (rewrite repeat_length; lia).
  split.
  - apply (proj1 (C3_mem_write_stores_word (65536 + 3) 7 zeroed
                    (repeat 0 (Z.to_nat 65536)) eq_refl Hlen)).
    lia.
  - apply (proj2 (C3_mem_write_stores_word 3 (-1) zeroed
                    (repeat 0 (Z.to_nat 65536)) eq_refl Hlen)).
    lia.
Defined.

(** C3, as stated, fails: on a loaded memory the write of 65536 to address
    0 raises [OverflowError] where the claim has it store [65536 mod 65536]
    without failing. *)
Lemma C3_mem_write_counterexample :
  mem_write 0 65536 zeroed = Raise OverflowError zeroed /\
  ~ exists s', mem_write 0 65536 zeroed = Ok tt s'.
Proof.
  assert (mem_write 0 65536 zeroed = Raise OverflowError zeroed) as H.
  { apply (mem_write_overflow 0 65536 zeroed (repeat 0 (Z.to_nat 65536)) eq_refl).
    - rewrite repeat_length. lia.
    - lia. }
  split; [exact H|]. intros [s' Hs']. rewrite H in Hs'. discriminate.
Qed.

(** ** Condition flags *)

Lemma truthy_shiftr_15 v :
  0 <= v <= 65535 -> truthy (Z.shiftr v 15) = Z.testbit v 15.
Proof.
  intros Hv. unfold truthy. rewrite Z.shiftr_div_pow2 by lia.
  change (2 ^ 15) with 32768.
  destruct (Z.testbit v 15) eqn:E.
  - apply Z.testbit_true in E; [|lia]. change (2 ^ 15) with 32768 in E.
    apply negb_true_iff, Z.eqb_neq. intros H0. rewrite H0 in E. discriminate.
  - apply negb_false_iff, Z.eqb_eq.
    destruct (Z.eq_dec (v / 32768) 0) as [|Hne]; [assumption|exfalso].
    assert (v / 32768 = 1) as H1
      by (pose proof (Z.div_pos v 32768);
          pose proof (Z.div_lt_upper_bound v 32768 2); lia).
    assert (Z.testbit v 15 = true) as E'
      by (apply Z.testbit_true; [lia|]; change (2 ^ 15) with 32768;
          now rewrite H1).
    congruence.
Qed.

Lemma update_flags_word r v s :
  reg s !! r = Some v -> 0 <= v <= 65535 ->
  update_flags r s = Ok tt (with_reg (<[R.COND := flag_of v]> (reg s)) s).
Proof.
  intros Hr Hv. unfold update_flags, reg_get, gets.
  unfold mbind, M_bind, bind. rewrite Hr. unfold flag_of.
  destruct v as [|p|p]; [reflexivity| |lia].
  change (Z.pos p =? 0) with false. cbv iota.
  unfold reg_getitem. rewrite Hr.
  rewrite truthy_shiftr_15 by exact Hv.
  destruct (Z.testbit (Z.pos p) 15); reflexivity.
Qed.

(** C4: for a register [r] holding a Word, [update_flags(r)] sets COND to
    ZRO when the value is 0, to NEG when bit 15 of the value is set, and to
    POS otherwise, and changes nothing else; after a write of 0 the flag is
    ZRO, after a write of 0x8000 it is NEG, after a write of 1 it is POS. *)
Theorem C4_update_flags :
  (forall r v s,
      reg s !! r = Some v -> 0 <= v <= 65535 ->
      update_flags r s =
        Ok tt (with_reg (<[R.COND := if v =? 0 then FL.ZRO
                                     else if Z.testbit v 15 then FL.NEG
                                     else FL.POS]> (reg s)) s)) /\
  (forall r s,
      reg (final_state ((reg_set r 0;; update_flags r) s)) !! R.COND
        = Some FL.ZRO /\
      reg (final_state ((reg_set r 0x8000;; update_flags r) s)) !! R.COND
        = Some FL.NEG /\
      reg (final_state ((reg_set r 1;; update_flags r) s)) !! R.COND
        = Some FL.POS).
Proof.
  split; [exact update_flags_word|].
  assert (forall r v s, 0 <= v <= 65535 ->
            reg (final_state ((reg_set r v;; update_flags r) s)) !! R.COND
              = Some (flag_of v)) as H.
  { intros r v s Hv.
    rewrite (bind_Ok (reg_set r v) _ s tt
               (with_reg (<[r := v]> (reg s)) s)).
    - rewrite (update_flags_word r v) by (try exact Hv; apply lookup_insert_eq).
      apply lookup_insert_eq.
    - unfold reg_set, register_dict_setitem, py_mod, modify.
      unfold mbind, M_bind, bind, mret, M_ret, ret.
      replace (v mod UINT16_MAX) with v; [reflexivity|].
      symmetry. apply Z.mod_small. unfold UINT16_MAX. lia. }
  intros r s. split; [|split]; apply H; lia.
Qed.

Lemma C4_update_flags_witness :
  reg (final_state
         (update_flags R.R3 (with_reg (<[R.R3 := 0x8001]> reg_init) fresh)))
    !! R.COND = Some FL.NEG.
Proof.
  rewrite (proj1 C4_update_flags R.R3 0x8001).
  - apply lookup_insert_eq.
  - apply lookup_insert_eq.
  - lia.
Defined.

(** ** The keyboard poll *)

Lemma check_key_writable s : check_key s = Ok (stdin_writable s) s.
Proof.
  unfold check_key, vsys.stdin, select_select.
  unfold mbind, M_bind, bind, mret, M_ret, ret.
  rewrite filter_cons, filter_nil. unfold ready_write.
  destruct (decide (stdin_writable s = true)) as [E|E].
  - rewrite E. reflexivity.
  - apply not_true_is_false in E. rewrite E. reflexivity.
Qed.

Lemma mem_read_KBSR_writable s m :
  memory s = Some m -> Z.of_nat (length m) = 65536 ->
  stdin_writable s = true -> stdin_pending s = [] ->
  mem_read Mr.KBSR s
  = Block (with_memory (Some (<[Z.to_nat Mr.KBSR := 0x8000]> m)) s).
Proof.
  intros Hm Hlen Hw Hp. unfold mem_read.
  change (Mr.KBSR mod UINT16_MAX) with Mr.KBSR. rewrite Z.eqb_refl.
  unfold mbind, M_bind, bind. rewrite check_key_writable, Hw.
  unfold memory_setitem. rewrite Hm.
  rewrite array_index_in_range by (rewrite Hlen; unfold Mr.KBSR; lia).
  simpl. unfold getch_getch. simpl. now rewrite Hp.
Qed.

Lemma mem_read_KBSR_not_writable s m :
  memory s = Some m -> Z.of_nat (length m) = 65536 ->
  stdin_writable s = false ->
  mem_read Mr.KBSR s
  = Ok 0 (with_memory (Some (<[Z.to_nat Mr.KBSR := 0]> m)) s).
Proof.
  intros Hm Hlen Hw. unfold mem_read.
  change (Mr.KBSR mod UINT16_MAX) with Mr.KBSR. rewrite Z.eqb_refl.
  unfold mbind, M_bind, bind. rewrite check_key_writable, Hw.
  unfold memory_setitem, memory_getitem. rewrite Hm.
  rewrite array_index_in_range by (rewrite Hlen; unfold Mr.KBSR; lia).
  simpl.
  rewrite array_index_in_range
    by (rewrite length_insert, Hlen; unfold Mr.KBSR; lia).
  rewrite list_lookup_insert_eq; [reflexivity|].
  unfold Mr.KBSR. lia.
Qed.

Lemma mem_read_other s m a :
  memory s = Some m -> Z.of_nat (length m) = 65536 ->
  a mod 65536 <> Mr.KBSR ->
  exists v, m !! Z.to_nat (a mod 65536) = Some v /\ mem_read a s = Ok v s.
Proof.
  intros Hm Hlen Ha. unfold mem_read.
  change UINT16_MAX with 65536.
  destruct (Z.eqb_spec (a mod 65536) Mr.KBSR) as [|_]; [contradiction|].
  unfold mbind, M_bind, bind, pass, mret, M_ret, ret.
  unfold memory_getitem. rewrite Hm.
  pose proof (mod_UINT16_MAX_index m a Hlen) as Hi.
  change UINT16_MAX with 65536 in Hi.
  rewrite array_index_in_range by exact Hi.
  destruct (lookup_lt_is_Some_2 m (Z.to_nat (a mod 65536))) as [v Hv]; [lia|].
  exists v. now rewrite Hv.
Qed.

(** C5, where the code departs from it: [check_key] answers whether stdin
    is ready for writing, whatever the keyboard holds. With no character
    pending on a host whose stdin is writable (a terminal), the read of
    0xFE00 sets the status cell and then waits in [getch] instead of
    returning 0; with a character pending on a host whose stdin is not
    writable, the read returns 0 and the character stays undelivered. A
    read of any other address returns the stored cell and changes
    nothing. *)
Theorem C5_keyboard_status_poll :
  (forall s, check_key s = Ok (stdin_writable s) s) /\
  stdin_pending zeroed = [] /\
  mem_read 0xFE00 zeroed
  = Block (with_memory
             (Some (<[Z.to_nat 0xFE00 := 0x8000]> (repeat 0 (Z.to_nat 65536))))
             zeroed) /\
  stdin_pending typed = [x61] /\
  mem_read 0xFE00 typed
  = Ok 0 (with_memory
            (Some (<[Z.to_nat 0xFE00 := 0]> (repeat 0 (Z.to_nat 65536))))
            typed) /\
  (forall s m a,
      memory s = Some m -> Z.of_nat (length m) = 65536 ->
      a mod 65536 <> 0xFE00 ->
      exists v, m !! Z.to_nat (a mod 65536) = Some v /\ mem_read a s = Ok v s).
Proof.
  assert (Z.of_nat (length (repeat 0 (Z.to_nat 65536))) = 65536) as Hlen
    by (rewrite repeat_length; lia).
  split; [exact check_key_writable|].
  split; [reflexivity|].
  split; [now apply mem_read_KBSR_writable|].
  split; [reflexivity|].
  split; [now apply mem_read_KBSR_not_writable|].
  exact mem_read_other.
Qed.

Lemma C5_keyboard_status_poll_witness :
  exists v, repeat 0 (Z.to_nat 65536) !! Z.to_nat (0x3000 mod 65536) = Some v /\
            mem_read 0x3000 zeroed = Ok v zeroed.
Proof.
  destruct C5_keyboard_status_poll as (_ & _ & _ & _ & _ & H).
  apply (H zeroed (repeat 0 (Z.to_nat 65536)) 0x3000 eq_refl).
  - rewrite repeat_length. lia.
  - discriminate.
Defined.

(** ** The IN trap *)

(** C8, where the code departs from it: [trap_in] writes the prompt and
    then raises. It asks [sys.stdout] for the character: the standard
    output is not readable ([io.UnsupportedOperation]), and were it
    readable, [vsys.stdout.read] returns [None] and the register write
    [None % 65536] is a [TypeError]. No character is taken from the
    keyboard, nothing is echoed and no register changes. *)
Theorem C8_trap_in_raises :
  forall s,
    trap_in s
    = Raise (if stdout_readable s then TypeError else UnsupportedOperation)
        (with_command_buffer (lit "IN")
           (with_output_buffer (output_buffer s ++ lit "Enter a character: ")
              (with_sys_stdout (sys_stdout s ++ lit "Enter a character: ") s))) /\
    reg (final_state (trap_in s)) = reg s /\
    stdin_pending (final_state (trap_in s)) = stdin_pending s.
Proof.
  intros s.
  assert (trap_in s
          = Raise (if stdout_readable s then TypeError else UnsupportedOperation)
              (with_command_buffer (lit "IN")
                 (with_output_buffer (output_buffer s ++ lit "Enter a character: ")
                    (with_sys_stdout (sys_stdout s ++ lit "Enter a character: ") s))))
    as H.
  { unfold trap_in, vsys.stdout_write, vsys.stdout_flush, vsys.stdout_read,
      sys_stdout_write, sys_stdout_flush, sys_stdout_read, set_command_buffer,
      register_dict_setitem, py_mod, modify, raise.
    unfold mbind, M_bind, bind, mret, M_ret, ret. simpl.
    destruct (stdout_readable s); reflexivity. }
  rewrite H. repeat split.
Qed.

(** ** Faults *)

Lemma keeps_reg_check_key : keeps_reg check_key.
Proof. intros s. now rewrite check_key_writable. Qed.

Lemma keeps_reg_mem_read a : keeps_reg (mem_read a).
Proof.
  unfold mem_read. cbv zeta. apply keeps_reg_bind.
  - destruct (_ =? _); [|now intros s].
    apply keeps_reg_bind; [apply keeps_reg_check_key|].
    intros [|]; [|apply keeps_reg_memory_setitem].
    apply keeps_reg_bind; [apply keeps_reg_memory_setitem|]. intros _.
    apply keeps_reg_bind; [apply keeps_reg_getch|]. intros c.
    apply keeps_reg_bind; [|intros; apply keeps_reg_memory_setitem].
    unfold ord. destruct c as [|? [|]]; now intros s.
  - intros _. apply keeps_reg_memory_getitem.
Qed.

Lemma fetch_and_execute_fetched s pc instr s1 :
  reg s !! R.PC = Some pc -> mem_read pc s = Ok instr s1 ->
  fetch_and_execute s
  = (call (default Fbad_opcode (ops !! Z.shiftr instr 12)) instr;;
     mret (Z.shiftr instr 12, default Fbad_opcode (ops !! Z.shiftr instr 12)))
      (with_reg (<[R.PC := (pc + 1) mod 65536]> (reg s1)) s1).
Proof.
  intros Hpc Hread.
  assert (reg s1 = reg s) as Hreg
    by (pose proof (keeps_reg_mem_read pc s) as H; now rewrite Hread in H).
  unfold fetch_and_execute.
  rewrite (bind_Ok (reg_getitem R.PC) _ s pc s)
    by (unfold reg_getitem; now rewrite Hpc).
  rewrite (bind_Ok (mem_read pc) _ s instr s1) by exact Hread.
  rewrite (bind_Ok (reg_getitem R.PC) _ s1 pc s1)
    by (unfold reg_getitem; now rewrite Hreg, Hpc).
  rewrite (bind_Ok (reg_set R.PC (pc + 1)) _ s1 tt
             (with_reg (<[R.PC := (pc + 1) mod 65536]> (reg s1)) s1))
    by reflexivity.
  reflexivity.
Qed.

Lemma ops_lookup_None op :
  ops !! op = None <->
  ~ (0 <= op <= 7 \/ 9 <= op <= 12 \/ 14 <= op <= 15).
Proof.
  unfold ops, dict. simpl.
  rewrite !lookup_insert, lookup_empty.
  unfold OP.ADD, OP.NOT, OP.AND, OP.BR, OP.JMP, OP.RET, OP.JSR, OP.LD, OP.LDI,
    OP.LDR, OP.LEA, OP.ST, OP.STI, OP.STR, OP.TRAP.
  repeat case_decide; split; intros Hx;
    try reflexivity; try discriminate; lia.
Qed.

Lemma traps_lookup_None v : traps !! v = None <-> ~ 0x20 <= v <= 0x25.
Proof.
  unfold traps, dict. simpl.
  rewrite !lookup_insert, lookup_empty.
  unfold Trap.GETC, Trap.OUT, Trap.PUTS, Trap.IN, Trap.PUTSP, Trap.HALT.
  repeat case_decide; split; intros Hx;
    try reflexivity; try discriminate; lia.
Qed.

Lemma ops_lookup_TRAP : ops !! OP.TRAP = Some Ftrap.
Proof. reflexivity. Qed.

Lemma gen_next_resumed g s :
  g = GenYieldOrig \/ g = GenYieldStep ->
  gen_next g s = gen_while (resumed g s).
Proof. intros [->| ->]; reflexivity. Qed.

Lemma drive_finished fuel s :
  (drive fuel GenFinished s).1.1 = [] /\ (drive fuel GenFinished s).2 = s.
Proof. destruct fuel; simpl; auto. Qed.

Lemma call_unregistered instr s :
  ops !! Z.shiftr instr 12 = None \/
  (Z.shiftr instr 12 = OP.TRAP /\ traps !! Z.land instr 0xFF = None) ->
  call (default Fbad_opcode (ops !! Z.shiftr instr 12)) instr s
  = Raise (fault_of instr) s.
Proof.
  unfold fault_of. intros [Hop|[Hop Htrap]].
  - rewrite Hop. case_decide as Heq.
    + rewrite Heq, ops_lookup_TRAP in Hop. discriminate.
    + reflexivity.
  - rewrite Hop, ops_lookup_TRAP. case_decide; [|contradiction].
    simpl. unfold trap. now rewrite Htrap.
Qed.

Lemma gen_while_unregistered s0 pc instr s1 :
  truthy (is_running s0) = true ->
  reg s0 !! R.PC = Some pc -> mem_read pc s0 = Ok instr s1 ->
  ops !! Z.shiftr instr 12 = None \/
  (Z.shiftr instr 12 = OP.TRAP /\ traps !! Z.land instr 0xFF = None) ->
  fetch_and_execute s0
  = Raise (fault_of instr)
      (with_reg (<[R.PC := (pc + 1) mod 65536]> (reg s1)) s1).
Proof.
  intros Hrun Hpc Hread Hop.
  rewrite (fetch_and_execute_fetched s0 pc instr s1 Hpc Hread).
  apply bind_Raise. now apply call_unregistered.
Qed.

(** C6: the opcodes without a handler are 8 and 13, the trap vectors
    without a handler are those outside 0x20..0x25. When the word fetched
    has such an opcode, or is a TRAP with such a vector, the step raises:
    the state is that of the fetch with the program counter advanced by
    one, no event is yielded, the generator is finished, so that any later
    [next] yields nothing and changes nothing; the loop of [main] ends with
    the same exception. *)
Theorem C6_unregistered_opcode_or_trap_is_fatal :
  (forall op, 0 <= op <= 15 -> (ops !! op = None <-> op = 8 \/ op = 13)) /\
  (forall v, traps !! v = None <-> ~ 0x20 <= v <= 0x25) /\
  (forall g s pc instr s1,
      g = GenYieldOrig \/ g = GenYieldStep ->
      truthy (is_running (resumed g s)) = true ->
      reg (resumed g s) !! R.PC = Some pc ->
      mem_read pc (resumed g s) = Ok instr s1 ->
      ops !! Z.shiftr instr 12 = None \/
      (Z.shiftr instr 12 = OP.TRAP /\ traps !! Z.land instr 0xFF = None) ->
      let s' := with_reg (<[R.PC := (pc + 1) mod 65536]> (reg s1)) s1 in
      gen_next g s = GenRaise (fault_of instr) s' /\
      gen_pos_after (gen_next g s) = GenFinished /\
      (forall fuel, drive (S fuel) g s = ([], Faulted (fault_of instr), s')) /\
      (forall fuel, (drive fuel GenFinished s').1.1 = [] /\
                    (drive fuel GenFinished s').2 = s') /\
      (forall fuel, main_while (S fuel) (resumed g s)
                    = Some (Raise (fault_of instr) s'))).
Proof.
  split; [|split].
  - intros op Hop. rewrite ops_lookup_None. lia.
  - exact traps_lookup_None.
  - intros g s pc instr s1 Hg Hrun Hpc Hread Hop s'.
    pose proof (gen_while_unregistered _ pc instr s1 Hrun Hpc Hread Hop) as Hfault.
    fold s' in Hfault.
    assert (gen_next g s = GenRaise (fault_of instr) s') as Hnext.
    { rewrite gen_next_resumed by exact Hg. unfold gen_while. rewrite Hrun.
      unfold gen_step. now rewrite (bind_Raise _ _ _ _ _ Hfault). }
    split; [exact Hnext|].
    split; [now rewrite Hnext|].
    split; [intros fuel; now rewrite drive_S, Hnext|].
    split; [intros fuel; apply drive_finished|].
    intros fuel. simpl. now rewrite Hrun, Hfault.
Qed.

Lemma about_to_run_fetch instr :
  0 <= instr <= 65535 ->
  mem_read PC_START (about_to_run instr) = Ok instr (about_to_run instr).
Proof.
  intros Hi.
  destruct (mem_read_other (about_to_run instr)
              (<[Z.to_nat PC_START := instr]> (repeat 0 (Z.to_nat 65536)))
              PC_START eq_refl) as (v & Hv & ->).
  - rewrite length_insert, repeat_length. lia.
  - discriminate.
  - rewrite list_lookup_insert_eq in Hv by (rewrite repeat_length; unfold PC_START; lia).
    now injection Hv as <-.
Qed.

Lemma C6_unregistered_opcode_witness :
  gen_next GenYieldOrig (about_to_run 0xD000)
  = GenRaise (Exception (lit "Bad opcode: 53248"))
      (with_reg (<[R.PC := 0x3001]> (reg (about_to_run 0xD000)))
         (about_to_run 0xD000)) /\
  gen_next GenYieldStep (about_to_run 0xF0FF)
  = GenRaise TypeError
      (with_reg (<[R.PC := 0x3001]>
                   (reg (resumed GenYieldStep (about_to_run 0xF0FF))))
         (resumed GenYieldStep (about_to_run 0xF0FF))).
Proof.
  destruct C6_unregistered_opcode_or_trap_is_fatal as (Hops & Htraps & H).
  split.
  - apply (H GenYieldOrig (about_to_run 0xD000) PC_START 0xD000
             (about_to_run 0xD000)).
    + left. reflexivity.
    + reflexivity.
    + apply lookup_insert_eq.
    + apply about_to_run_fetch. lia.
    + left. apply (Hops 13); lia.
  - apply (H GenYieldStep (about_to_run 0xF0FF) PC_START 0xF0FF
             (resumed GenYieldStep (about_to_run 0xF0FF))).
    + right. reflexivity.
    + reflexivity.
    + apply lookup_insert_eq.
    + apply (about_to_run_fetch 0xF0FF). lia.
    + right. split; [reflexivity|]. apply Htraps.
      change (Z.land 0xF0FF 0xFF) with 255. lia.
Defined.

(** ** Two runs in one process *)

Lemma keeps_reg_read_image_file f : keeps_reg (read_image_file f).
Proof.
  unfold read_image_file.
  apply keeps_reg_bind; [apply keeps_reg_open_rb|]. intros bs.
  destruct (file_read 2 bs) as [header rest].
  apply keeps_reg_bind; [now intros s|]. intros _.
  destruct (file_read _ rest) as [body rest'].
  apply keeps_reg_bind.
  { unfold memory_frombytes.
    destruct (_ =? _); [apply keeps_reg_memory_update|now intros s]. }
  intros _. apply keeps_reg_bind; [apply keeps_reg_memory_update|].
  intros _. apply keeps_reg_bind; [apply keeps_reg_memory_len|].
  intros n. apply keeps_reg_memory_update.
Qed.

(** What the start of the generator resets: it writes the program counter
    and no other register. *)
Lemma gen_prologue_registers args s e s' :
  gen_prologue args s = Ok e s' ->
  reg s' = <[R.PC := PC_START]> (reg s) /\ is_running s' = 1.
Proof.
  unfold gen_prologue, load_args. intros H.
  apply bind_Ok_inv in H as ([] & s1 & H1 & H).
  injection H1 as <-.
  apply bind_Ok_inv in H as ([] & s2 & H2 & H).
  apply bind_Ok_inv in H as (pc & s3 & Hpc & H).
  apply reg_getitem_Ok in Hpc as [-> _]. injection H as _ <-.
  apply bind_Ok_inv in H2 as ([] & s3 & Hcheck & H2).
  apply bind_Ok_inv in H2 as ([] & s4 & Hload & H2).
  injection H2 as <-.
  assert (reg s3 = reg s /\ is_running s3 = 1) as [Hr3 Hi3].
  { destruct (_ <? 2).
    - apply bind_Ok_inv in Hcheck as (? & ? & _ & Hexit). discriminate.
    - injection Hcheck as <-. auto. }
  assert (reg s4 = reg s3 /\ is_running s4 = is_running s3) as [Hr4 Hi4].
  { destruct (args !! 1%nat) as [f|]; [|discriminate].
    pose proof (keeps_reg_read_image_file f s3) as Hk. rewrite Hload in Hk.
    split; [exact Hk|].
    clear - Hload. unfold read_image_file in Hload.
    apply bind_Ok_inv in Hload as (bs & s5 & Hopen & Hload).
    assert (s5 = s3) as ->
      by (unfold open_rb in Hopen; destruct (files s3 !! f);
          [now injection Hopen|discriminate]).
    destruct (file_read 2 bs) as [header rest].
    destruct (file_read _ rest) as [body rest'].
    unfold mbind, M_bind, bind, modify, memory_frombytes, memory_byteswap,
      memory_len, memory_fromlist, memory_update, raise in Hload.
    simpl in Hload.
    destruct (_ =? _); [|discriminate].
    now injection Hload as <-. }
  simpl. now rewrite Hr4, Hr3, Hi4, Hi3.
Qed.

(** C9, where the code departs from it: the generator resets [is_running],
    the memory and the program counter, and leaves R0..R7 and COND as the
    previous run left them. Two runs of one image with the same (empty)
    input in one process: both end by HALT after four events at the same
    program counters; the first starts with R0 = 0 and writes the character
    1, it leaves R0 = 1, and the second writes the character 2, so the
    events differ. *)
Theorem C9_second_run_sees_first_run_registers :
  first_run.1.2 = Exhausted /\
  second_run.1.2 = Exhausted /\
  reg host !! R.R0 = Some 0 /\
  reg first_run.2 !! R.R0 = Some 1 /\
  stdin_pending host = stdin_pending first_run.2 /\
  map ev_PC first_run.1.1 = map ev_PC second_run.1.1 /\
  map ev_output_buffer first_run.1.1 = [None; Some []; Some [1]; Some []] /\
  map ev_output_buffer second_run.1.1 = [None; Some []; Some [2]; Some []] /\
  map ev_output_buffer first_run.1.1 <> map ev_output_buffer second_run.1.1.
Proof.
  vm_compute. repeat split. discriminate.
Qed.

(** ** The PUTS trap *)

Lemma range_nil lo hi : hi <= lo -> range lo hi = [].
Proof. intros H. unfold range. now replace (Z.to_nat (hi - lo)) with O by lia. Qed.

Lemma range_cons lo hi : lo < hi -> range lo hi = lo :: range (lo + 1) hi.
Proof.
  intros H. unfold range.
  replace (Z.to_nat (hi - lo)) with (S (Z.to_nat (hi - (lo + 1)))) by lia.
  simpl. f_equal; [lia|].
  rewrite <- seq_shift, map_map. apply map_ext. intros k. lia.
Qed.

Lemma wrote_nil s : wrote [] s = s.
Proof. destruct s. unfold wrote. simpl. now rewrite !app_nil_r. Qed.

Lemma wrote_wrote a b s : wrote b (wrote a s) = wrote (a ++ b) s.
Proof. destruct s. unfold wrote. simpl. now rewrite !app_assoc. Qed.

Lemma sys_stdout_write_encodable c s :
  forallb encodable c = true ->
  sys_stdout_write c s = Ok tt (with_sys_stdout (sys_stdout s ++ c) s).
Proof. intros H. unfold sys_stdout_write. now rewrite H. Qed.

Lemma sys_stdout_write_unencodable c s :
  forallb encodable c = false ->
  sys_stdout_write c s = Raise UnicodeEncodeError s.
Proof. intros H. unfold sys_stdout_write. now rewrite H. Qed.

Lemma vsys_stdout_write_wrote c s :
  forallb encodable c = true -> vsys.stdout_write c s = Ok tt (wrote c s).
Proof.
  intros H. unfold vsys.stdout_write.
  now rewrite (bind_Ok _ _ _ _ _ (sys_stdout_write_encodable c s H)).
Qed.

Lemma vsys_stdout_write_unencodable c s :
  forallb encodable c = false ->
  vsys.stdout_write c s = Raise UnicodeEncodeError s.
Proof.
  intros H. unfold vsys.stdout_write.
  now rewrite (bind_Raise _ _ _ _ _ (sys_stdout_write_unencodable c s H)).
Qed.

Lemma memory_getitem_in_range s m i c :
  memory s = Some m -> 0 <= i -> m !! Z.to_nat i = Some c ->
  memory_getitem i s = Ok c s.
Proof.
  intros Hm Hi Hc. unfold memory_getitem. rewrite Hm.
  rewrite array_index_in_range, Hc; [reflexivity|].
  apply lookup_lt_Some in Hc. lia.
Qed.

Lemma encodable_prefix_all l :
  forallb encodable l = true -> encodable_prefix l = l.
Proof.
  induction l as [|c l IH]; simpl; [reflexivity|].
  destruct (encodable c); simpl; [|discriminate].
  intros H. now rewrite IH.
Qed.

Lemma encodable_prefix_split l :
  exists rest,
    l = encodable_prefix l ++ rest /\
    (rest = [] \/ exists c rest', rest = c :: rest' /\ encodable c = false).
Proof.
  induction l as [|c l (rest & IH & Hrest)]; simpl.
  - exists []. auto.
  - destruct (encodable c) eqn:Hc.
    + exists rest. split; [simpl; f_equal; exact IH|exact Hrest].
    + exists (c :: l). split; [reflexivity|]. right. eauto.
Qed.

(** The loop of [trap_puts]: it ends at the first zero cell, at the last
    cell of the memory, or at the first cell the console cannot encode. *)
Lemma trap_puts_for_until_zero m :
  Forall (fun c => 0 <= c <= 65535) m ->
  forall (d : nat) r0 s,
    memory s = Some m -> 0 <= r0 ->
    Z.to_nat (Z.of_nat (length m) - r0) = d ->
    let text := until_zero (drop (Z.to_nat r0) m) in
    trap_puts_for (range r0 (Z.of_nat (length m))) s
    = if forallb encodable text
      then Ok tt (wrote text s)
      else Raise UnicodeEncodeError (wrote (encodable_prefix text) s).
Proof.
  intros Hcells. induction d as [|d IH]; intros r0 s Hm Hr0 Hd; cbv zeta.
  - rewrite range_nil by lia. rewrite drop_ge by lia. simpl.
    now rewrite wrote_nil.
  - rewrite range_cons by lia.
    destruct (lookup_lt_is_Some_2 m (Z.to_nat r0)) as [c Hc]; [lia|].
    rewrite (drop_S _ _ _ Hc). simpl.
    rewrite (bind_Ok _ _ _ _ _ (memory_getitem_in_range s m r0 c Hm Hr0 Hc)).
    destruct (Z.eqb_spec c 0) as [->|Hne]; [simpl; now rewrite wrote_nil|].
    assert (0 <= c <= 65535) as Hrange
      by (eapply Forall_lookup_1 in Hcells; [exact Hcells|exact Hc]).
    unfold chr.
    assert ((0 <=? c) && (c <? 0x110000) = true) as -> by lia.
    unfold mbind at 1, M_bind, bind at 1, mret, M_ret, ret.
    simpl forallb. simpl encodable_prefix.
    destruct (encodable c) eqn:Henc.
    + rewrite (bind_Ok _ _ _ _ _ (vsys_stdout_write_wrote [c] s
                                    ltac:(simpl; now rewrite Henc))).
      specialize (IH (r0 + 1) (wrote [c] s) Hm ltac:(lia) ltac:(lia)).
      cbv zeta in IH. rewrite IH.
      replace (Z.to_nat (r0 + 1)) with (S (Z.to_nat r0)) by lia.
      rewrite andb_true_l.
      destruct (forallb encodable (until_zero (drop (S (Z.to_nat r0)) m)));
        rewrite wrote_wrote; reflexivity.
    + rewrite (bind_Raise _ _ _ _ _ (vsys_stdout_write_unencodable [c] s
                                       ltac:(simpl; now rewrite Henc))).
      simpl. now rewrite wrote_nil.
Qed.

Lemma until_zero_prefix l :
  exists rest,
    l = until_zero l ++ rest /\ (rest = [] \/ exists rest', rest = 0 :: rest').
Proof.
  induction l as [|c l (rest & IH & Hrest)]; simpl.
  - exists []. auto.
  - destruct (Z.eqb_spec c 0) as [->|Hne].
    + exists (0 :: l). eauto.
    + exists rest. split; [simpl; f_equal; exact IH|exact Hrest].
Qed.

Lemma until_zero_nonzero l : Forall (fun c => c <> 0) (until_zero l).
Proof.
  induction l as [|c l IH]; simpl; [constructor|].
  destruct (Z.eqb_spec c 0); [constructor|now constructor].
Qed.

Lemma until_zero_all l : Forall (fun c => c <> 0) l -> until_zero l = l.
Proof.
  induction 1 as [|c l Hc _ IH]; simpl; [reflexivity|].
  destruct (Z.eqb_spec c 0); [contradiction|now rewrite IH].
Qed.

(** C10, as the code has it: the PUTS trap returns or raises, on every
    register file and every memory; it never loops. With [text] the cells
    from address R0 up to, not including, the first zero cell: the cells
    read end at the first zero cell or at the last cell of the memory, and
    when no cell from R0 on is zero, [text] is all the cells from R0 to the
    last address, nothing from below R0 following. When the console can
    encode every character of [text], the trap writes exactly [text] to
    the console and to the output buffer and returns. When it cannot, the
    trap writes the characters before the first one it cannot encode and
    raises [UnicodeEncodeError] there. *)
Theorem C10_trap_puts_terminates :
  forall s m r0,
    reg s !! R.R0 = Some r0 -> 0 <= r0 <= 65535 ->
    memory s = Some m -> Forall (fun c => 0 <= c <= 65535) m ->
    let cells := drop (Z.to_nat r0) m in
    let text := until_zero cells in
    let out := encodable_prefix text in
    trap_puts s
    = (if forallb encodable text
       then Ok tt (with_command_buffer
                     (lit "PUTS ; output a byte string ("
                        ++ (output_buffer s ++ text) ++ lit ")")
                     (wrote text s))
       else Raise UnicodeEncodeError (wrote out s)) /\
    sys_stdout (final_state (trap_puts s)) = sys_stdout s ++ out /\
    (forallb encodable text = true -> out = text) /\
    (exists rest, text = out ++ rest /\
                  (rest = [] \/
                   exists c rest', rest = c :: rest' /\ encodable c = false)) /\
    Forall (fun c => c <> 0) text /\
    (exists rest, cells = text ++ rest /\
                  (rest = [] \/ exists rest', rest = 0 :: rest')) /\
    (Forall (fun c => c <> 0) cells -> text = cells).
Proof.
  intros s m r0 Hr0 Hrange Hm Hcells cells text out.
  assert (trap_puts s
          = (if forallb encodable text
             then Ok tt (with_command_buffer
                           (lit "PUTS ; output a byte string ("
                              ++ (output_buffer s ++ text) ++ lit ")")
                           (wrote text s))
             else Raise UnicodeEncodeError (wrote out s))) as H.
  { unfold trap_puts.
    rewrite (bind_Ok (reg_getitem R.R0) _ s r0 s)
      by (unfold reg_getitem; now rewrite Hr0).
    rewrite (bind_Ok memory_len _ s (Z.of_nat (length m)) s)
      by (unfold memory_len; now rewrite Hm).
    pose proof (trap_puts_for_until_zero m Hcells _ r0 s Hm ltac:(lia) eq_refl)
      as Hfor.
    cbv zeta in Hfor. fold cells text out in Hfor.
    destruct (forallb encodable text).
    - now rewrite (bind_Ok _ _ _ _ _ Hfor).
    - now rewrite (bind_Raise _ _ _ _ _ Hfor). }
  split; [exact H|]. split.
  { rewrite H. destruct (forallb encodable text) eqn:Henc; simpl.
    - unfold out. now rewrite (encodable_prefix_all text Henc).
    - reflexivity. }
  split; [apply encodable_prefix_all|].
  split; [apply encodable_prefix_split|].
  split; [apply until_zero_nonzero|].
  split; [apply until_zero_prefix|apply until_zero_all].
Qed.

Lemma C10_trap_puts_witness :
  sys_stdout (final_state (trap_puts greeting)) = [72; 73].
Proof.
  assert (Forall (fun c => 0 <= c <= 65535)
            (<[Z.to_nat 0x4003 := 33]>
               (<[Z.to_nat 0x4001 := 73]>
                  (<[Z.to_nat 0x4000 := 72]> (repeat 0 (Z.to_nat 65536))))))
    as Hcells.
  { repeat (apply Forall_insert; [|lia]).
    apply Forall_forall. intros c Hc.
    apply list_elem_of_In, repeat_spec in Hc. lia. }
  destruct (C10_trap_puts_terminates greeting _ 0x4000 eq_refl
              ltac:(lia) eq_refl Hcells) as (_ & -> & _).
  vm_compute. reflexivity.
Defined.

(** C10, as stated, fails: with the cells H, 0xD800, I and a zero from R0
    on, the trap writes H and raises [UnicodeEncodeError] at the surrogate;
    it does not write the three characters and does not return. *)
Lemma C10_trap_puts_counterexample :
  reg garbled !! R.R0 = Some 0x4000 /\
  cell garbled 0x4000 = Some 72 /\ cell garbled 0x4001 = Some 0xD800 /\
  cell garbled 0x4002 = Some 73 /\ cell garbled 0x4003 = Some 0 /\
  (exists s', trap_puts garbled = Raise UnicodeEncodeError s' /\
              sys_stdout s' = [72]) /\
  ~ exists s', trap_puts garbled = Ok tt s'.
Proof.
  assert (match trap_puts garbled with
          | Raise UnicodeEncodeError s' => sys_stdout s' = [72]
          | _ => False
          end) as H by (vm_compute; reflexivity).
  do 5 (split; [vm_compute; reflexivity|]).
  destruct (trap_puts garbled) as [[] s'|e s'|s']; try contradiction.
  destruct e; try contradiction.
  split; [now exists s'|]. intros [s'' Hs'']. discriminate.
Qed.

(** ** The image loader *)

Lemma byte_range b : 0 <= Z.of_N (Byte.to_N b) <= 255.
Proof. pose proof (Byte.to_N_bounded b). lia. Qed.

Lemma swap_bytes_native b0 b1 :
  0 <= b0 <= 255 -> 0 <= b1 <= 255 ->
  swap_bytes (b0 + 256 * b1) = 256 * b0 + b1.
Proof.
  intros H0 H1. unfold swap_bytes.
  change 0xFF with (Z.ones 8). rewrite Z.land_ones by lia.
  rewrite Z.shiftr_div_pow2 by lia. change (2 ^ 8) with 256.
  replace ((b0 + 256 * b1) mod 256) with b0
    by (rewrite Z.mul_comm, Z.mod_add by lia;
        symmetry; apply Z.mod_small; lia).
  replace ((b0 + 256 * b1) / 256) with b1
    by (rewrite Z.mul_comm, Z.div_add by lia;
        rewrite Z.div_small by lia; lia).
  rewrite Z.lor_comm, lor_shiftl_add by (change (2 ^ 8) with 256; lia).
  change (2 ^ 8) with 256. lia.
Qed.

Lemma list_pair_ind {A} (P : list A -> Prop) :
  P [] -> (forall a, P [a]) -> (forall a b l, P l -> P (a :: b :: l)) ->
  forall l, P l.
Proof.
  intros Hnil Hone Hstep l.
  assert (P l /\ forall a, P (a :: l)) as [H _]; [|exact H].
  induction l as [|b l [IH1 IH2]]; split; auto.
Qed.

Lemma byteswap_items bs : map swap_bytes (items_of_bytes bs) = be_words bs.
Proof.
  induction bs as [|a|a b l IH] using list_pair_ind; [reflexivity..|].
  simpl items_of_bytes. simpl be_words. rewrite map_cons, IH.
  now rewrite swap_bytes_native by apply byte_range.
Qed.

Lemma length_be_words bs :
  Z.of_nat (length (be_words bs)) = Z.of_nat (length bs) / 2.
Proof.
  induction bs as [|a|a b l IH] using list_pair_ind; [reflexivity..|].
  simpl be_words. rewrite !length_cons, !Nat2Z.inj_succ, IH.
  replace (Z.succ (Z.succ (Z.of_nat (length l))))
    with (Z.of_nat (length l) + 1 * 2) by lia.
  rewrite Z.div_add by lia. lia.
Qed.

Lemma be_words_lookup i : forall bs b0 b1,
  bs !! (2 * i)%nat = Some b0 -> bs !! (2 * i + 1)%nat = Some b1 ->
  be_words bs !! i = Some (256 * byte_value b0 + byte_value b1).
Proof.
  induction i as [|i IH]; intros bs b0 b1 H0 H1.
  - destruct bs as [|a [|b l]]; simpl in *; try discriminate.
    injection H0 as <-. injection H1 as <-. reflexivity.
  - replace (2 * S i)%nat with (S (S (2 * i))) in H0 by lia.
    replace (2 * S i + 1)%nat with (S (S (2 * i + 1))) in H1 by lia.
    destruct bs as [|a [|b l]]; simpl in H0, H1; try discriminate.
    simpl be_words. now apply (IH l).
Qed.

Lemma lookup_repeat {A} (x : A) n i : (i < n)%nat -> repeat x n !! i = Some x.
Proof.
  revert i. induction n as [|n IH]; intros [|i] H; simpl; try lia; auto.
  apply IH. lia.
Qed.

Lemma int_from_bytes_big_header bs :
  0 <= int_from_bytes_big (take 2 bs) <= 65535.
Proof.
  unfold int_from_bytes_big.
  destruct bs as [|a [|b l]]; simpl;
    try pose proof (byte_range a); try pose proof (byte_range b); lia.
Qed.

Lemma read_image_file_spec s name bs :
  files s !! name = Some bs ->
  let origin := int_from_bytes_big (take 2 bs) in
  let body := take (Z.to_nat (65536 - origin)) (drop 2 bs) in
  let s0 := with_memory_id (S (memory_id s)) s in
  read_image_file name s
  = if Z.of_nat (length body) mod 2 =? 0
    then Ok tt (with_memory (Some (image_memory origin body)) s0)
    else Raise ValueError (with_memory (Some (repeat 0 (Z.to_nat origin))) s0).
Proof.
  intros Hfile origin body s0.
  pose proof (int_from_bytes_big_header bs) as Ho. fold origin in Ho.
  unfold read_image_file.
  rewrite (bind_Ok (open_rb name) _ s bs s)
    by (unfold open_rb; now rewrite Hfile).
  unfold file_read. change (2 <? 0) with false. cbv iota beta.
  change (Z.to_nat 2) with 2%nat. fold origin. change UINT16_MAX with 65536.
  assert ((65536 - origin <? 0) = false) as -> by lia.
  fold body.
  unfold mbind, M_bind, bind, modify, memory_frombytes.
  destruct (Z.of_nat (length body) mod 2 =? 0); [|reflexivity].
  unfold memory_update, memory_byteswap, memory_update, memory_len,
    memory_fromlist, memory_update. simpl.
  unfold image_memory.
  rewrite map_app, map_repeat, byteswap_items. change (swap_bytes 0) with 0.
  rewrite length_app, repeat_length, <- app_assoc.
  replace (Z.to_nat (65536 - Z.of_nat (Z.to_nat origin + length (be_words body))))
    with (Z.to_nat (65536 - origin - Z.of_nat (length (be_words body)))) by lia.
  reflexivity.
Qed.

Lemma read_image_file_memory s name bs :
  files s !! name = Some bs ->
  let origin := int_from_bytes_big (take 2 bs) in
  let body := take (Z.to_nat (65536 - origin)) (drop 2 bs) in
  memory (final_state (read_image_file name s))
  = Some (if Z.of_nat (length body) mod 2 =? 0
          then image_memory origin body
          else repeat 0 (Z.to_nat origin)).
Proof.
  intros Hfile origin body.
  rewrite (read_image_file_spec s name bs Hfile). fold origin body.
  destruct (_ =? _); reflexivity.
Qed.

Lemma image_memory_length origin body :
  0 <= origin -> Z.of_nat (length body) <= 65536 - origin ->
  Z.of_nat (length (image_memory origin body)) = 65536.
Proof.
  intros Ho Hfit. unfold image_memory.
  rewrite !length_app, !repeat_length.
  pose proof (length_be_words body) as Hw.
  assert (0 <= Z.of_nat (length body) / 2 <= Z.of_nat (length body)) as Hhalf
    by (split; [apply Z.div_pos; lia|apply Z.div_le_upper_bound; lia]).
  set (words := be_words body) in *.
  set (half := Z.of_nat (length body) / 2) in *.
  lia.
Qed.

Lemma image_memory_word origin body i b0 b1 :
  body !! (2 * i)%nat = Some b0 -> body !! (2 * i + 1)%nat = Some b1 ->
  image_memory origin body !! (Z.to_nat origin + i)%nat
  = Some (256 * byte_value b0 + byte_value b1).
Proof.
  intros H0 H1. unfold image_memory.
  pose proof (be_words_lookup i body b0 b1 H0 H1) as Hw.
  rewrite lookup_app_r by (rewrite repeat_length; lia).
  rewrite repeat_length.
  replace (Z.to_nat origin + i - Z.to_nat origin)%nat with i by lia.
  rewrite lookup_app_l by (now apply lookup_lt_Some in Hw).
  exact Hw.
Qed.

Lemma image_memory_zero origin body a :
  0 <= origin -> Z.of_nat (length body) <= 65536 - origin ->
  Z.of_nat a < 65536 ->
  Z.of_nat a < origin \/ origin + Z.of_nat (length body) / 2 <= Z.of_nat a ->
  image_memory origin body !! a = Some 0.
Proof.
  intros Ho Hfit Ha Hout. unfold image_memory.
  pose proof (length_be_words body) as Hw.
  assert (0 <= Z.of_nat (length body) / 2 <= Z.of_nat (length body)) as Hhalf
    by (split; [apply Z.div_pos; lia|apply Z.div_le_upper_bound; lia]).
  set (words := be_words body) in *.
  set (half := Z.of_nat (length body) / 2) in *.
  destruct Hout as [Hlow|Hhigh].
  - rewrite lookup_app_l by (rewrite repeat_length; lia).
    apply lookup_repeat. lia.
  - rewrite lookup_app_r by (rewrite repeat_length; lia).
    rewrite repeat_length.
    rewrite lookup_app_r by lia.
    apply lookup_repeat. lia.
Qed.

(** C7, as the code has it: the origin is the first two bytes, big-endian;
    no byte beyond the remaining capacity of the address space, the 65536
    - origin words after the origin, is read: what follows them in the
    stream has no effect on the memory. For a stream whose body, the bytes
    after the first two, has no more than 65536 - origin bytes: when the
    body has an even number of bytes, the load succeeds, the memory has
    65536 cells, the cell at origin + i is the i-th big-endian word of the
    body, and every cell below the origin or past the last word is zero;
    when the body has an odd number of bytes, the stream being cut in the
    middle of a word, the load fails with a [ValueError], the memory left
    as the zeros below the origin. Nothing is said of how a longer body is
    placed. *)
Theorem C7_image_loader :
  forall s name bs,
    files s !! name = Some bs ->
    let origin := int_from_bytes_big (take 2 bs) in
    let body := drop 2 bs in
    let loaded := with_memory_id (S (memory_id s)) s in
    (forall o1 o2, bs !! 0%nat = Some o1 -> bs !! 1%nat = Some o2 ->
                   origin = 256 * byte_value o1 + byte_value o2) /\
    (forall s2 bs2,
        files s2 !! name = Some bs2 ->
        take (2 + 2 * Z.to_nat (65536 - origin)) bs2
        = take (2 + 2 * Z.to_nat (65536 - origin)) bs ->
        memory (final_state (read_image_file name s2))
        = memory (final_state (read_image_file name s))) /\
    (Z.of_nat (length body) <= 65536 - origin ->
     (Z.of_nat (length body) mod 2 = 0 ->
      exists m,
        read_image_file name s = Ok tt (with_memory (Some m) loaded) /\
        Z.of_nat (length m) = 65536 /\
        (forall i b0 b1,
            body !! (2 * i)%nat = Some b0 -> body !! (2 * i + 1)%nat = Some b1 ->
            m !! (Z.to_nat origin + i)%nat
            = Some (256 * byte_value b0 + byte_value b1)) /\
        (forall a, Z.of_nat a < 65536 ->
                   Z.of_nat a < origin \/
                   origin + Z.of_nat (length body) / 2 <= Z.of_nat a ->
                   m !! a = Some 0)) /\
     (Z.of_nat (length body) mod 2 = 1 ->
      read_image_file name s
      = Raise ValueError
          (with_memory (Some (repeat 0 (Z.to_nat origin))) loaded))).
Proof.
  intros s name bs Hfile origin body loaded.
  pose proof (int_from_bytes_big_header bs) as Ho. fold origin in Ho.
  split; [|split].
  - intros o1 o2 H1 H2. unfold origin, int_from_bytes_big, byte_value.
    destruct bs as [|a [|b l]]; try discriminate.
    injection H1 as <-. injection H2 as <-. simpl. lia.
  - intros s2 bs2 Hfile2 Hwords.
    assert (take (2 + Z.to_nat (65536 - origin)) bs2
            = take (2 + Z.to_nat (65536 - origin)) bs) as Hsame.
    { apply (f_equal (take (2 + Z.to_nat (65536 - origin)))) in Hwords.
      rewrite !take_take in Hwords.
      now replace ((2 + Z.to_nat (65536 - origin))
                   `min` (2 + 2 * Z.to_nat (65536 - origin)))%nat
        with (2 + Z.to_nat (65536 - origin))%nat in Hwords by lia. }
    assert (take 2 bs2 = take 2 bs) as Hhead.
    { apply (f_equal (take 2)) in Hsame. rewrite !take_take in Hsame.
      now replace (2 `min` (2 + Z.to_nat (65536 - origin)))%nat with 2%nat
        in Hsame by lia. }
    rewrite (read_image_file_memory s2 name bs2 Hfile2).
    rewrite (read_image_file_memory s name bs Hfile).
    rewrite Hhead. fold origin.
    now rewrite !take_drop_commute, Hsame.
  - intros Hfit.
    pose proof (read_image_file_spec s name bs Hfile) as Hspec.
    cbv zeta in Hspec. fold origin in Hspec.
    rewrite (take_ge (drop 2 bs)) in Hspec by (fold body; lia).
    fold body loaded in Hspec.
    split; intros Hparity; rewrite Hparity in Hspec; simpl in Hspec.
    + exists (image_memory origin body).
      split; [exact Hspec|].
      split; [apply image_memory_length; lia|].
      split; [intros; now apply image_memory_word|].
      intros. apply image_memory_zero; auto; lia.
    + exact Hspec.
Qed.

Lemma C7_image_loader_witness :
  (exists m,
      read_image_file "count.obj" host
      = Ok tt (with_memory (Some m) (with_memory_id 1 host)) /\
      m !! Z.to_nat 0x3001 = Some 0xF021) /\
  read_image_file "cut.obj" cut_host
  = Raise ValueError
      (with_memory (Some (repeat 0 (Z.to_nat 0x3000))) (with_memory_id 1 cut_host)).
Proof.
  split.
  - destruct (C7_image_loader host "count.obj" count_image eq_refl)
      as (_ & _ & H).
    destruct H as [H _]; [vm_compute; discriminate|].
    destruct H as (m & Hrun & _ & Hword & _); [reflexivity|].
    exists m. split; [exact Hrun|].
    apply (Hword 1%nat xf0 x21); reflexivity.
  - destruct (C7_image_loader cut_host "cut.obj" [x30; x00; xf0; x25; x12]
                eq_refl) as (_ & _ & H).
    destruct H as [_ H]; [vm_compute; discriminate|].
    apply H. reflexivity.
Defined.

(** C7, as stated, fails: a stream cut in the middle of its second word is
    not loaded up to the cut; the load raises [ValueError] and the memory
    is left with the zeros below the origin, without the first word. *)
Lemma C7_image_loader_counterexample :
  read_image_file "cut.obj" cut_host
  = Raise ValueError
      (with_memory (Some (repeat 0 (Z.to_nat 0x3000))) (with_memory_id 1 cut_host)) /\
  ~ exists s', read_image_file "cut.obj" cut_host = Ok tt s'.
Proof.
  assert (read_image_file "cut.obj" cut_host
          = Raise ValueError
              (with_memory (Some (repeat 0 (Z.to_nat 0x3000)))
                 (with_memory_id 1 cut_host))) as H
    by (vm_compute; reflexivity).
  split; [exact H|]. intros [s' Hs']. rewrite H in Hs'. discriminate.
Qed.

(** The loader counts what it reads in bytes where the address space is
    counted in words: at origin 0xFFFE two words fit, two bytes are read,
    and the second word of the image is not loaded. *)
Lemma read_image_file_reads_bytes_not_words :
  cell (final_state (read_image_file "top.obj" top_host)) 0xFFFE = Some 1 /\
  cell (final_state (read_image_file "top.obj" top_host)) 0xFFFF = Some 0.
Proof. split; vm_compute; reflexivity. Qed.

Lemma triple_ret {A} E (a : A) (Q : A -> Prop) : Q a -> triple E (mret a) Q.
Proof. intros HQ s Hs. simpl. auto. Qed.

Lemma triple_bind {A B} E (m : M A) (f : A -> M B) Q R :
  triple E m Q -> (forall a, Q a -> triple E (f a) R) -> triple E (m ≫= f) R.
Proof.
  intros Hm Hf s Hs. specialize (Hm s Hs).
  unfold mbind, M_bind, bind. destruct (m s) as [a s'|e s'|s']; auto.
  destruct Hm as [Hs' Ha]. exact (Hf a Ha s' Hs').
Qed.

Lemma triple_weaken {A} (E E' : exn -> Prop) (m : M A) (Q Q' : A -> Prop) :
  triple E m Q -> (forall e, E e -> E' e) -> (forall a, Q a -> Q' a) ->
  triple E' m Q'.
Proof.
  intros Hm HE HQ s Hs. specialize (Hm s Hs).
  destruct (m s); intuition auto.
Qed.

Lemma good_same s s' :
  reg s' = reg s -> memory s' = memory s -> good s -> good s'.
Proof.
  intros Hr Hm (H1 & H2 & H3 & H4).
  unfold good, reg_full, reg_ok, memory_ok, cond_ok in *.
  rewrite Hr, Hm. auto.
Qed.

Lemma triple_modify E (f : state -> state) :
  (forall s, reg (f s) = reg s) -> (forall s, memory (f s) = memory s) ->
  triple E (modify f) any.
Proof.
  intros Hr Hm s Hs. simpl. split; [|exact I].
  now apply (good_same s).
Qed.

Lemma triple_gets {A} E (f : state -> A) : triple E (gets f) any.
Proof. intros s Hs. simpl. split; [exact Hs|exact I]. Qed.

Lemma triple_pass E : triple E pass any.
Proof. now apply triple_ret. Qed.

Lemma triple_reg_getitem E k :
  0 <= k < R.COUNT -> triple E (reg_getitem k) is_word.
Proof.
  intros Hk s Hs. pose proof Hs as (Hfull & Hok & _).
  destruct (Hfull k Hk) as [v Hv]. unfold reg_getitem. rewrite Hv.
  split; [exact Hs|]. exact (Hok k v Hv).
Qed.

Lemma good_reg_set s k v :
  good s -> 0 <= k < R.COND ->
  good (with_reg (<[k := v mod UINT16_MAX]> (reg s)) s).
Proof.
  intros (Hfull & Hok & Hmem & c & Hc & Hflag) Hk.
  unfold R.COND in *.
  split; [|split; [|split]].
  - intros k' Hk'. simpl. rewrite lookup_insert. case_decide; [eauto|].
    now apply Hfull.
  - now apply reg_ok_insert.
  - exact Hmem.
  - exists c. split; [|exact Hflag]. simpl.
    rewrite lookup_insert_ne; [exact Hc|unfold R.COND; lia].
Qed.

Lemma triple_reg_set E k v :
  0 <= k < R.COND -> triple E (reg_set k v) any.
Proof. intros Hk s Hs. simpl. split; [now apply good_reg_set|exact I]. Qed.

Lemma good_set_flag s f :
  good s -> f = FL.POS \/ f = FL.ZRO \/ f = FL.NEG ->
  good (with_reg (<[R.COND := f]> (reg s)) s).
Proof.
  intros (Hfull & Hok & Hmem & _) Hf.
  split; [|split; [|split]].
  - intros k' Hk'. simpl. rewrite lookup_insert. case_decide; [eauto|].
    now apply Hfull.
  - intros k' v'. simpl. rewrite lookup_insert. case_decide; [|apply Hok].
    intros [= <-].
    destruct Hf as [-> | [-> | ->]]; vm_compute; split; discriminate.
  - exact Hmem.
  - exists f. split; [apply lookup_insert_eq|auto].
Qed.

Lemma land_7_register x : 0 <= Z.land x 0x7 < R.COND.
Proof. pose proof (land_7_key x). unfold R.COUNT, R.COND in *.
  change 0x7 with (Z.ones 3). rewrite Z.land_ones by lia.
  pose proof (Z.mod_pos_bound x (2 ^ 3)). change (2 ^ 3) with 8 in *. lia.
Qed.

Lemma flag_of_flag v : flag_of v = FL.POS \/ flag_of v = FL.ZRO \/ flag_of v = FL.NEG.
Proof. unfold flag_of. destruct (v =? 0); [|destruct (Z.testbit v 15)]; auto. Qed.

Lemma triple_update_flags E r :
  0 <= r < R.COUNT -> triple E (update_flags r) any.
Proof.
  intros Hr s Hs. pose proof Hs as (Hfull & Hok & _).
  destruct (Hfull r Hr) as [v Hv].
  rewrite (update_flags_word r v s Hv (Hok r v Hv)).
  split; [|exact I]. apply good_set_flag; [exact Hs|apply flag_of_flag].
Qed.

Lemma triple_sign_extend E x n : 1 <= n -> triple E (sign_extend x n) any.
Proof.
  intros Hn s Hs. destruct (sign_extend_returns x n s Hn) as [v ->].
  split; [exact Hs|exact I].
Qed.

Lemma any_I {A} (a : A) : any a.
Proof. exact I. Qed.

Lemma good_memory s : good s ->
  exists m, memory s = Some m /\ Z.of_nat (length m) = 65536 /\
            Forall (fun c => 0 <= c <= 65535) m.
Proof. intros (_ & _ & H & _). exact H. Qed.

Lemma triple_memory_getitem E i :
  0 <= i <= 65535 -> triple E (memory_getitem i) is_word.
Proof.
  intros Hi s Hs. destruct (good_memory s Hs) as (m & Hm & Hlen & Hcells).
  destruct (lookup_lt_is_Some_2 m (Z.to_nat i)) as [c Hc]; [lia|].
  rewrite (memory_getitem_in_range s m i c Hm) by (try exact Hc; lia).
  split; [exact Hs|]. exact (Forall_lookup_1 _ _ _ _ Hcells Hc).
Qed.

Lemma good_memory_insert s m k v :
  good s -> memory s = Some m -> is_word v ->
  good (with_memory (Some (<[k := v]> m)) s).
Proof.
  intros (Hfull & Hok & (m' & Hm' & Hlen & Hcells) & Hcond) Hm Hv.
  rewrite Hm in Hm'. injection Hm' as <-.
  split; [exact Hfull|]. split; [exact Hok|]. split; [|assumption].
  exists (<[k := v]> m). split; [reflexivity|].
  split; [now rewrite length_insert|]. now apply Forall_insert.
Qed.

Lemma triple_memory_setitem E i v :
  0 <= i <= 65535 -> is_word v -> triple E (memory_setitem i v) any.
Proof.
  intros Hi Hv s Hs. destruct (good_memory s Hs) as (m & Hm & Hlen & Hcells).
  unfold memory_setitem. rewrite Hm, array_index_in_range by lia.
  unfold is_word in Hv.
  assert ((v <? 0) || (65535 <? v) = false) as -> by lia.
  split; [|exact I]. now apply good_memory_insert.
Qed.

Lemma triple_memory_len E : triple E memory_len (fun n => n = 65536).
Proof.
  intros s Hs. destruct (good_memory s Hs) as (m & Hm & Hlen & Hcells).
  unfold memory_len. rewrite Hm. auto.
Qed.

(** The keyboard hands over a character below 0x80 or raises. *)
Lemma triple_getch E :
  E OverflowError ->
  triple E getch_getch (fun c => exists x, c = [x] /\ is_word x).
Proof.
  intros HE s Hs. unfold getch_getch.
  destruct (stdin_pending s) as [|b rest] eqn:Hp; [exact Hs|].
  pose proof (byte_range b) as Hb. fold (byte_value b) in Hb.
  destruct (byte_value b <? 0x80).
  - split; [now apply (good_same s)|].
    exists (byte_value b). split; [reflexivity|]. unfold is_word. lia.
  - split; [now apply (good_same s)|exact HE].
Qed.

Lemma triple_ord E c :
  (exists x, c = [x] /\ is_word x) -> triple E (ord c) is_word.
Proof. intros (x & -> & Hx). now apply triple_ret. Qed.

Lemma triple_chr E c : 0 <= c <= 65535 -> triple E (chr c) (fun t => t = [c]).
Proof.
  intros Hc. unfold chr.
  assert ((0 <=? c) && (c <? 0x110000) = true) as -> by lia.
  now apply triple_ret.
Qed.

(** A write to the console returns or raises [UnicodeEncodeError]; a text
    the console can encode is written. *)
Lemma triple_sys_stdout_write E c :
  E UnicodeEncodeError -> triple E (sys_stdout_write c) any.
Proof.
  intros HE. unfold sys_stdout_write. destruct (forallb encodable c).
  - now apply triple_modify.
  - intros s Hs. simpl. auto.
Qed.

Lemma triple_sys_stdout_write_encodable E c :
  forallb encodable c = true -> triple E (sys_stdout_write c) any.
Proof.
  intros Hc. unfold sys_stdout_write. rewrite Hc. now apply triple_modify.
Qed.

Lemma triple_vsys_stdout_write E c :
  E UnicodeEncodeError -> triple E (vsys.stdout_write c) any.
Proof.
  intros HE. unfold vsys.stdout_write.
  eapply triple_bind; [now apply triple_sys_stdout_write|].
  intros _ _. now apply triple_modify.
Qed.

Lemma triple_vsys_stdout_write_encodable E c :
  forallb encodable c = true -> triple E (vsys.stdout_write c) any.
Proof.
  intros Hc. unfold vsys.stdout_write.
  eapply triple_bind; [now apply triple_sys_stdout_write_encodable|].
  intros _ _. now apply triple_modify.
Qed.

Lemma triple_vsys_stdout_flush E : triple E vsys.stdout_flush any.
Proof. now apply triple_ret. Qed.

Lemma triple_print E t :
  forallb encodable (t ++ lit (String "010"%char EmptyString)) = true ->
  triple E (print t) any.
Proof. apply triple_sys_stdout_write_encodable. Qed.

Lemma triple_set_command_buffer E c : triple E (set_command_buffer c) any.
Proof. now apply triple_modify. Qed.

Lemma triple_check_key E : triple E check_key any.
Proof. intros s Hs. rewrite check_key_writable. split; [exact Hs|exact I]. Qed.

Lemma mod_UINT16_MAX_word a : 0 <= a mod UINT16_MAX <= 65535.
Proof. apply mod_UINT16_MAX_range. Qed.

Create HintDb safe discriminated.

#[local] Hint Resolve any_I triple_pass triple_gets triple_reg_getitem
  triple_reg_set triple_update_flags triple_sign_extend triple_memory_getitem
  triple_memory_setitem triple_memory_len triple_getch triple_ord triple_chr
  triple_vsys_stdout_write triple_vsys_stdout_flush
  triple_set_command_buffer triple_check_key mod_UINT16_MAX_word
  land_7_key land_7_register : safe.
#[local] Hint Extern 1 (triple _ (mret _) _) => apply triple_ret : safe.
#[local] Hint Extern 2 (triple _ (_ ≫= _) _) =>
  eapply triple_bind; [|intros ? ?] : safe.
#[local] Hint Extern 1 (triple _ (if ?b then _ else _) _) => destruct b : safe.
#[local] Hint Extern 1 (triple _ (let x := _ in _) _) => cbv zeta : safe.
#[local] Hint Extern 1 (is_word _) => assumption : safe.
#[local] Hint Extern 3 (is_word _) => (cbv; split; discriminate) : safe.
#[local] Hint Extern 3 (_ <= _ <= _) => (cbv; split; discriminate) : safe.
#[local] Hint Extern 3 (_ <= _ < _) =>
  (cbv; split; [discriminate|reflexivity]) : safe.
#[local] Hint Extern 3 (_ <= _) => lia : safe.

Ltac safe_unfold f := unfold f; eauto 40 with safe.

Lemma triple_mem_write E a v : is_word v -> triple E (mem_write a v) any.
Proof. intros Hv. safe_unfold mem_write. Qed.

(** A read can end in the [OverflowError] of the keyboard, at the status
    register. *)
Lemma triple_mem_read E a : E OverflowError -> triple E (mem_read a) is_word.
Proof. intros HE. safe_unfold mem_read. Qed.

#[local] Hint Resolve triple_mem_read triple_mem_write : safe.

Lemma triple_add E instr : triple E (add instr) any.
Proof. safe_unfold add. Qed.
Lemma triple_and_ E instr : triple E (and_ instr) any.
Proof. safe_unfold and_. Qed.
Lemma triple_not_ E instr : triple E (not_ instr) any.
Proof. safe_unfold not_. Qed.
Lemma triple_br E instr : triple E (br instr) any.
Proof. safe_unfold br. Qed.
Lemma triple_jmp E instr : triple E (jmp instr) any.
Proof. safe_unfold jmp. Qed.
Lemma triple_jsr E instr : triple E (jsr instr) any.
Proof. safe_unfold jsr. Qed.
Lemma triple_ld E instr : E OverflowError -> triple E (ld instr) any.
Proof. intros HE. safe_unfold ld. Qed.
Lemma triple_ldi E instr : E OverflowError -> triple E (ldi instr) any.
Proof. intros HE. safe_unfold ldi. Qed.
Lemma triple_ldr E instr : E OverflowError -> triple E (ldr instr) any.
Proof. intros HE. safe_unfold ldr. Qed.
Lemma triple_lea E instr : triple E (lea instr) any.
Proof. safe_unfold lea. Qed.
Lemma triple_st E instr : triple E (st instr) any.
Proof. safe_unfold st. Qed.
Lemma triple_sti E instr : E OverflowError -> triple E (sti instr) any.
Proof. intros HE. safe_unfold sti. Qed.
Lemma triple_str_ E instr : triple E (str_ instr) any.
Proof. safe_unfold str_. Qed.

Lemma triple_trap_getc E : E OverflowError -> triple E trap_getc any.
Proof. intros HE. safe_unfold trap_getc. Qed.
Lemma triple_trap_out E : E UnicodeEncodeError -> triple E trap_out any.
Proof. intros HE. safe_unfold trap_out. Qed.
Lemma triple_trap_halt E : triple E trap_halt any.
Proof.
  unfold trap_halt. eapply triple_bind; [now apply triple_print|]. intros _ _.
  eapply triple_bind; [apply triple_set_command_buffer|]. intros _ _.
  now apply triple_modify.
Qed.

Lemma land_255_word c : 0 <= Z.land c 0xFF <= 65535.
Proof.
  change 0xFF with (Z.ones 8). rewrite Z.land_ones by lia.
  pose proof (Z.mod_pos_bound c (2 ^ 8)). change (2 ^ 8) with 256 in *. lia.
Qed.

Lemma shiftr_8_word c : is_word c -> 0 <= Z.shiftr c 8 <= 65535.
Proof.
  intros Hc. unfold is_word in Hc. rewrite Z.shiftr_div_pow2 by lia.
  change (2 ^ 8) with 256.
  pose proof (Z.div_pos c 256). pose proof (Z.div_le_upper_bound c 256 65535).
  lia.
Qed.
#[local] Hint Resolve land_255_word shiftr_8_word : safe.

(** The two halves of a Word are below 256, and the console can encode
    every character below 0xD800. *)
Lemma encodable_small c : c < 0xD800 -> forallb encodable [c] = true.
Proof.
  intros Hc. simpl. unfold encodable.
  destruct (Z.leb_spec 0xD800 c); [lia|reflexivity].
Qed.

Lemma land_255_small c : Z.land c 0xFF < 0xD800.
Proof.
  change 0xFF with (Z.ones 8). rewrite Z.land_ones by lia.
  pose proof (Z.mod_pos_bound c (2 ^ 8)). change (2 ^ 8) with 256 in *. lia.
Qed.

Lemma shiftr_8_small c : is_word c -> Z.shiftr c 8 < 0xD800.
Proof.
  intros Hc. unfold is_word in Hc. rewrite Z.shiftr_div_pow2 by lia.
  change (2 ^ 8) with 256.
  pose proof (Z.div_lt_upper_bound c 256 256). lia.
Qed.

Lemma triple_trap_puts_for E l :
  E UnicodeEncodeError ->
  Forall (fun i => 0 <= i <= 65535) l -> triple E (trap_puts_for l) any.
Proof.
  intros HE. induction 1 as [|i l Hi _ IH]; simpl; eauto 40 with safe.
Qed.

Lemma triple_trap_putsp_for E l :
  Forall (fun i => 0 <= i <= 65535) l -> triple E (trap_putsp_for l) any.
Proof.
  induction 1 as [|i l Hi _ IH]; simpl; [now apply triple_pass|].
  eapply triple_bind; [now apply triple_memory_getitem|]. intros c Hc.
  destruct (c =? 0); [now apply triple_pass|].
  eapply triple_bind; [apply triple_chr, land_255_word|]. intros lo ->.
  eapply triple_bind;
    [apply triple_vsys_stdout_write_encodable, encodable_small, land_255_small|].
  intros _ _. cbv zeta.
  eapply triple_bind; [|intros _ _; exact IH].
  destruct (truthy (Z.shiftr c 8)); [|now apply triple_pass].
  eapply triple_bind; [apply triple_chr, shiftr_8_word, Hc|]. intros hi ->.
  now apply triple_vsys_stdout_write_encodable, encodable_small, shiftr_8_small.
Qed.

Lemma range_words lo :
  0 <= lo -> Forall (fun i => 0 <= i <= 65535) (range lo 65536).
Proof.
  intros Hlo. unfold range. apply Forall_forall. intros i Hi.
  apply list_elem_of_In, in_map_iff in Hi as (k & <- & Hk).
  apply in_seq in Hk. lia.
Qed.

Lemma triple_trap_puts E : E UnicodeEncodeError -> triple E trap_puts any.
Proof.
  intros HE. unfold trap_puts.
  eapply triple_bind; [apply triple_reg_getitem; cbv; split; [discriminate|reflexivity]|].
  intros r0 Hr0. eapply triple_bind; [apply triple_memory_len|]. intros n ->.
  eapply triple_bind; [apply triple_trap_puts_for, range_words, Hr0; exact HE|].
  intros _ _. eauto 40 with safe.
Qed.

Lemma triple_trap_putsp E : triple E trap_putsp any.
Proof.
  unfold trap_putsp.
  eapply triple_bind; [apply triple_reg_getitem; cbv; split; [discriminate|reflexivity]|].
  intros r0 Hr0. eapply triple_bind; [apply triple_memory_len|]. intros n ->.
  eapply triple_bind; [apply triple_trap_putsp_for, range_words, Hr0|].
  intros _ _. eauto 40 with safe.
Qed.

Lemma trap_in_outcome s :
  trap_in s
  = Raise (if stdout_readable s then TypeError else UnsupportedOperation)
      (with_command_buffer (lit "IN")
         (wrote (lit "Enter a character: ") s)).
Proof.
  unfold trap_in.
  rewrite (bind_Ok _ _ _ _ _
             (vsys_stdout_write_wrote (lit "Enter a character: ") s eq_refl)).
  unfold vsys.stdout_flush, vsys.stdout_read,
    sys_stdout_flush, sys_stdout_read, set_command_buffer,
    register_dict_setitem, py_mod, modify, raise.
  unfold mbind, M_bind, bind, mret, M_ret, ret. simpl.
  destruct (stdout_readable s); reflexivity.
Qed.

Lemma triple_trap_in : triple trap_fault trap_in any.
Proof.
  intros s Hs. rewrite trap_in_outcome. split.
  - now apply (good_same s).
  - unfold trap_fault. destruct (stdout_readable s); auto.
Qed.

(** What each trap routine can raise. *)
Lemma triple_call_trap t :
  triple (fun e => (t = Trap_in /\ trap_fault e) \/
                   ((t = Trap_out \/ t = Trap_puts) /\ console_fault e) \/
                   (t = Trap_getc /\ keyboard_fault e))
    (call_trap t) any.
Proof.
  destruct t; simpl.
  - apply triple_trap_getc. right. right. now split.
  - apply triple_trap_out. right. left. split; [now left|reflexivity].
  - apply triple_trap_puts. right. left. split; [now right|reflexivity].
  - eapply triple_weaken; [apply triple_trap_in|auto..].
  - apply triple_trap_putsp.
  - apply triple_trap_halt.
Qed.

(** What each handler but [trap] can raise: the four that read the memory
    at a computed address can meet the keyboard. *)
Lemma triple_call_handler f instr :
  f <> Ftrap -> f <> Fbad_opcode ->
  triple (fun e => reads_memory f /\ keyboard_fault e) (call f instr) any.
Proof.
  intros H1 H2. unfold reads_memory, keyboard_fault.
  destruct f; try contradiction; simpl.
  - apply triple_add.
  - apply triple_not_.
  - apply triple_and_.
  - apply triple_br.
  - apply triple_jmp.
  - apply triple_jsr.
  - apply triple_ld. auto.
  - apply triple_ldi. auto.
  - apply triple_ldr. auto.
  - apply triple_lea.
  - apply triple_st.
  - apply triple_sti. auto 6.
  - apply triple_str_.
Qed.

(** What the call of the handler of a fetched word can raise, and when. *)
Lemma triple_dispatch instr :
  triple (dispatch_fault instr)
    (call (default Fbad_opcode (ops !! Z.shiftr instr 12)) instr) any.
Proof.
  unfold dispatch_fault.
  destruct (ops !! Z.shiftr instr 12) as [f|] eqn:Hop; simpl.
  - assert (f = Ftrap \/ f <> Ftrap) as [->|Hf]
      by (destruct f; (now left) || (now right)).
    + simpl. unfold trap.
      destruct (traps !! Z.land instr 0xFF) as [t|] eqn:Ht.
      * eapply triple_weaken; [apply triple_call_trap| |auto].
        intros e [[-> He]|[[Hc He]|[-> He]]].
        -- right. right. left. auto.
        -- right. right. right. left. split; [reflexivity|].
           split; [|exact He]. destruct Hc as [-> | ->]; auto.
        -- do 4 right. split; [exact He|]. left. auto.
      * intros s Hs. simpl. split; [exact Hs|]. auto.
    + assert (f <> Fbad_opcode) as Hb.
      { intros ->. revert Hop. unfold ops, dict. simpl.
        rewrite !lookup_insert. repeat case_decide; discriminate. }
      eapply triple_weaken; [now apply triple_call_handler| |auto].
      intros e [Hr He]. do 4 right. split; [exact He|]. right. eauto.
  - intros s Hs. simpl. split; [exact Hs|]. auto.
Qed.

Lemma dispatch_fault_step_fault instr e : dispatch_fault instr e -> step_fault e.
Proof.
  unfold dispatch_fault, step_fault, trap_fault.
  intros [[_ ->]|[(_ & _ & ->)|[(_ & _ & He)|[(_ & _ & He)|[He _]]]]].
  - do 3 right. now exists instr.
  - left. now left.
  - left. exact He.
  - right. now left.
  - right. right. now left.
Qed.

Lemma triple_fetch_and_execute :
  triple step_fault fetch_and_execute any.
Proof.
  assert (step_fault OverflowError) as Hkey by (right; right; now left).
  unfold fetch_and_execute.
  eapply triple_bind; [apply triple_reg_getitem; cbv; split; [discriminate|reflexivity]|].
  intros pc _. eapply triple_bind; [now apply triple_mem_read|].
  intros instr _.
  eapply triple_bind; [apply triple_reg_getitem; cbv; split; [discriminate|reflexivity]|].
  intros pc' _.
  eapply triple_bind; [apply triple_reg_set; cbv; split; [discriminate|reflexivity]|].
  intros _ _. cbv zeta.
  eapply triple_bind; [|intros; now apply triple_ret].
  eapply triple_weaken;
    [apply triple_dispatch|apply dispatch_fault_step_fault|].
  intros a Ha. exact Ha.
Qed.


Lemma good_about_to_run instr : is_word instr -> good (about_to_run instr).
Proof.
  intros Hi. unfold about_to_run.
  assert (process_ok (with_reg (<[R.PC := PC_START]> reg_init) fresh))
    as (Hfull & Hok & Hcond).
  { split; [|split].
    - intros k Hk. simpl. unfold R.COUNT in Hk.
      assert (k = 0 \/ k = 1 \/ k = 2 \/ k = 3 \/ k = 4 \/ k = 5 \/ k = 6 \/
              k = 7 \/ k = 8 \/ k = 9) as Hcases by lia.
      repeat (destruct Hcases as [-> | Hcases]; [now eexists|]).
      subst k. now eexists.
    - intros k v. simpl. rewrite lookup_insert. case_decide.
      + intros [= <-]. unfold PC_START. lia.
      + apply (reg_ok_initial [] true false ∅).
    - exists 0. split; [reflexivity|auto]. }
  split; [exact Hfull|]. split; [exact Hok|]. split; [|assumption].
  eexists. split; [reflexivity|]. split.
  - rewrite length_insert, repeat_length. lia.
  - apply Forall_insert; [|exact Hi].
    apply Forall_forall. intros c Hc.
    apply list_elem_of_In, repeat_spec in Hc. lia.
Qed.

(** X1: one instruction cycle on a loaded machine (all registers present
    and Words, 65536 memory cells all Words, COND zero or a single flag)
    leaves a loaded machine, whether the cycle completes, raises or waits
    for the keyboard; and an exception it raises is the bad-opcode
    [Exception], a [TypeError], an [io.UnsupportedOperation], the
    [UnicodeEncodeError] of a character the console cannot encode or the
    [OverflowError] of a byte from 0x80 on at the keyboard; it is never a
    [KeyError] or an [IndexError]. *)
Theorem X1_step_keeps_machine_loaded :
  forall s, good s ->
    good (final_state (fetch_and_execute s)) /\
    forall e s', fetch_and_execute s = Raise e s' ->
      step_fault e /\ (forall k, e <> KeyError k) /\ e <> IndexError.
Proof.
  intros s Hs. pose proof (triple_fetch_and_execute s Hs) as H.
  assert (forall e, step_fault e ->
            (forall k, e <> KeyError k) /\ e <> IndexError) as Hnot.
  { unfold step_fault, trap_fault, console_fault, keyboard_fault.
    intros e [[-> | ->]|[->|[->|[w ->]]]]; repeat split; discriminate. }
  destruct (fetch_and_execute s) as [a s1|e s1|s1]; simpl.
  - split; [apply H|discriminate].
  - split; [apply H|]. intros e' s' [= <- <-].
    split; [apply H|apply Hnot, H].
  - split; [exact H|discriminate].
Qed.

Lemma X1_step_keeps_machine_loaded_witness :
  good (final_state (fetch_and_execute (about_to_run 0x1021))).
Proof.
  apply (X1_step_keeps_machine_loaded (about_to_run 0x1021)).
  apply good_about_to_run. unfold is_word. lia.
Defined.

Lemma ops_lookup_Ftrap op : ops !! op = Some Ftrap -> op = OP.TRAP.
Proof.
  unfold ops, dict. simpl. rewrite !lookup_insert, lookup_empty.
  repeat case_decide; intros Hx; try discriminate. now subst.
Qed.

Lemma ops_lookup_reads_memory op f :
  ops !! op = Some f -> reads_memory f ->
  op = OP.LD \/ op = OP.LDI \/ op = OP.LDR \/ op = OP.STI.
Proof.
  unfold ops, dict, reads_memory. simpl. rewrite !lookup_insert, lookup_empty.
  repeat case_decide; intros [= <-] Hf; subst; auto;
    destruct Hf as [Hf|[Hf|[Hf|Hf]]]; discriminate.
Qed.

Lemma traps_lookup_Some v t :
  traps !! v = Some t ->
  v = match t with
      | Trap_getc => Trap.GETC
      | Trap_out => Trap.OUT
      | Trap_puts => Trap.PUTS
      | Trap_in => Trap.IN
      | Trap_putsp => Trap.PUTSP
      | Trap_halt => Trap.HALT
      end.
Proof.
  unfold traps, dict. simpl. rewrite !lookup_insert, lookup_empty.
  repeat case_decide; intros [= <-]; now subst.
Qed.

Lemma traps_lookup_Trap_in v : traps !! v = Some Trap_in -> v = Trap.IN.
Proof. apply traps_lookup_Some. Qed.

(** X2: on a loaded machine, a cycle whose fetch has returned raises in
    five cases only: the opcode of the fetched word has no handler (the
    bad-opcode [Exception], carrying the whole word); the word is a TRAP
    whose vector has no routine ([TypeError]); it is the IN trap
    ([TypeError] or [io.UnsupportedOperation]); it is the OUT or the PUTS
    trap and the console cannot encode a character ([UnicodeEncodeError]);
    it is the GETC trap or one of LD, LDI, LDR, STI and the keyboard holds
    a byte from 0x80 on ([OverflowError]). Every other instruction
    completes or waits for the keyboard. A fetch that raises has read the
    keyboard status register, and raises that [OverflowError]. *)
Theorem X2_what_a_cycle_raises :
  (forall s pc instr s1 e s',
      good s -> reg s !! R.PC = Some pc -> mem_read pc s = Ok instr s1 ->
      fetch_and_execute s = Raise e s' ->
      (ops !! Z.shiftr instr 12 = None /\
       e = Exception (lit "Bad opcode: " ++ str_of_int instr)) \/
      (Z.shiftr instr 12 = OP.TRAP /\ traps !! Z.land instr 0xFF = None /\
       e = TypeError) \/
      (Z.shiftr instr 12 = OP.TRAP /\ Z.land instr 0xFF = Trap.IN /\
       (e = TypeError \/ e = UnsupportedOperation)) \/
      (Z.shiftr instr 12 = OP.TRAP /\
       (Z.land instr 0xFF = Trap.OUT \/ Z.land instr 0xFF = Trap.PUTS) /\
       e = UnicodeEncodeError) \/
      (e = OverflowError /\
       ((Z.shiftr instr 12 = OP.TRAP /\ Z.land instr 0xFF = Trap.GETC) \/
        Z.shiftr instr 12 = OP.LD \/ Z.shiftr instr 12 = OP.LDI \/
        Z.shiftr instr 12 = OP.LDR \/ Z.shiftr instr 12 = OP.STI))) /\
  (forall s pc e s1,
      good s -> reg s !! R.PC = Some pc -> mem_read pc s = Raise e s1 ->
      e = OverflowError /\ pc mod 65536 = Mr.KBSR /\
      fetch_and_execute s = Raise e s1).
Proof.
  split.
  - intros s pc instr s1 e s' Hs Hpc Hread Hraise.
    rewrite (fetch_and_execute_fetched s pc instr s1 Hpc Hread) in Hraise.
    assert (good s1) as Hs1
      by (pose proof (triple_mem_read keyboard_fault pc eq_refl s Hs) as H;
          rewrite Hread in H; apply H).
    pose proof (good_reg_set s1 R.PC (pc + 1) Hs1
                  ltac:(cbv; split; [discriminate|reflexivity])) as Hs2.
    change (UINT16_MAX) with 65536 in Hs2.
    pose proof (triple_dispatch instr _ Hs2) as H.
    unfold mbind, M_bind, bind in Hraise.
    destruct (call _ instr _) as [a s3|e3 s3|s3]; try discriminate.
    injection Hraise as -> ->. destruct H as [_ H].
    destruct H as [H|[(Hop & Ht & He)|[(Hop & Ht & He)|[(Hop & Ht & He)|[He H]]]]].
    + now left.
    + right. left. split; [now apply ops_lookup_Ftrap|auto].
    + right. right. left. split; [now apply ops_lookup_Ftrap|].
      split; [now apply traps_lookup_Trap_in|exact He].
    + right. right. right. left. split; [now apply ops_lookup_Ftrap|].
      split; [|exact He].
      destruct Ht as [Ht|Ht]; apply traps_lookup_Some in Ht; auto.
    + do 4 right. split; [exact He|].
      destruct H as [[Hop Ht]|(f & Hop & Hf)].
      * left. split; [now apply ops_lookup_Ftrap|].
        now apply traps_lookup_Some in Ht.
      * right. exact (ops_lookup_reads_memory _ f Hop Hf).
  - intros s pc e s1 Hs Hpc Hread.
    pose proof (triple_mem_read keyboard_fault pc eq_refl s Hs) as H.
    rewrite Hread in H. destruct H as [_ ->].
    split; [reflexivity|]. split.
    + destruct (Z.eq_dec (pc mod 65536) Mr.KBSR) as [Hk|Hk]; [exact Hk|].
      destruct (good_memory s Hs) as (m & Hm & Hlen & _).
      destruct (mem_read_other s m pc Hm Hlen Hk) as (v & _ & Hv).
      rewrite Hv in Hread. discriminate.
    + unfold fetch_and_execute.
      rewrite (bind_Ok (reg_getitem R.PC) _ s pc s)
        by (unfold reg_getitem; now rewrite Hpc).
      now apply bind_Raise.
Qed.

Lemma about_to_run_registers instr :
  reg (about_to_run instr) !! R.PC = Some PC_START.
Proof. apply lookup_insert_eq. Qed.

Lemma about_to_run_IN_raises :
  fetch_and_execute (about_to_run 0xF023)
  = Raise UnsupportedOperation
      (with_command_buffer (lit "IN")
         (wrote (lit "Enter a character: ")
            (with_reg (<[R.PC := (PC_START + 1) mod 65536]>
                         (reg (about_to_run 0xF023)))
               (about_to_run 0xF023)))).
Proof.
  rewrite (fetch_and_execute_fetched _ PC_START 0xF023 _
             (about_to_run_registers _)
             (about_to_run_fetch 0xF023 ltac:(lia))).
  apply bind_Raise.
  change (call (default Fbad_opcode (ops !! Z.shiftr 0xF023 12)) 0xF023)
    with trap_in.
  apply trap_in_outcome.
Qed.

Lemma X2_what_a_cycle_raises_witness :
  good (about_to_run 0xF023) /\
  reg (about_to_run 0xF023) !! R.PC = Some PC_START /\
  mem_read PC_START (about_to_run 0xF023) = Ok 0xF023 (about_to_run 0xF023) /\
  (exists s', fetch_and_execute (about_to_run 0xF023)
              = Raise UnsupportedOperation s') /\
  Z.shiftr 0xF023 12 = OP.TRAP /\ Z.land 0xF023 0xFF = Trap.IN.
Proof.
  pose proof (good_about_to_run 0xF023 ltac:(unfold is_word; lia)) as Hgood.
  pose proof (about_to_run_registers 0xF023) as Hpc.
  pose proof (about_to_run_fetch 0xF023 ltac:(lia)) as Hfetch.
  split; [exact Hgood|]. split; [exact Hpc|]. split; [exact Hfetch|].
  split; [eexists; exact about_to_run_IN_raises|].
  destruct (proj1 X2_what_a_cycle_raises (about_to_run 0xF023)
              PC_START 0xF023 (about_to_run 0xF023) UnsupportedOperation _
              Hgood Hpc Hfetch about_to_run_IN_raises)
    as [[_ H]|[(_ & _ & H)|[(H1 & H2 & _)|[(_ & _ & H)|[H _]]]]];
    [discriminate|discriminate|split; assumption|discriminate|discriminate].
Defined.

Lemma be_words_words bs : Forall (fun c => 0 <= c <= 65535) (be_words bs).
Proof.
  induction bs as [|a|a b l IH] using list_pair_ind; simpl; auto.
  constructor; [|exact IH].
  pose proof (byte_range a). pose proof (byte_range b).
  unfold byte_value. lia.
Qed.

Lemma image_memory_words origin body :
  Forall (fun c => 0 <= c <= 65535) (image_memory origin body).
Proof.
  unfold image_memory. rewrite !Forall_app.
  assert (forall n, Forall (fun c => 0 <= c <= 65535) (repeat 0 n)) as Hz.
  { intros n. apply Forall_forall. intros c Hc.
    apply list_elem_of_In, repeat_spec in Hc. lia. }
  split; [apply Hz|]. split; [apply be_words_words|apply Hz].
Qed.

Lemma read_image_file_outcomes_all :
  forall s name,
    match read_image_file name s with
    | Ok _ s' =>
        memory_ok s' /\ reg s' = reg s /\ stdin_pending s' = stdin_pending s /\
        exists bs, files s !! name = Some bs /\
          let origin := int_from_bytes_big (take 2 bs) in
          let body := take (Z.to_nat (65536 - origin)) (drop 2 bs) in
          Z.of_nat (length body) mod 2 = 0 /\
          memory s' = Some (image_memory origin body)
    | Raise e s' =>
        reg s' = reg s /\ stdin_pending s' = stdin_pending s /\
        ((e = FileNotFoundError /\ files s !! name = None /\ s' = s) \/
         (e = ValueError /\ exists bs, files s !! name = Some bs /\
            let origin := int_from_bytes_big (take 2 bs) in
            let body := take (Z.to_nat (65536 - origin)) (drop 2 bs) in
            Z.of_nat (length body) mod 2 = 1 /\
            memory s' = Some (repeat 0 (Z.to_nat origin))))
    | Block _ => False
    end.
Proof.
  intros s name. destruct (files s !! name) as [bs|] eqn:Hfile.
  - rewrite (read_image_file_spec s name bs Hfile). cbv zeta.
    pose proof (int_from_bytes_big_header bs) as Ho.
    set (origin := int_from_bytes_big (take 2 bs)) in *.
    set (body := take (Z.to_nat (65536 - origin)) (drop 2 bs)).
    assert (Z.of_nat (length body) <= 65536 - origin) as Hfit
      by (unfold body; rewrite length_take; lia).
    destruct (Z.eqb_spec (Z.of_nat (length body) mod 2) 0) as [Heven|Hodd].
    + split; [|split; [reflexivity|split; [reflexivity|]]].
      * exists (image_memory origin body). split; [reflexivity|].
        split; [apply image_memory_length; lia|apply image_memory_words].
      * exists bs. auto.
    + split; [reflexivity|]. split; [reflexivity|]. right.
      split; [reflexivity|]. exists bs. split; [reflexivity|].
      split; [|reflexivity].
      pose proof (Z.mod_pos_bound (Z.of_nat (length body)) 2 ltac:(lia)).
      fold origin body. lia.
  - unfold read_image_file.
    rewrite (bind_Raise (open_rb name) _ s FileNotFoundError s)
      by (unfold open_rb; now rewrite Hfile).
    split; [reflexivity|]. split; [reflexivity|]. left. auto.
Qed.

(** X4: the loader never waits and never touches the registers or the
    keyboard. It succeeds exactly when the file exists and the bytes it
    reads after the origin (at most 65536 - origin of them) are even in
    number; the memory is then 65536 Words whatever the length of the file.
    It fails with [FileNotFoundError], the state unchanged, when the file
    is missing, and with [ValueError], the memory left as the zeros below
    the origin, when it read an odd number of bytes. *)
Theorem X4_read_image_file_outcomes :
  forall s name,
    match read_image_file name s with
    | Ok _ s' =>
        memory_ok s' /\ reg s' = reg s /\ stdin_pending s' = stdin_pending s /\
        exists bs, files s !! name = Some bs /\
          let origin := int_from_bytes_big (take 2 bs) in
          let body := take (Z.to_nat (65536 - origin)) (drop 2 bs) in
          Z.of_nat (length body) mod 2 = 0 /\
          memory s' = Some (image_memory origin body)
    | Raise e s' =>
        reg s' = reg s /\ stdin_pending s' = stdin_pending s /\
        ((e = FileNotFoundError /\ files s !! name = None /\ s' = s) \/
         (e = ValueError /\ exists bs, files s !! name = Some bs /\
            let origin := int_from_bytes_big (take 2 bs) in
            let body := take (Z.to_nat (65536 - origin)) (drop 2 bs) in
            Z.of_nat (length body) mod 2 = 1 /\
            memory s' = Some (repeat 0 (Z.to_nat origin))))
    | Block _ => False
    end.
Proof. exact read_image_file_outcomes_all. Qed.

Lemma process_ok_same s s' :
  reg s' = reg s -> process_ok s -> process_ok s'.
Proof.
  intros Hr (H1 & H2 & H3).
  unfold process_ok, reg_full, reg_ok, cond_ok in *.
  rewrite Hr. auto.
Qed.

Lemma good_process_ok s : good s -> process_ok s.
Proof.
  intros (H1 & H2 & H3 & H4).
  split; [exact H1|]. split; [exact H2|exact H4].
Qed.

Lemma load_args_outcomes args s :
  process_ok s ->
  match load_args args s with
  | Ok _ s' => good s' /\ reg s' !! R.PC = Some PC_START /\
               is_running s' = is_running s
  | Raise e s' => process_ok s' /\ load_fault e
  | Block _ => False
  end.
Proof.
  intros Hs. unfold load_args, exit, load_fault.
  destruct (Z.ltb_spec (Z.of_nat (length args)) 2) as [Hshort|Hlong].
  - simpl. split; [now apply (process_ok_same s)|auto].
  - destruct (lookup_lt_is_Some_2 args 1%nat) as [path Hpath]; [lia|].
    rewrite Hpath.
    pose proof (read_image_file_outcomes_all s path) as Hload.
    unfold mbind, M_bind, bind, pass, mret, M_ret, ret.
    assert (is_running (final_state (read_image_file path s)) = is_running s)
      as Hrun.
    { destruct (files s !! path) as [bs|] eqn:Hfile.
      - rewrite (read_image_file_spec s path bs Hfile). cbv zeta.
        destruct (_ =? _); reflexivity.
      - unfold read_image_file.
        rewrite (bind_Raise (open_rb path) _ s FileNotFoundError s)
          by (unfold open_rb; now rewrite Hfile).
        reflexivity. }
    destruct (read_image_file path s) as [[] s1|e s1|s1]; [| |contradiction].
    + destruct Hload as (Hmem & Hreg & Hin & _). simpl in Hrun.
      assert (good s1) as Hs1.
      { destruct (process_ok_same s s1 Hreg Hs) as (H1 & H2 & H3).
        split; [exact H1|]. split; [exact H2|]. split; [exact Hmem|exact H3]. }
      simpl. split; [|split; [apply lookup_insert_eq|exact Hrun]].
      apply (good_reg_set s1 R.PC PC_START Hs1).
      cbv; split; [discriminate|reflexivity].
    + destruct Hload as (Hreg & Hin & Hwhy).
      split; [now apply (process_ok_same s)|].
      destruct Hwhy as [(-> & _)|(-> & _)]; auto.
Qed.

Lemma triple_gen_step : triple step_fault gen_step any.
Proof.
  unfold gen_step.
  eapply triple_bind; [apply triple_fetch_and_execute|]. intros [op f] _.
  eapply triple_bind; [apply triple_reg_getitem; cbv; split; [discriminate|reflexivity]|].
  intros pc _. eauto 40 with safe.
Qed.

Lemma gen_while_outcomes s :
  good s ->
  match gen_while s with
  | Yield e g s' => g = GenYieldStep /\ good s'
  | StopIteration s' => good s'
  | GenRaise e s' => good s' /\ step_fault e
  | GenBlock s' => good s'
  end.
Proof.
  intros Hs. unfold gen_while. destruct (truthy _); [|exact Hs].
  pose proof (triple_gen_step s Hs) as H.
  destruct (gen_step s); [split; [reflexivity|apply H]|exact H|exact H].
Qed.

Lemma gen_next_running g s :
  g <> GenFinished -> (forall args, g <> GenCreated args) -> good s ->
  match gen_next g s with
  | Yield e g' s' => g' = GenYieldStep /\ good s'
  | StopIteration s' => good s'
  | GenRaise e s' => good s' /\ step_fault e
  | GenBlock s' => good s'
  end.
Proof.
  intros Hf Hc Hs. destruct g as [args| | |]; simpl.
  - now destruct (Hc args).
  - now apply gen_while_outcomes.
  - apply gen_while_outcomes. now apply (good_same s).
  - contradiction.
Qed.

Lemma gen_next_created args s :
  process_ok s ->
  match gen_next (GenCreated args) s with
  | Yield e g s' =>
      g = GenYieldOrig /\ good s' /\ is_running s' = 1 /\
      e = mkEvent PC_START (lit ".ORIG x3000") ".ORIG" None None (memory_id s')
  | GenRaise e s' => process_ok s' /\ load_fault e
  | StopIteration _ | GenBlock _ => False
  end.
Proof.
  intros Hs. simpl. unfold gen_prologue.
  unfold mbind at 1, M_bind, bind at 1. simpl.
  assert (process_ok (with_is_running 1 s)) as Hs1
    by now apply (process_ok_same s).
  pose proof (load_args_outcomes args (with_is_running 1 s) Hs1) as H.
  unfold mbind, M_bind, bind.
  destruct (load_args args (with_is_running 1 s)) as [[] s1|e s1|s1];
    [|exact H|contradiction].
  destruct H as (Hgood & Hpc & Hrun).
  unfold reg_getitem. rewrite Hpc. simpl.
  split; [reflexivity|]. split; [exact Hgood|]. split; [exact Hrun|reflexivity].
Qed.

Lemma drive_running fuel : forall g s,
  (forall args, g <> GenCreated args) -> good s ->
  good (drive fuel g s).2 /\
  forall e, (drive fuel g s).1.2 = Faulted e -> step_fault e.
Proof.
  induction fuel as [|fuel IH]; intros g s Hc Hs;
    [simpl; split; [exact Hs|discriminate]|].
  rewrite drive_S.
  destruct g as [args| | |].
  - now destruct (Hc args).
  - pose proof (gen_next_running GenYieldOrig s ltac:(discriminate)
                  ltac:(discriminate) Hs) as H.
    destruct (gen_next GenYieldOrig s) as [e g' s'|s'|e s'|s'].
    + destruct H as [-> Hs'].
      destruct (IH GenYieldStep s' ltac:(discriminate) Hs') as [H1 H2].
      destruct (drive fuel GenYieldStep s') as [[es d] s'']. auto.
    + simpl. split; [exact H|discriminate].
    + simpl. split; [apply H|]. intros e' [= <-]. apply H.
    + simpl. split; [exact H|discriminate].
  - pose proof (gen_next_running GenYieldStep s ltac:(discriminate)
                  ltac:(discriminate) Hs) as H.
    destruct (gen_next GenYieldStep s) as [e g' s'|s'|e s'|s'].
    + destruct H as [-> Hs'].
      destruct (IH GenYieldStep s' ltac:(discriminate) Hs') as [H1 H2].
      destruct (drive fuel GenYieldStep s') as [[es d] s'']. auto.
    + simpl. split; [exact H|discriminate].
    + simpl. split; [apply H|]. intros e' [= <-]. apply H.
    + simpl. split; [exact H|discriminate].
  - simpl. split; [exact Hs|discriminate].
Qed.

Lemma process_ok_initial input w r fs :
  process_ok (initial_state input w r fs).
Proof.
  split; [|split].
  - intros k Hk. simpl. unfold R.COUNT in Hk.
    assert (k = 0 \/ k = 1 \/ k = 2 \/ k = 3 \/ k = 4 \/ k = 5 \/ k = 6 \/
            k = 7 \/ k = 8 \/ k = 9) as Hcases by lia.
    repeat (destruct Hcases as [-> | Hcases]; [now eexists|]).
    subst k. now eexists.
  - apply reg_ok_initial.
  - exists 0. split; [reflexivity|auto].
Qed.

(** X3: a drive of the generator in a process whose registers are present
    and Words leaves them so. When the load succeeds the first event is the
    synthetic one (PC = 0x3000, no opcode), the machine is loaded from then
    on, and a fault can only be one of a cycle (bad opcode, [TypeError],
    [io.UnsupportedOperation], the [UnicodeEncodeError] of the console,
    the [OverflowError] of the keyboard); when no event is yielded, a fault
    is one of the load ([SystemExit(2)], [FileNotFoundError],
    [ValueError]). *)
Theorem X3_run_outcomes :
  forall fuel args s,
    process_ok s ->
    let r := drive fuel (main_generator args) s in
    process_ok r.2 /\
    (forall e rest, r.1.1 = e :: rest ->
       ev_PC e = PC_START /\ ev_op_code e = None /\ good r.2 /\
       forall x, r.1.2 = Faulted x -> step_fault x) /\
    (r.1.1 = [] -> forall x, r.1.2 = Faulted x -> load_fault x).
Proof.
  intros fuel args s Hs r. subst r. unfold main_generator.
  destruct fuel as [|fuel];
    [simpl; split; [exact Hs|split; [discriminate|discriminate]]|].
  rewrite drive_S.
  pose proof (gen_next_created args s Hs) as H.
  destruct (gen_next (GenCreated args) s) as [e g' s'|s'|e s'|s'];
    try contradiction.
  - destruct H as (-> & Hs' & Hrun & ->).
    destruct (drive_running fuel GenYieldOrig s' ltac:(discriminate) Hs')
      as [H1 H2].
    destruct (drive fuel GenYieldOrig s') as [[es d] s'']. simpl in *.
    split; [now apply good_process_ok|].
    split; [|discriminate].
    intros e rest [= <- <-]. auto.
  - simpl. split; [apply H|]. split; [discriminate|].
    intros _ x [= <-]. apply H.
Qed.

Lemma X3_run_outcomes_witness :
  process_ok (drive 10 (main_generator ["vm.py"%string; "count.obj"%string]) host).2.
Proof.
  apply (X3_run_outcomes 10 ["vm.py"%string; "count.obj"%string] host).
  apply process_ok_initial.
Defined.

(** X5: with fewer than two arguments both drivers print the usage line
    and raise [SystemExit(2)] without loading; with a path that names no
    file both raise [FileNotFoundError] with the registers and the memory
    untouched. The generator has by then set [is_running] to 1; [main]
    changes nothing. *)
Theorem X5_load_errors :
  (forall fuel args s,
      (length args < 2)%nat ->
      main fuel args s
      = Some (Raise (SystemExit 2)
                (with_sys_stdout (sys_stdout s ++ lit "vm.py [obj-file]" ++ [10]) s)) /\
      gen_next (main_generator args) s
      = GenRaise (SystemExit 2)
          (with_sys_stdout (sys_stdout s ++ lit "vm.py [obj-file]" ++ [10])
             (with_is_running 1 s))) /\
  (forall fuel args path s,
      (2 <= length args)%nat -> args !! 1%nat = Some path ->
      files s !! path = None ->
      main fuel args s = Some (Raise FileNotFoundError s) /\
      gen_next (main_generator args) s
      = GenRaise FileNotFoundError (with_is_running 1 s)).
Proof.
  split.
  - intros fuel args s Hlen.
    assert (forall s0, load_args args s0
              = Raise (SystemExit 2)
                  (with_sys_stdout (sys_stdout s0 ++ lit "vm.py [obj-file]" ++ [10]) s0))
      as Hload.
    { intros s0. unfold load_args.
      assert ((Z.of_nat (length args) <? 2) = true) as -> by lia.
      reflexivity. }
    split.
    + unfold main. now rewrite Hload.
    + simpl. unfold gen_prologue.
      rewrite (bind_Ok _ _ s tt (with_is_running 1 s)) by reflexivity.
      now rewrite (bind_Raise _ _ _ _ _ (Hload (with_is_running 1 s))).
  - intros fuel args path s Hlen Hpath Hfile.
    assert (forall s0, files s0 = files s ->
              load_args args s0 = Raise FileNotFoundError s0) as Hload.
    { intros s0 Hs0. unfold load_args.
      assert ((Z.of_nat (length args) <? 2) = false) as -> by lia.
      rewrite Hpath.
      rewrite (bind_Ok pass _ s0 tt s0) by reflexivity.
      apply bind_Raise. unfold read_image_file.
      apply bind_Raise. unfold open_rb. now rewrite Hs0, Hfile. }
    split.
    + unfold main. now rewrite Hload.
    + simpl. unfold gen_prologue.
      rewrite (bind_Ok _ _ s tt (with_is_running 1 s)) by reflexivity.
      now rewrite (bind_Raise _ _ _ _ _ (Hload (with_is_running 1 s) eq_refl)).
Qed.

Lemma X5_load_errors_witness :
  gen_next (main_generator ["vm.py"%string]) fresh
  = GenRaise (SystemExit 2)
      (with_sys_stdout (sys_stdout fresh ++ lit "vm.py [obj-file]" ++ [10])
         (with_is_running 1 fresh)) /\
  main 5 ["vm.py"%string; "none.obj"%string] fresh
  = Some (Raise FileNotFoundError fresh).
Proof.
  destruct X5_load_errors as [H1 H2]. split.
  - apply (H1 0%nat ["vm.py"%string] fresh). simpl. lia.
  - apply (H2 5%nat ["vm.py"%string; "none.obj"%string] "none.obj"%string fresh);
      [simpl; lia|reflexivity|reflexivity].
Defined.

Lemma sign_extend_field v n s :
  1 <= n <= 16 ->
  sign_extend (Z.land v (mask n)) n s = Ok (to_word (signed_value n v)) s.
Proof.
  intros Hn. unfold sign_extend, rshift, lshift.
  assert ((n - 1 <? 0) = false) as -> by lia.
  assert ((n <? 0) = false) as -> by lia.
  rewrite mask_ones, Z.land_ones by lia.
  assert (0 < 2 ^ n) as Hpow by (apply Z.pow_pos_nonneg; lia).
  pose proof (Z.mod_pos_bound v (2 ^ n) Hpow) as Hx.
  unfold mbind, M_bind, bind, mret, M_ret, ret, truthy.
  rewrite land_1_testbit, Z.mod_pow2_bits_low by lia.
  unfold to_word, signed_value.
  change 0xffff with (Z.ones 16).
  destruct (Z.testbit v (n - 1));
    [ change (negb (Z.b2z true =? 0)) with true
    | change (negb (Z.b2z false =? 0)) with false ]; cbv beta iota.
  - rewrite lor_shiftl_add, Z.land_ones by lia. f_equal.
    change (Z.ones 16) with 65535.
    replace (v mod 2 ^ n + 65535 * 2 ^ n)
      with (v mod 2 ^ n - 2 ^ n + 2 ^ n * 2 ^ 16) by lia.
    apply Z.mod_add. lia.
  - rewrite Z.land_ones by lia. reflexivity.
Qed.

Lemma signed_value_range n v :
  1 <= n -> - 2 ^ (n - 1) <= signed_value n v < 2 ^ (n - 1).
Proof.
  intros Hn. unfold signed_value.
  assert (2 ^ n = 2 * 2 ^ (n - 1)) as Hpow
    by (rewrite <- Z.pow_succ_r by lia; f_equal; lia).
  assert (0 < 2 ^ (n - 1)) as Hpos by (apply Z.pow_pos_nonneg; lia).
  pose proof (Z.mod_pos_bound v (2 ^ n) ltac:(lia)) as Hlow.
  assert (Z.testbit (v mod 2 ^ n) (n - 1) = Z.testbit v (n - 1)) as Hbit
    by (apply Z.mod_pow2_bits_low; lia).
  cbv zeta. destruct (Z.testbit v (n - 1)) eqn:E.
  - apply Z.testbit_true in Hbit; [|lia].
    assert (v mod 2 ^ n / 2 ^ (n - 1) = 1 \/ v mod 2 ^ n / 2 ^ (n - 1) = 0) as [Hq|Hq].
    { assert (0 <= v mod 2 ^ n / 2 ^ (n - 1) < 2); [|lia].
      split; [apply Z.div_pos; lia|apply Z.div_lt_upper_bound; lia]. }
    + pose proof (Z.mul_div_le (v mod 2 ^ n) (2 ^ (n - 1)) Hpos). lia.
    + rewrite Hq in Hbit. discriminate.
  - apply Z.testbit_false in Hbit; [|lia].
    assert (v mod 2 ^ n / 2 ^ (n - 1) = 1 \/ v mod 2 ^ n / 2 ^ (n - 1) = 0) as [Hq|Hq].
    { assert (0 <= v mod 2 ^ n / 2 ^ (n - 1) < 2); [|lia].
      split; [apply Z.div_pos; lia|apply Z.div_lt_upper_bound; lia]. }
    + rewrite Hq in Hbit. discriminate.
    + pose proof (Z.div_mod (v mod 2 ^ n) (2 ^ (n - 1)) ltac:(lia)) as Hdm.
      pose proof (Z.mod_pos_bound (v mod 2 ^ n) (2 ^ (n - 1)) Hpos).
      rewrite Hq in Hdm. lia.
Qed.

Lemma add_to_word a z : (a + to_word z) mod 65536 = (a + z) mod 65536.
Proof.
  unfold to_word. change (2 ^ 16) with 65536.
  now rewrite Z.add_mod_idemp_r by lia.
Qed.

(** X6: [sign_extend] raises [ValueError] (a negative shift count) when
    [bit_count] is below 1, and returns a Word for every integer when it is
    1 or more. For a field of 1 to 16 bits the result, added to any base
    modulo 2^16, acts as the signed value of the field, which lies in
    [-2^(n-1), 2^(n-1) - 1]. *)
Theorem X6_sign_extend_offsets :
  (forall x n s, n <= 0 -> sign_extend x n s = Raise ValueError s) /\
  (forall x n s, 1 <= n ->
     exists v, sign_extend x n s = Ok v s /\ 0 <= v <= 65535) /\
  (forall field n base s, 1 <= n <= 16 ->
     exists v, sign_extend (Z.land field (mask n)) n s = Ok v s /\
       - 2 ^ (n - 1) <= signed_value n field < 2 ^ (n - 1) /\
       (base + v) mod 65536 = (base + signed_value n field) mod 65536).
Proof.
  split; [|split].
  - intros x n s Hn. unfold sign_extend, rshift.
    assert ((n - 1 <? 0) = true) as -> by lia. reflexivity.
  - intros x n s Hn. unfold sign_extend, rshift, lshift.
    assert ((n - 1 <? 0) = false) as -> by lia.
    assert ((n <? 0) = false) as -> by lia.
    unfold mbind, M_bind, bind, mret, M_ret, ret.
    assert (forall y, 0 <= Z.land y 0xffff <= 65535) as Hland.
    { intros y. change (Z.land y 0xffff) with (Z.land y (Z.ones 16)).
      rewrite Z.land_ones by lia.
      pose proof (Z.mod_pos_bound y (2 ^ 16) ltac:(lia)).
      change (2 ^ 16) with 65536 in *. lia. }
    destruct (truthy _); eexists; (split; [reflexivity|apply Hland]).
  - intros field n base s Hn. exists (to_word (signed_value n field)).
    split; [now apply sign_extend_field|].
    split; [apply signed_value_range; lia|apply add_to_word].
Qed.

Lemma X6_sign_extend_offsets_witness :
  sign_extend 5 0 fresh = Raise ValueError fresh /\
  exists v, sign_extend (Z.land 0x1FF (mask 9)) 9 fresh = Ok v fresh /\
    - 2 ^ (9 - 1) <= signed_value 9 0x1FF < 2 ^ (9 - 1) /\
    (0x3000 + v) mod 65536 = (0x3000 + signed_value 9 0x1FF) mod 65536.
Proof.
  destruct X6_sign_extend_offsets as (H1 & _ & H3). split.
  - apply H1. lia.
  - apply (H3 0x1FF 9 0x3000 fresh). lia.
Defined.


Lemma reg_getitem_Some s k v : reg s !! k = Some v -> reg_getitem k s = Ok v s.
Proof. intros H. unfold reg_getitem. now rewrite H. Qed.

Lemma imm_flag_testbit instr :
  truthy (Z.land (Z.shiftr instr 5) 0x1) = Z.testbit instr 5.
Proof.
  unfold truthy. rewrite land_1_testbit by lia.
  now destruct (Z.testbit instr 5).
Qed.

Lemma flags_after_write (m : M unit) dr x s :
  m s = Ok tt (with_reg (<[dr := x mod 65536]> (reg s)) s) ->
  (m;; update_flags dr) s = Ok tt (write_with_flags dr x s).
Proof.
  intros Hm. rewrite (bind_Ok m _ s tt _ Hm).
  rewrite (update_flags_word dr (x mod 65536))
    by (try apply lookup_insert_eq; apply mod_UINT16_MAX_range).
  reflexivity.
Qed.

Lemma reg_set_Ok k v s :
  reg_set k v s = Ok tt (with_reg (<[k := v mod 65536]> (reg s)) s).
Proof. reflexivity. Qed.

(** X7: ADD writes to DR the sum modulo 2^16 of SR1 and, when bit 5 is
    set, the signed 5-bit immediate (-16..15), otherwise register SR2; it
    then sets COND from the stored value, and changes nothing else: no
    other register, not the program counter, not the memory. *)
Theorem X7_add :
  forall instr s a,
    reg s !! SR1 instr = Some a ->
    (Z.testbit instr 5 = true ->
     add instr s
     = Ok tt (write_with_flags (DR instr) (a + signed_value 5 instr) s)) /\
    (Z.testbit instr 5 = false ->
     forall b, reg s !! SR2 instr = Some b ->
     add instr s = Ok tt (write_with_flags (DR instr) (a + b) s)).
Proof.
  intros instr s a Ha. unfold add. cbv zeta. rewrite imm_flag_testbit.
  fold (DR instr) (SR1 instr) (SR2 instr).
  split; intros Hbit; rewrite Hbit.
  - apply flags_after_write. change 0x1F with (mask 5).
    rewrite (bind_Ok _ _ s _ s (sign_extend_field instr 5 s ltac:(lia))).
    rewrite (bind_Ok _ _ s a s (reg_getitem_Some s _ a Ha)).
    now rewrite reg_set_Ok, add_to_word.
  - intros b Hb. apply flags_after_write.
    rewrite (bind_Ok _ _ s a s (reg_getitem_Some s _ a Ha)).
    rewrite (bind_Ok _ _ s b s (reg_getitem_Some s _ b Hb)).
    apply reg_set_Ok.
Qed.

Lemma X7_add_witness :
  add 0x127F operands = Ok tt (write_with_flags R.R1 (0xFFFF + -1) operands) /\
  add 0x1242 operands = Ok tt (write_with_flags R.R1 (0xFFFF + 5) operands).
Proof.
  split.
  - apply (proj1 (X7_add 0x127F operands 0xFFFF eq_refl)). reflexivity.
  - apply (proj2 (X7_add 0x1242 operands 0xFFFF eq_refl)); reflexivity.
Defined.

(** X8: AND writes to DR the bitwise and of SR1 with the sign-extended
    5-bit immediate (bit 5 set) or with register SR2, sets COND from the
    result and changes nothing else; the and of a Word with any integer is
    a Word, so the reduction at the write changes nothing. *)
Theorem X8_and :
  forall instr s a,
    reg s !! SR1 instr = Some a ->
    (Z.testbit instr 5 = true ->
     and_ instr s
     = Ok tt (write_with_flags (DR instr)
                (Z.land a (to_word (signed_value 5 instr))) s)) /\
    (Z.testbit instr 5 = false ->
     forall b, reg s !! SR2 instr = Some b ->
     and_ instr s = Ok tt (write_with_flags (DR instr) (Z.land a b) s)) /\
    (forall b, 0 <= a <= 65535 -> Z.land a b mod 65536 = Z.land a b).
Proof.
  intros instr s a Ha. unfold and_. cbv zeta. rewrite imm_flag_testbit.
  fold (DR instr) (SR1 instr) (SR2 instr).
  split; [|split].
  - intros Hbit. rewrite Hbit.
    apply flags_after_write. change 0x1F with (mask 5).
    rewrite (bind_Ok _ _ s _ s (sign_extend_field instr 5 s ltac:(lia))).
    rewrite (bind_Ok _ _ s a s (reg_getitem_Some s _ a Ha)).
    apply reg_set_Ok.
  - intros Hbit. rewrite Hbit. intros b Hb. apply flags_after_write.
    rewrite (bind_Ok _ _ s a s (reg_getitem_Some s _ a Ha)).
    rewrite (bind_Ok _ _ s b s (reg_getitem_Some s _ b Hb)).
    apply reg_set_Ok.
  - intros b Ha'. apply Z.mod_small.
    assert (0 <= Z.land a b) by (apply Z.land_nonneg; lia).
    assert (0 <= Z.land a (Z.lnot b)) by (apply Z.land_nonneg; lia).
    pose proof (Z.sub_land_same_l a b). lia.
Qed.

Lemma X8_and_witness :
  and_ 0x5260 operands
  = Ok tt (write_with_flags R.R1 (Z.land 0xFFFF (to_word (signed_value 5 0x5260)))
             operands) /\
  and_ 0x5242 operands = Ok tt (write_with_flags R.R1 (Z.land 0xFFFF 5) operands) /\
  Z.land 0xFFFF 5 mod 65536 = Z.land 0xFFFF 5.
Proof.
  destruct (X8_and 0x5260 operands 0xFFFF eq_refl) as (H1 & _ & _).
  destruct (X8_and 0x5242 operands 0xFFFF eq_refl) as (_ & H2 & H3).
  split; [now apply H1|]. split; [now apply H2|]. apply H3. lia.
Defined.


Lemma lnot_word a : Z.lnot a mod 65536 = complement (a mod 65536).
Proof.
  unfold complement. rewrite Z.lnot_eq_pred_opp.
  pose proof (Z.mod_pos_bound a 65536 ltac:(lia)) as Hr.
  pose proof (Z.div_mod a 65536 ltac:(lia)) as Hdm.
  replace (- a - 1) with (65535 - a mod 65536 + (- (a / 65536) - 1) * 65536)
    by lia.
  rewrite Z.mod_add by lia. apply Z.mod_small. lia.
Qed.

(** X9: NOT writes to DR the 16-bit complement 65535 - a of the Word a in
    SR, every one of the 16 bits inverted, sets COND from it and changes
    nothing else; the complement of the complement is the value itself. *)
Theorem X9_not :
  forall instr s a,
    reg s !! SR1 instr = Some a -> 0 <= a <= 65535 ->
    not_ instr s = Ok tt (write_with_flags (DR instr) (complement a) s) /\
    complement a mod 65536 = complement a /\
    complement (complement a) = a /\
    (forall i, 0 <= i < 16 ->
               Z.testbit (complement a) i = negb (Z.testbit a i)).
Proof.
  intros instr s a Ha Hword.
  assert (Z.lnot a mod 65536 = complement a) as Hnot
    by (rewrite lnot_word; f_equal; apply Z.mod_small; lia).
  split; [|split; [|split]].
  - unfold not_. cbv zeta. fold (DR instr) (SR1 instr).
    replace (write_with_flags (DR instr) (complement a) s)
      with (write_with_flags (DR instr) (Z.lnot a) s)
      by (unfold write_with_flags; rewrite Hnot;
          now rewrite (Z.mod_small (complement a)) by (unfold complement; lia)).
    rewrite (bind_Ok _ _ s a s (reg_getitem_Some s _ a Ha)).
    apply flags_after_write, reg_set_Ok.
  - apply Z.mod_small. unfold complement. lia.
  - unfold complement. lia.
  - intros i Hi. rewrite <- Hnot.
    change 65536 with (2 ^ 16). rewrite Z.mod_pow2_bits_low by lia.
    apply Z.lnot_spec. lia.
Qed.

Lemma X9_not_witness :
  not_ 0x967F operands = Ok tt (write_with_flags R.R3 (complement 0xFFFF) operands).
Proof.
  apply (X9_not 0x967F operands 0xFFFF eq_refl). lia.
Defined.


Lemma br_effect instr s pc c :
  reg s !! R.PC = Some pc -> reg s !! R.COND = Some c ->
  br instr s
  = Ok tt (if Z.land (DR instr) c =? 0 then s
           else jump_to ((pc + signed_value 9 instr) mod 65536) s).
Proof.
  intros Hpc Hc. unfold br. change 0x1ff with (mask 9).
  rewrite (bind_Ok _ _ s _ s (sign_extend_field instr 9 s ltac:(lia))).
  cbv zeta. fold (DR instr).
  rewrite (bind_Ok _ _ s c s (reg_getitem_Some s _ c Hc)).
  unfold truthy. destruct (Z.land (DR instr) c =? 0); [reflexivity|].
  change (negb false) with true. cbv iota.
  rewrite (bind_Ok (reg_getitem R.PC) _ s pc s (reg_getitem_Some s _ pc Hpc)).
  rewrite reg_set_Ok, add_to_word. reflexivity.
Qed.

(** X10: BR leaves the machine unchanged when the and of its n/z/p bits
    with COND is zero, and otherwise adds the signed 9-bit offset to the
    program counter modulo 2^16. With COND = 0, as in a freshly imported
    module, or with no condition bit set, no branch is taken; with all
    three bits set and one flag in COND the branch is always taken. *)
Theorem X10_br :
  forall instr s pc c,
    reg s !! R.PC = Some pc -> reg s !! R.COND = Some c ->
    (Z.land (DR instr) c = 0 -> br instr s = Ok tt s) /\
    (Z.land (DR instr) c <> 0 ->
     br instr s = Ok tt (jump_to ((pc + signed_value 9 instr) mod 65536) s)) /\
    (c = 0 \/ DR instr = 0 -> br instr s = Ok tt s) /\
    (DR instr = 7 -> c = FL.POS \/ c = FL.ZRO \/ c = FL.NEG ->
     br instr s = Ok tt (jump_to ((pc + signed_value 9 instr) mod 65536) s)).
Proof.
  intros instr s pc c Hpc Hc. rewrite (br_effect instr s pc c Hpc Hc).
  split; [|split; [|split]].
  - intros ->. reflexivity.
  - intros Hne. now destruct (Z.eqb_spec (Z.land (DR instr) c) 0).
  - intros [-> | ->]; [now rewrite Z.land_0_r|now rewrite Z.land_0_l].
  - intros -> [-> | [-> | ->]]; reflexivity.
Qed.

Lemma X10_br_witness :
  br 0x0FFF fresh = Ok tt fresh /\
  br 0x0FFF (with_reg (<[R.COND := FL.ZRO]> reg_init) fresh)
  = Ok tt (jump_to ((0 + signed_value 9 0x0FFF) mod 65536)
             (with_reg (<[R.COND := FL.ZRO]> reg_init) fresh)).
Proof.
  split.
  - apply (X10_br 0x0FFF fresh 0 0 eq_refl eq_refl). now left.
  - assert (reg (with_reg (<[R.COND := FL.ZRO]> reg_init) fresh) !! R.PC
            = Some 0) as Hpc by reflexivity.
    assert (reg (with_reg (<[R.COND := FL.ZRO]> reg_init) fresh) !! R.COND
            = Some FL.ZRO) as Hc by reflexivity.
    apply (X10_br 0x0FFF _ 0 FL.ZRO Hpc Hc); [reflexivity|auto].
Defined.

Lemma long_flag_testbit instr :
  truthy (Z.land (Z.shiftr instr 11) 1) = Z.testbit instr 11.
Proof.
  unfold truthy. rewrite land_1_testbit by lia.
  now destruct (Z.testbit instr 11).
Qed.

Lemma jsr_effect instr s pc :
  reg s !! R.PC = Some pc -> 0 <= pc <= 65535 ->
  (Z.testbit instr 11 = true ->
   jsr instr s
   = Ok tt (with_reg (<[R.PC := (pc + signed_value 11 instr) mod 65536]>
                        (<[R.R7 := pc]> (reg s))) s)) /\
  (Z.testbit instr 11 = false ->
   forall a, reg s !! SR1 instr = Some a -> 0 <= a <= 65535 ->
   jsr instr s
   = Ok tt (with_reg (<[R.PC := if decide (SR1 instr = R.R7) then pc else a]>
                        (<[R.R7 := pc]> (reg s))) s)).
Proof.
  intros Hpc Hword. unfold jsr. cbv zeta. fold (SR1 instr).
  change 0x7ff with (mask 11).
  rewrite (bind_Ok _ _ s _ s (sign_extend_field instr 11 s ltac:(lia))).
  rewrite (bind_Ok _ _ s pc s (reg_getitem_Some s _ pc Hpc)).
  rewrite (bind_Ok _ _ s tt _ (reg_set_Ok R.R7 pc s)).
  rewrite (Z.mod_small pc) by lia.
  rewrite long_flag_testbit.
  set (s1 := with_reg (<[R.R7 := pc]> (reg s)) s).
  assert (reg s1 !! R.PC = Some pc) as Hpc1
    by (simpl; rewrite lookup_insert_ne by discriminate; exact Hpc).
  split; intros Hbit; rewrite Hbit.
  - rewrite (bind_Ok _ _ s1 pc s1 (reg_getitem_Some s1 _ pc Hpc1)).
    rewrite reg_set_Ok, add_to_word. reflexivity.
  - intros a Ha Haword.
    assert (reg s1 !! SR1 instr
            = Some (if decide (SR1 instr = R.R7) then pc else a)) as Ha1.
    { simpl. rewrite lookup_insert.
      destruct (decide (R.R7 = SR1 instr)) as [Heq|Hne];
        destruct (decide (SR1 instr = R.R7)) as [Heq'|Hne'];
        try congruence. }
    rewrite (bind_Ok _ _ s1 _ s1 (reg_getitem_Some s1 _ _ Ha1)).
    rewrite reg_set_Ok. rewrite Z.mod_small; [reflexivity|].
    case_decide; lia.
Qed.

(** X11: JSR stores the program counter in R7 and then, with bit 11 set,
    adds the signed 11-bit offset to the program counter modulo 2^16;
    with bit 11 clear it jumps to the base register, read after R7 was
    written: JSRR through R7 therefore leaves the program counter where
    it was. *)
Theorem X11_jsr :
  forall instr s pc,
    reg s !! R.PC = Some pc -> 0 <= pc <= 65535 ->
    (Z.testbit instr 11 = true ->
     jsr instr s
     = Ok tt (with_reg (<[R.PC := (pc + signed_value 11 instr) mod 65536]>
                          (<[R.R7 := pc]> (reg s))) s)) /\
    (Z.testbit instr 11 = false ->
     forall a, reg s !! SR1 instr = Some a -> 0 <= a <= 65535 ->
     (SR1 instr <> R.R7 ->
      jsr instr s
      = Ok tt (with_reg (<[R.PC := a]> (<[R.R7 := pc]> (reg s))) s)) /\
     (SR1 instr = R.R7 ->
      jsr instr s
      = Ok tt (with_reg (<[R.PC := pc]> (<[R.R7 := pc]> (reg s))) s))).
Proof.
  intros instr s pc Hpc Hword.
  destruct (jsr_effect instr s pc Hpc Hword) as [Hlong Hreg].
  split; [exact Hlong|].
  intros Hbit a Ha Haword. rewrite (Hreg Hbit a Ha Haword).
  split; intros Hr; [rewrite decide_False by exact Hr|rewrite decide_True by exact Hr];
    reflexivity.
Qed.


Lemma X11_jsr_witness :
  jsr 0x4FFE calling
  = Ok tt (with_reg (<[R.PC := (0x3001 + signed_value 11 0x4FFE) mod 65536]>
                       (<[R.R7 := 0x3001]> (reg calling))) calling) /\
  jsr 0x41C0 calling
  = Ok tt (with_reg (<[R.PC := 0x3001]> (<[R.R7 := 0x3001]> (reg calling)))
             calling).
Proof.
  assert (reg calling !! R.PC = Some 0x3001) as Hpc by reflexivity.
  destruct (X11_jsr 0x4FFE calling 0x3001 Hpc ltac:(lia)) as [H1 _].
  destruct (X11_jsr 0x41C0 calling 0x3001 Hpc ltac:(lia)) as [_ H2].
  split; [now apply H1|].
  assert (reg calling !! SR1 0x41C0 = Some 0x4000) as Hr7 by reflexivity.
  apply (H2 eq_refl 0x4000 Hr7 ltac:(lia)). reflexivity.
Defined.

Lemma jmp_effect instr s a :
  reg s !! SR1 instr = Some a ->
  jmp instr s
  = Ok tt (with_command_buffer
             (lit "JMP " ++ str_of_int (SR1 instr) ++ lit " ; Move the PC")
             (jump_to (a mod 65536) s)).
Proof.
  intros Ha. unfold jmp. cbv zeta. fold (SR1 instr).
  rewrite (bind_Ok _ _ s a s (reg_getitem_Some s _ a Ha)).
  rewrite (bind_Ok _ _ s tt _ (reg_set_Ok R.PC a s)).
  reflexivity.
Qed.

(** X12: JMP sets the program counter to the base register and records
    its text in the command buffer. After a JSR with an offset, a JMP
    through R7 (RET) brings the program counter back to the value it had
    at the call; R7 holds that value, the memory and the other registers
    are as before the call. *)
Theorem X12_jmp_returns_from_jsr :
  (forall instr s a,
      reg s !! SR1 instr = Some a -> 0 <= a <= 65535 ->
      jmp instr s
      = Ok tt (with_command_buffer
                 (lit "JMP " ++ str_of_int (SR1 instr) ++ lit " ; Move the PC")
                 (jump_to a s))) /\
  (forall call ret s pc,
      reg s !! R.PC = Some pc -> 0 <= pc <= 65535 ->
      Z.testbit call 11 = true -> SR1 ret = R.R7 ->
      exists s',
        (jsr call;; jmp ret) s = Ok tt s' /\
        reg s' !! R.PC = Some pc /\ reg s' !! R.R7 = Some pc /\
        memory s' = memory s /\
        forall k, k <> R.PC -> k <> R.R7 -> reg s' !! k = reg s !! k).
Proof.
  split.
  - intros instr s a Ha Hword. rewrite (jmp_effect instr s a Ha).
    now rewrite Z.mod_small by lia.
  - intros call ret s pc Hpc Hword Hlong Hret.
    destruct (jsr_effect call s pc Hpc Hword) as [Hcall _].
    specialize (Hcall Hlong).
    set (s1 := with_reg (<[R.PC := (pc + signed_value 11 call) mod 65536]>
                           (<[R.R7 := pc]> (reg s))) s) in *.
    assert (reg s1 !! SR1 ret = Some pc) as Hr7.
    { rewrite Hret. simpl. rewrite lookup_insert_ne by discriminate.
      apply lookup_insert_eq. }
    eexists. split.
    + rewrite (bind_Ok _ _ s tt s1 Hcall). apply (jmp_effect ret s1 pc Hr7).
    + rewrite Z.mod_small by lia. simpl.
      split; [apply lookup_insert_eq|].
      split; [rewrite !lookup_insert_ne by discriminate; apply lookup_insert_eq|].
      split; [reflexivity|].
      intros k Hk1 Hk2. now rewrite !lookup_insert_ne by congruence.
Qed.

Lemma X12_jmp_returns_witness :
  exists s',
    (jsr 0x4FFE;; jmp 0xC1C0) calling = Ok tt s' /\
    reg s' !! R.PC = Some 0x3001 /\ reg s' !! R.R7 = Some 0x3001.
Proof.
  assert (reg calling !! R.PC = Some 0x3001) as Hpc by reflexivity.
  destruct (proj2 X12_jmp_returns_from_jsr 0x4FFE 0xC1C0 calling 0x3001 Hpc
              ltac:(lia) eq_refl eq_refl) as (s' & H1 & H2 & H3 & _).
  exists s'. auto.
Defined.


Lemma mem_read_plain s a v :
  plain_cell s (a mod 65536) v -> mem_read a s = Ok v s.
Proof.
  intros (Hk & m & Hm & Hlen & Hv).
  destruct (mem_read_other s m a Hm Hlen Hk) as (v' & Hv' & ->).
  rewrite Hv in Hv'. now injection Hv' as <-.
Qed.

Lemma mem_write_store s a v :
  memory_ok s -> 0 <= v <= 65535 ->
  mem_write a v s = Ok tt (store_at (a mod 65536) v s).
Proof.
  intros (m & Hm & Hlen & _) Hv. unfold store_at. rewrite Hm.
  now apply mem_write_word.
Qed.

Lemma plain_cell_store s a v :
  memory_ok s -> 0 <= a <= 65535 -> a <> Mr.KBSR ->
  plain_cell (store_at a v s) a v.
Proof.
  intros (m & Hm & Hlen & _) Ha Hk. split; [exact Hk|].
  unfold store_at. rewrite Hm. eexists. split; [reflexivity|].
  split; [now rewrite length_insert|].
  apply list_lookup_insert_eq. lia.
Qed.

Lemma effective_address base z :
  (base + to_word z) mod UINT16_MAX = (base + z) mod 65536.
Proof. apply add_to_word. Qed.

Lemma ld_effect instr s pc v :
  reg s !! R.PC = Some pc ->
  plain_cell s ((pc + signed_value 9 instr) mod 65536) v ->
  ld instr s = Ok tt (write_with_flags (DR instr) v s).
Proof.
  intros Hpc Hcell. unfold ld. cbv zeta. fold (DR instr).
  change 0x1ff with (mask 9).
  rewrite (bind_Ok _ _ s _ s (sign_extend_field instr 9 s ltac:(lia))).
  rewrite (bind_Ok _ _ s pc s (reg_getitem_Some s _ pc Hpc)).
  rewrite (bind_Ok _ _ s v s)
    by (apply mem_read_plain; now rewrite add_to_word).
  apply flags_after_write, reg_set_Ok.
Qed.

Lemma ldr_effect instr s base v :
  reg s !! SR1 instr = Some base ->
  plain_cell s ((base + signed_value 6 instr) mod 65536) v ->
  ldr instr s = Ok tt (write_with_flags (DR instr) v s).
Proof.
  intros Hbase Hcell. unfold ldr. cbv zeta. fold (DR instr) (SR1 instr).
  change 0x3F with (mask 6).
  rewrite (bind_Ok _ _ s _ s (sign_extend_field instr 6 s ltac:(lia))).
  rewrite (bind_Ok _ _ s base s (reg_getitem_Some s _ base Hbase)).
  rewrite (bind_Ok _ _ s v s)
    by (apply mem_read_plain; now rewrite add_to_word).
  apply flags_after_write, reg_set_Ok.
Qed.

Lemma ldi_effect instr s pc p v :
  reg s !! R.PC = Some pc ->
  plain_cell s ((pc + signed_value 9 instr) mod 65536) p ->
  plain_cell s (p mod 65536) v ->
  ldi instr s = Ok tt (write_with_flags (DR instr) v s).
Proof.
  intros Hpc Hp Hv. unfold ldi. cbv zeta. fold (DR instr).
  change 0x1ff with (mask 9).
  rewrite (bind_Ok _ _ s _ s (sign_extend_field instr 9 s ltac:(lia))).
  rewrite (bind_Ok _ _ s pc s (reg_getitem_Some s _ pc Hpc)).
  rewrite (bind_Ok _ _ s p s)
    by (apply mem_read_plain; now rewrite add_to_word).
  rewrite (bind_Ok _ _ s v s) by now apply mem_read_plain.
  apply flags_after_write, reg_set_Ok.
Qed.

(** X13: LD loads into DR the cell at PC plus the signed 9-bit offset, LDR
    the cell at the base register plus the signed 6-bit offset, LDI the
    cell whose address is held in the cell at PC plus the signed 9-bit
    offset; addresses are taken modulo 2^16, COND is set from the loaded
    value and nothing else changes, provided no address read is the
    keyboard status register. *)
Theorem X13_loads :
  (forall instr s pc v,
      reg s !! R.PC = Some pc ->
      plain_cell s ((pc + signed_value 9 instr) mod 65536) v ->
      ld instr s = Ok tt (write_with_flags (DR instr) v s)) /\
  (forall instr s base v,
      reg s !! SR1 instr = Some base ->
      plain_cell s ((base + signed_value 6 instr) mod 65536) v ->
      ldr instr s = Ok tt (write_with_flags (DR instr) v s)) /\
  (forall instr s pc p v,
      reg s !! R.PC = Some pc ->
      plain_cell s ((pc + signed_value 9 instr) mod 65536) p ->
      plain_cell s (p mod 65536) v ->
      ldi instr s = Ok tt (write_with_flags (DR instr) v s)).
Proof.
  split; [exact ld_effect|]. split; [exact ldr_effect|exact ldi_effect].
Qed.

Lemma plain_cell_storing a v :
  a <> Mr.KBSR -> 0 <= a <= 65535 ->
  <[Z.to_nat 0x3000 := 0x5000]> (repeat 0 (Z.to_nat 65536)) !! Z.to_nat a = Some v ->
  plain_cell storing a v.
Proof.
  intros Hk Ha Hv. split; [exact Hk|]. eexists. split; [reflexivity|].
  split; [|exact Hv]. rewrite length_insert, repeat_length. lia.
Qed.

Lemma X13_loads_witness :
  ld 0x27FF storing = Ok tt (write_with_flags R.R3 0x5000 storing) /\
  ldr 0x6642 storing = Ok tt (write_with_flags R.R3 0 storing) /\
  ldi 0xA7FF storing = Ok tt (write_with_flags R.R3 0 storing).
Proof.
  destruct X13_loads as (Hld & Hldr & Hldi).
  assert (reg storing !! R.PC = Some 0x3001) as Hpc by reflexivity.
  assert (reg storing !! SR1 0x6642 = Some 0x4000) as Hbase by reflexivity.
  assert (plain_cell storing 0x3000 0x5000) as H1
    by (apply plain_cell_storing;
        [discriminate|lia|apply list_lookup_insert_eq; rewrite repeat_length; lia]).
  assert (forall a, a <> 0x3000 -> a <> Mr.KBSR -> 0 <= a <= 65535 ->
                    plain_cell storing a 0) as H0.
  { intros a Hne Hk Ha. apply plain_cell_storing; [exact Hk|exact Ha|].
    rewrite list_lookup_insert_ne by lia. apply lookup_repeat. lia. }
  split; [|split].
  - apply (Hld 0x27FF storing 0x3001 0x5000 Hpc). exact H1.
  - apply (Hldr 0x6642 storing 0x4000 0 Hbase).
    apply (H0 0x4002); [discriminate|discriminate|lia].
  - apply (Hldi 0xA7FF storing 0x3001 0x5000 0 Hpc); [exact H1|].
    apply (H0 0x5000); [discriminate|discriminate|lia].
Defined.

Lemma st_effect instr s pc v :
  reg s !! R.PC = Some pc -> reg s !! DR instr = Some v ->
  0 <= v <= 65535 -> memory_ok s ->
  st instr s = Ok tt (store_at ((pc + signed_value 9 instr) mod 65536) v s).
Proof.
  intros Hpc Hv Hword Hmem. unfold st. cbv zeta. fold (DR instr).
  change 0x1ff with (mask 9).
  rewrite (bind_Ok _ _ s _ s (sign_extend_field instr 9 s ltac:(lia))).
  rewrite (bind_Ok _ _ s pc s (reg_getitem_Some s _ pc Hpc)).
  rewrite (bind_Ok _ _ s v s (reg_getitem_Some s _ v Hv)).
  rewrite mem_write_store by assumption. now rewrite add_to_word.
Qed.




Lemma memory_ok_storing : memory_ok storing.
Proof.
  eexists. split; [reflexivity|]. split.
  - rewrite length_insert, repeat_length. lia.
  - apply Forall_insert; [|cbv beta; lia]. apply Forall_forall. intros c Hc.
    apply list_elem_of_In, repeat_spec in Hc. lia.
Qed.


(** X15: a value written by [mem_write] is read back by [mem_read] through
    any address equal modulo 2^16, except at the keyboard status register;
    an ST followed by an LD with the same offset loads the stored register
    value into the destination and sets COND from it. *)
Theorem X15_store_load_round_trip :
  (forall s a a' v,
      memory_ok s -> 0 <= v <= 65535 ->
      a mod 65536 = a' mod 65536 -> a mod 65536 <> Mr.KBSR ->
      (mem_write a v;; mem_read a') s = Ok v (store_at (a mod 65536) v s)) /\
  (forall store load s pc v,
      reg s !! R.PC = Some pc -> reg s !! DR store = Some v ->
      0 <= v <= 65535 -> memory_ok s ->
      signed_value 9 store = signed_value 9 load ->
      (pc + signed_value 9 store) mod 65536 <> Mr.KBSR ->
      (st store;; ld load) s
      = Ok tt (write_with_flags (DR load) v
                 (store_at ((pc + signed_value 9 store) mod 65536) v s))).
Proof.
  split.
  - intros s a a' v Hmem Hv Haddr Hk.
    rewrite (bind_Ok _ _ s tt _ (mem_write_store s a v Hmem Hv)).
    apply mem_read_plain. rewrite <- Haddr.
    apply plain_cell_store; [exact Hmem| |exact Hk].
    pose proof (mod_UINT16_MAX_range a). exact H.
  - intros store load s pc v Hpc Hv Hword Hmem Hoff Hk.
    rewrite (bind_Ok _ _ s tt _ (st_effect store s pc v Hpc Hv Hword Hmem)).
    apply (ld_effect load _ pc v).
    + unfold store_at. destruct (memory s); exact Hpc.
    + rewrite <- Hoff. apply plain_cell_store; [exact Hmem| |exact Hk].
      pose proof (mod_UINT16_MAX_range (pc + signed_value 9 store)). exact H.
Qed.

Lemma X15_store_load_witness :
  (st 0x35FF;; ld 0x27FF) storing
  = Ok tt (write_with_flags R.R3 0xBEEF (store_at 0x3000 0xBEEF storing)).
Proof.
  assert (reg storing !! R.PC = Some 0x3001) as Hpc by reflexivity.
  assert (reg storing !! R.R2 = Some 0xBEEF) as Hv by reflexivity.
  apply (proj2 X15_store_load_round_trip 0x35FF 0x27FF storing 0x3001 0xBEEF
           Hpc Hv ltac:(lia) memory_ok_storing eq_refl).
  discriminate.
Defined.

(** X16: LEA writes PC plus the signed 9-bit offset, modulo 2^16, to DR,
    sets COND from it, and records the text "LEA <dr> <address> ; Load
    Effective Address" with both numbers in decimal. *)
Theorem X16_lea :
  forall instr s pc,
    reg s !! R.PC = Some pc ->
    let target := (pc + signed_value 9 instr) mod 65536 in
    lea instr s
    = Ok tt (with_command_buffer
               (lit "LEA " ++ str_of_int (DR instr) ++ lit " "
                  ++ str_of_int target ++ lit " ; Load Effective Address")
               (write_with_flags (DR instr) target s)).
Proof.
  intros instr s pc Hpc target. unfold lea. cbv zeta. fold (DR instr).
  change 0x1ff with (mask 9).
  rewrite (bind_Ok _ _ s _ s (sign_extend_field instr 9 s ltac:(lia))).
  rewrite (bind_Ok _ _ s pc s (reg_getitem_Some s _ pc Hpc)).
  rewrite (bind_Ok _ _ s tt _ (reg_set_Ok (DR instr) _ s)).
  rewrite add_to_word. fold target.
  set (s1 := with_reg (<[DR instr := target]> (reg s)) s).
  assert (update_flags (DR instr) s1
          = Ok tt (with_reg (<[R.COND := flag_of target]> (reg s1)) s1)) as Hflags
    by (apply update_flags_word;
        [apply lookup_insert_eq|apply mod_UINT16_MAX_range]).
  rewrite (bind_Ok _ _ s1 tt _ Hflags).
  assert (DR instr <> R.COND) as Hdr.
  { unfold DR, R.COND. change 0x7 with (Z.ones 3). rewrite Z.land_ones by lia.
    pose proof (Z.mod_pos_bound (Z.shiftr instr 9) (2 ^ 3) ltac:(lia)).
    change (2 ^ 3) with 8 in *. lia. }
  rewrite (bind_Ok _ _ _ target _)
    by (apply reg_getitem_Some; simpl;
        rewrite lookup_insert_ne by congruence; apply lookup_insert_eq).
  unfold write_with_flags, s1.
  replace (target mod 65536) with target
    by (unfold target; now rewrite Z.mod_mod by lia).
  reflexivity.
Qed.

Lemma X16_lea_witness :
  lea 0xE7FF calling
  = Ok tt (with_command_buffer
             (lit "LEA 3 12288 ; Load Effective Address")
             (write_with_flags R.R3 0x3000 calling)).
Proof.
  assert (reg calling !! R.PC = Some 0x3001) as Hpc by reflexivity.
  apply (X16_lea 0xE7FF calling 0x3001 Hpc).
Defined.

Lemma getch_getch_low s b rest :
  stdin_pending s = b :: rest -> byte_value b < 0x80 ->
  getch_getch s = Ok [byte_value b] (with_stdin_pending rest s).
Proof.
  intros Hp Hb. unfold getch_getch. rewrite Hp.
  destruct (Z.ltb_spec (byte_value b) 0x80); [reflexivity|lia].
Qed.

Lemma getch_getch_high s b rest :
  stdin_pending s = b :: rest -> 0x80 <= byte_value b ->
  getch_getch s = Raise OverflowError (with_stdin_pending rest s).
Proof.
  intros Hp Hb. unfold getch_getch. rewrite Hp.
  destruct (Z.ltb_spec (byte_value b) 0x80); [lia|reflexivity].
Qed.

(** X17: the GETC trap with nothing typed waits, changing nothing. With a
    byte below 0x80 at the keyboard it takes exactly that byte, stores its
    value in R0, and writes nothing to the console or to any buffer; COND
    is not updated. With a byte from 0x80 on it takes the byte and raises
    [OverflowError], R0 left as it was. *)
Theorem X17_trap_getc :
  (forall s, stdin_pending s = [] -> trap_getc s = Block s) /\
  (forall s b rest,
      stdin_pending s = b :: rest -> byte_value b < 0x80 ->
      trap_getc s
      = Ok tt (with_reg (<[R.R0 := byte_value b]> (reg s))
                 (with_stdin_pending rest s))) /\
  (forall s b rest,
      stdin_pending s = b :: rest -> 0x80 <= byte_value b ->
      trap_getc s = Raise OverflowError (with_stdin_pending rest s)).
Proof.
  split; [|split].
  - intros s Hp. unfold trap_getc. apply bind_Block.
    unfold getch_getch. now rewrite Hp.
  - intros s b rest Hp Hb. unfold trap_getc.
    rewrite (bind_Ok _ _ _ _ _ (getch_getch_low s b rest Hp Hb)).
    pose proof (byte_range b) as Hr. fold (byte_value b) in Hr.
    unfold ord, reg_set, register_dict_setitem, py_mod, modify.
    unfold mbind, M_bind, bind, mret, M_ret, ret. simpl.
    change UINT16_MAX with 65536.
    now rewrite Z.mod_small by lia.
  - intros s b rest Hp Hb. unfold trap_getc.
    now rewrite (bind_Raise _ _ _ _ _ (getch_getch_high s b rest Hp Hb)).
Qed.

Lemma X17_trap_getc_witness :
  trap_getc fresh = Block fresh /\
  trap_getc typed
  = Ok tt (with_reg (<[R.R0 := 97]> (reg typed))
             (with_stdin_pending [] typed)) /\
  trap_getc accented = Raise OverflowError (with_stdin_pending [] accented).
Proof.
  destruct X17_trap_getc as (H1 & H2 & H3). split; [|split].
  - now apply H1.
  - apply (H2 typed x61 []); [reflexivity|]. vm_compute. reflexivity.
  - apply (H3 accented xe9 []); [reflexivity|]. vm_compute. discriminate.
Defined.

Lemma encodable_false v : encodable v = false <-> 0xD800 <= v <= 0xDFFF.
Proof.
  unfold encodable.
  destruct (Z.leb_spec 0xD800 v), (Z.leb_spec v 0xDFFF); simpl;
    split; intros Hx; try discriminate; try reflexivity; lia.
Qed.

(** X18: the OUT trap, with a Word in R0 that is not a surrogate code,
    writes the one character with that code to the console and to the
    output buffer, and sets the command text to "OUT (<output buffer>) ;
    output a character"; registers and memory are unchanged. With a
    surrogate code, 0xD800 to 0xDFFF, in R0 the console cannot encode the
    character: the trap raises [UnicodeEncodeError], and nothing is
    written or recorded. *)
Theorem X18_trap_out :
  forall s v,
    reg s !! R.R0 = Some v -> 0 <= v <= 65535 ->
    (~ 0xD800 <= v <= 0xDFFF ->
     trap_out s
     = Ok tt (with_command_buffer
                (lit "OUT (" ++ (output_buffer s ++ [v])
                   ++ lit ") ; output a character")
                (wrote [v] s))) /\
    (0xD800 <= v <= 0xDFFF -> trap_out s = Raise UnicodeEncodeError s).
Proof.
  intros s v Hv Hword.
  assert (trap_out s
          = (vsys.stdout_write [v];;
             vsys.stdout_flush;;
             buf ← gets output_buffer;
             set_command_buffer
               (lit "OUT (" ++ buf ++ lit ") ; output a character")) s) as ->.
  { unfold trap_out.
    rewrite (bind_Ok _ _ s v s (reg_getitem_Some s _ v Hv)).
    unfold chr. assert ((0 <=? v) && (v <? 0x110000) = true) as -> by lia.
    reflexivity. }
  split; intros Hs.
  - assert (forallb encodable [v] = true) as Henc.
    { simpl. destruct (encodable v) eqn:E; [reflexivity|].
      apply encodable_false in E. contradiction. }
    now rewrite (bind_Ok _ _ _ _ _ (vsys_stdout_write_wrote [v] s Henc)).
  - assert (forallb encodable [v] = false) as Henc
      by (simpl; apply encodable_false in Hs; now rewrite Hs).
    now rewrite (bind_Raise _ _ _ _ _ (vsys_stdout_write_unencodable [v] s Henc)).
Qed.

Lemma X18_trap_out_witness :
  trap_out greeting
  = Ok tt (with_command_buffer
             (lit "OUT (" ++ (output_buffer greeting ++ [0x4000])
                ++ lit ") ; output a character")
             (wrote [0x4000] greeting)) /\
  trap_out (with_reg (<[R.R0 := 0xD800]> reg_init) fresh)
  = Raise UnicodeEncodeError (with_reg (<[R.R0 := 0xD800]> reg_init) fresh).
Proof.
  assert (reg greeting !! R.R0 = Some 0x4000) as H by reflexivity.
  assert (reg (with_reg (<[R.R0 := 0xD800]> reg_init) fresh) !! R.R0
          = Some 0xD800) as H' by reflexivity.
  split.
  - apply (X18_trap_out greeting 0x4000 H); lia.
  - apply (X18_trap_out _ 0xD800 H'); lia.
Defined.


Lemma trap_putsp_for_until_zero m :
  Forall (fun c => 0 <= c <= 65535) m ->
  forall (d : nat) r0 s,
    memory s = Some m -> 0 <= r0 ->
    Z.to_nat (Z.of_nat (length m) - r0) = d ->
    trap_putsp_for (range r0 (Z.of_nat (length m))) s
    = Ok tt (wrote (concat (map packed (until_zero (drop (Z.to_nat r0) m)))) s).
Proof.
  intros Hcells. induction d as [|d IH]; intros r0 s Hm Hr0 Hd.
  - rewrite range_nil by lia. rewrite drop_ge by lia. simpl.
    now rewrite wrote_nil.
  - rewrite range_cons by lia.
    destruct (lookup_lt_is_Some_2 m (Z.to_nat r0)) as [c Hc]; [lia|].
    rewrite (drop_S _ _ _ Hc). simpl.
    rewrite (bind_Ok _ _ _ _ _ (memory_getitem_in_range s m r0 c Hm Hr0 Hc)).
    destruct (Z.eqb_spec c 0) as [->|Hne]; [now rewrite wrote_nil|].
    assert (0 <= c <= 65535) as Hrange
      by (eapply Forall_lookup_1 in Hcells; [exact Hcells|exact Hc]).
    pose proof (land_255_word c) as Hlo.
    pose proof (shiftr_8_word c Hrange) as Hhi.
    unfold chr.
    assert ((0 <=? Z.land c 0xFF) && (Z.land c 0xFF <? 0x110000) = true)
      as -> by lia.
    assert ((0 <=? Z.shiftr c 8) && (Z.shiftr c 8 <? 0x110000) = true)
      as -> by lia.
    unfold mbind, M_bind, bind, mret, M_ret, ret, pass, truthy.
    rewrite (vsys_stdout_write_wrote [Z.land c 0xFF])
      by apply encodable_small, land_255_small.
    assert (forall s0,
              (if negb (Z.shiftr c 8 =? 0)
               then fun s1 => vsys.stdout_write [Z.shiftr c 8] s1
               else fun s1 => Ok tt s1) (wrote [Z.land c 0xFF] s0)
              = Ok tt (wrote (packed c) s0)) as Hhigh.
    { intros s0. unfold packed.
      destruct (Z.shiftr c 8 =? 0).
      - change (negb true) with false. cbv beta iota. now rewrite app_nil_r.
      - change (negb false) with true. cbv beta iota.
        rewrite vsys_stdout_write_wrote
          by (apply encodable_small, shiftr_8_small; exact Hrange).
        now rewrite wrote_wrote. }
    rewrite Hhigh.
    rewrite (IH (r0 + 1) (wrote (packed c) s)) by (try exact Hm; lia).
    rewrite wrote_wrote.
    now replace (Z.to_nat (r0 + 1)) with (S (Z.to_nat r0)) by lia.
Qed.

(** X19: the PUTSP trap returns on every loaded memory: for each cell
    from address R0 up to the first zero cell or the last address it writes
    the low byte of the cell, even when that byte is zero, and then the
    high byte unless it is zero. *)
Theorem X19_trap_putsp :
  forall s m r0,
    reg s !! R.R0 = Some r0 -> 0 <= r0 <= 65535 ->
    memory s = Some m -> Forall (fun c => 0 <= c <= 65535) m ->
    let out := concat (map packed (until_zero (drop (Z.to_nat r0) m))) in
    trap_putsp s
    = Ok tt (with_command_buffer
               (lit "PUTS ; (" ++ (output_buffer s ++ out) ++ lit ")")
               (wrote out s)) /\
    (forall c, Z.land c 0xFF = 0 -> Z.shiftr c 8 <> 0 ->
               packed c = [0; Z.shiftr c 8]) /\
    (forall c, Z.shiftr c 8 = 0 -> packed c = [Z.land c 0xFF]).
Proof.
  intros s m r0 Hr0 Hrange Hm Hcells out. split; [|split].
  - unfold trap_putsp.
    rewrite (bind_Ok (reg_getitem R.R0) _ s r0 s)
      by (unfold reg_getitem; now rewrite Hr0).
    rewrite (bind_Ok memory_len _ s (Z.of_nat (length m)) s)
      by (unfold memory_len; now rewrite Hm).
    rewrite (bind_Ok _ _ s tt (wrote out s))
      by (eapply (trap_putsp_for_until_zero m Hcells); [exact Hm|lia|reflexivity]).
    reflexivity.
  - intros c Hlo Hhi. unfold packed. rewrite Hlo.
    now destruct (Z.eqb_spec (Z.shiftr c 8) 0).
  - intros c Hhi. unfold packed. now rewrite Hhi.
Qed.

Lemma X19_trap_putsp_witness :
  sys_stdout (final_state (trap_putsp packed_text)) = [0x48; 0x65; 0; 0x6C].
Proof.
  assert (Forall (fun c => 0 <= c <= 65535)
            (<[Z.to_nat 0x4001 := 0x6C00]>
               (<[Z.to_nat 0x4000 := 0x6548]> (repeat 0 (Z.to_nat 65536)))))
    as Hcells.
  { repeat (apply Forall_insert; [|cbv beta; lia]).
    apply Forall_forall. intros c Hc.
    apply list_elem_of_In, repeat_spec in Hc. lia. }
  assert (reg packed_text !! R.R0 = Some 0x4000) as Hr0 by reflexivity.
  destruct (X19_trap_putsp packed_text _ 0x4000 Hr0 ltac:(lia) eq_refl Hcells)
    as (-> & _).
  vm_compute. reflexivity.
Defined.


Lemma trap_halt_effect s : trap_halt s = Ok tt (halted s).
Proof. reflexivity. Qed.

Lemma traps_lookup_HALT : traps !! Trap.HALT = Some Trap_halt.
Proof. reflexivity. Qed.

Lemma halt_cycle s0 pc instr s1 :
  reg s0 !! R.PC = Some pc -> mem_read pc s0 = Ok instr s1 ->
  Z.shiftr instr 12 = OP.TRAP -> Z.land instr 0xFF = Trap.HALT ->
  fetch_and_execute s0
  = Ok (OP.TRAP, Ftrap)
      (halted (with_reg (<[R.PC := (pc + 1) mod 65536]> (reg s1)) s1)).
Proof.
  intros Hpc Hread Hop Hvec.
  rewrite (fetch_and_execute_fetched s0 pc instr s1 Hpc Hread).
  rewrite Hop, ops_lookup_TRAP. simpl default. simpl call.
  unfold trap. rewrite Hvec, traps_lookup_HALT. simpl call_trap.
  now rewrite (bind_Ok trap_halt _ _ tt _ (trap_halt_effect _)).
Qed.

(** X20: a TRAP whose vector is 0x25, whatever its bits 8 to 11, halts:
    the step yields one event (the program counter past the instruction,
    name "trap", opcode 15, the HALT command text), [is_running] becomes 0,
    the text HALT and a newline go to the console but not to the output
    buffer of the event, the next call of [next] ends the generator, and
    the loop of [main] returns. *)
Theorem X20_halt_ends_the_run :
  forall g s pc instr s1,
    g = GenYieldOrig \/ g = GenYieldStep ->
    truthy (is_running (resumed g s)) = true ->
    reg (resumed g s) !! R.PC = Some pc ->
    mem_read pc (resumed g s) = Ok instr s1 ->
    Z.shiftr instr 12 = OP.TRAP -> Z.land instr 0xFF = Trap.HALT ->
    let s' := halted (with_reg (<[R.PC := (pc + 1) mod 65536]> (reg s1)) s1) in
    gen_next g s
    = Yield (mkEvent ((pc + 1) mod 65536) (lit "HALT ; end the program")
               "trap" (Some OP.TRAP) (Some (output_buffer s1)) (memory_id s1))
        GenYieldStep s' /\
    is_running s' = 0 /\
    sys_stdout s' = sys_stdout s1 ++ lit "HALT" ++ [10] /\
    output_buffer s' = output_buffer s1 /\
    (forall fuel,
        drive (S fuel) GenYieldStep s'
        = ([], Exhausted, resumed GenYieldStep s')) /\
    (forall fuel, main_while (S fuel) (resumed g s) = Some (Ok tt s')).
Proof.
  intros g s pc instr s1 Hg Hrun Hpc Hread Hop Hvec s'.
  pose proof (halt_cycle _ pc instr s1 Hpc Hread Hop Hvec) as Hcycle.
  fold s' in Hcycle.
  split; [|split; [reflexivity|split; [reflexivity|split; [reflexivity|split]]]].
  - rewrite gen_next_resumed by exact Hg. unfold gen_while. rewrite Hrun.
    unfold gen_step. rewrite (bind_Ok _ _ _ _ _ Hcycle).
    rewrite (bind_Ok (reg_getitem R.PC) _ s' ((pc + 1) mod 65536) s')
      by (apply reg_getitem_Some, lookup_insert_eq).
    reflexivity.
  - intros fuel. reflexivity.
  - intros fuel. simpl. rewrite Hrun, Hcycle. now destruct fuel.
Qed.

Lemma X20_halt_witness :
  gen_next GenYieldOrig (about_to_run 0xF025)
  = Yield (mkEvent 0x3001 (lit "HALT ; end the program") "trap" (Some 15)
             (Some []) 0)
      GenYieldStep
      (halted (with_reg (<[R.PC := 0x3001]> (reg (about_to_run 0xF025)))
                 (about_to_run 0xF025))).
Proof.
  apply (X20_halt_ends_the_run GenYieldOrig (about_to_run 0xF025) PC_START
           0xF025 (about_to_run 0xF025)).
  - now left.
  - reflexivity.
  - apply lookup_insert_eq.
  - apply about_to_run_fetch. lia.
  - reflexivity.
  - reflexivity.
Defined.

(** X21: on a host whose stdin is writable, a read of the keyboard status
    register with a byte below 0x80 at the keyboard takes the byte, stores
    its value at 0xFE02, sets the status cell to 0x8000 and returns
    0x8000. With a byte from 0x80 on, the read has set the status cell and
    taken the byte when [getch] raises [OverflowError]: nothing is stored
    at 0xFE02. A value a program stores at 0xFE00 is not read back: on a
    host whose stdin is not writable the next read overwrites the cell and
    returns 0. *)
Theorem X21_keyboard_status_read :
  (forall s m b rest,
      memory s = Some m -> Z.of_nat (length m) = 65536 ->
      stdin_writable s = true -> stdin_pending s = b :: rest ->
      byte_value b < 0x80 ->
      mem_read Mr.KBSR s
      = Ok 0x8000
          (with_memory
             (Some (<[Z.to_nat Mr.KBDR := byte_value b]>
                      (<[Z.to_nat Mr.KBSR := 0x8000]> m)))
             (with_stdin_pending rest s))) /\
  (forall s m b rest,
      memory s = Some m -> Z.of_nat (length m) = 65536 ->
      stdin_writable s = true -> stdin_pending s = b :: rest ->
      0x80 <= byte_value b ->
      mem_read Mr.KBSR s
      = Raise OverflowError
          (with_stdin_pending rest
             (with_memory (Some (<[Z.to_nat Mr.KBSR := 0x8000]> m)) s))) /\
  (forall s v,
      memory_ok s -> 0 <= v <= 65535 -> stdin_writable s = false ->
      (mem_write Mr.KBSR v;; mem_read Mr.KBSR) s
      = Ok 0 (store_at Mr.KBSR 0 s)).
Proof.
  assert (forall s m,
             memory s = Some m -> Z.of_nat (length m) = 65536 ->
             memory_setitem Mr.KBSR (Z.shiftl 1 15) s
             = Ok tt (with_memory (Some (<[Z.to_nat Mr.KBSR := 0x8000]> m)) s))
    as Hstatus.
  { intros s m Hm Hlen. unfold memory_setitem. rewrite Hm.
    now rewrite array_index_in_range by (rewrite Hlen; unfold Mr.KBSR; lia). }
  split; [|split].
  - intros s m b rest Hm Hlen Hw Hp Hb.
    pose proof (byte_range b) as Hr. fold (byte_value b) in Hr.
    unfold mem_read.
    change (Mr.KBSR mod UINT16_MAX) with Mr.KBSR. rewrite Z.eqb_refl.
    unfold mbind at 1 2, M_bind, bind at 1 2. rewrite check_key_writable, Hw.
    rewrite (bind_Ok _ _ _ _ _ (Hstatus s m Hm Hlen)).
    rewrite (bind_Ok _ _ _ _ _
               (getch_getch_low
                  (with_memory (Some (<[Z.to_nat Mr.KBSR := 0x8000]> m)) s)
                  b rest Hp Hb)).
    unfold ord. unfold mbind at 1, M_bind, bind at 1, mret, M_ret, ret.
    unfold memory_setitem, memory_getitem.
    cbn [memory with_memory with_stdin_pending].
    rewrite array_index_in_range
      by (rewrite length_insert, Hlen; unfold Mr.KBDR; lia).
    assert ((byte_value b <? 0) || (65535 <? byte_value b) = false) as -> by lia.
    cbn [memory with_memory with_stdin_pending].
    rewrite array_index_in_range
      by (rewrite !length_insert, Hlen; unfold Mr.KBSR; lia).
    rewrite list_lookup_insert_ne by (unfold Mr.KBDR, Mr.KBSR; lia).
    rewrite list_lookup_insert_eq by (unfold Mr.KBSR; lia).
    destruct s; reflexivity.
  - intros s m b rest Hm Hlen Hw Hp Hb. unfold mem_read.
    change (Mr.KBSR mod UINT16_MAX) with Mr.KBSR. rewrite Z.eqb_refl.
    unfold mbind at 1 2, M_bind, bind at 1 2. rewrite check_key_writable, Hw.
    rewrite (bind_Ok _ _ _ _ _ (Hstatus s m Hm Hlen)).
    now rewrite (bind_Raise _ _ _ _ _
                   (getch_getch_high
                      (with_memory (Some (<[Z.to_nat Mr.KBSR := 0x8000]> m)) s)
                      b rest Hp Hb)).
  - intros s v (m & Hm & Hlen & Hcells) Hv Hw.
    rewrite (bind_Ok _ _ s tt _ (mem_write_word Mr.KBSR v s m Hm Hlen Hv)).
    rewrite (mem_read_KBSR_not_writable _ (<[Z.to_nat (Mr.KBSR mod 65536) := v]> m))
      by (try reflexivity; try exact Hw; now rewrite length_insert).
    unfold store_at. rewrite Hm. simpl.
    change (Z.to_nat (Mr.KBSR mod 65536)) with (Z.to_nat Mr.KBSR).
    now rewrite list_insert_insert_eq.
Qed.

Lemma X21_keyboard_status_witness :
  mem_read Mr.KBSR keyed
  = Ok 0x8000
      (with_memory
         (Some (<[Z.to_nat Mr.KBDR := 97]>
                  (<[Z.to_nat Mr.KBSR := 0x8000]> (repeat 0 (Z.to_nat 65536)))))
         (with_stdin_pending [] keyed)) /\
  mem_read Mr.KBSR accented
  = Raise OverflowError
      (with_stdin_pending []
         (with_memory
            (Some (<[Z.to_nat Mr.KBSR := 0x8000]> (repeat 0 (Z.to_nat 65536))))
            accented)) /\
  (mem_write Mr.KBSR 7;; mem_read Mr.KBSR) typed = Ok 0 (store_at Mr.KBSR 0 typed).
Proof.
  destruct X21_keyboard_status_read as (H1 & H2 & H3).
  assert (Z.of_nat (length (repeat 0 (Z.to_nat 65536))) = 65536) as Hlen
    by (rewrite repeat_length; lia).
  split; [|split].
  - apply (H1 keyed (repeat 0 (Z.to_nat 65536)) x61 [] eq_refl Hlen eq_refl eq_refl).
    vm_compute. reflexivity.
  - apply (H2 accented (repeat 0 (Z.to_nat 65536)) xe9 [] eq_refl Hlen eq_refl
             eq_refl).
    vm_compute. discriminate.
  - apply (H3 typed 7); [|lia|reflexivity].
    eexists. split; [reflexivity|]. split; [exact Hlen|].
    apply Forall_forall. intros c Hc.
    apply list_elem_of_In, repeat_spec in Hc. lia.
Defined.

(** X22: [main] does not set [is_running]: called in a process where it
    is 0 (a previous run has halted), [main] does the load, with its
    effects and errors, and returns without executing any instruction,
    whatever the bound on steps. The generator sets it to 1 before
    loading, so its first event always comes with [is_running] = 1. *)
Theorem X22_main_does_not_reset_is_running :
  forall fuel args s,
    process_ok s -> is_running s = 0 ->
    main fuel args s = Some (load_args args s) /\
    (forall e g s', gen_next (main_generator args) s = Yield e g s' ->
                    is_running s' = 1).
Proof.
  intros fuel args s Hs Hrun. split.
  - unfold main. pose proof (load_args_outcomes args s Hs) as H.
    destruct (load_args args s) as [[] s'|e s'|s']; try reflexivity.
    destruct H as (_ & _ & Hrun'). rewrite Hrun in Hrun'.
    destruct fuel; simpl; now rewrite Hrun'.
  - intros e g s' Hnext. pose proof (gen_next_created args s Hs) as H.
    unfold main_generator in Hnext. rewrite Hnext in H. apply H.
Qed.

Lemma X22_main_witness :
  main 100 ["vm.py"%string; "count.obj"%string] (with_is_running 0 host)
  = Some (load_args ["vm.py"%string; "count.obj"%string] (with_is_running 0 host)).
Proof.
  apply (X22_main_does_not_reset_is_running 100
           ["vm.py"%string; "count.obj"%string] (with_is_running 0 host)).
  - apply (process_ok_same host); [reflexivity..|].
    apply process_ok_initial.
  - reflexivity.
Defined.

Lemma same_output_refl s s' :
  output_buffer s' = output_buffer s -> sys_stdout s' = sys_stdout s ->
  same_output s s'.
Proof. intros H1 H2. exists []. now rewrite !app_nil_r. Qed.

Lemma same_output_trans s1 s2 s3 :
  same_output s1 s2 -> same_output s2 s3 -> same_output s1 s3.
Proof.
  intros (a & Ha1 & Ha2) (b & Hb1 & Hb2). exists (a ++ b).
  rewrite Hb1, Hb2, Ha1, Ha2, !app_assoc. auto.
Qed.

Lemma echoes_bind {A B} (m : M A) (f : A -> M B) :
  echoes m -> (forall a, echoes (f a)) -> echoes (m ≫= f).
Proof.
  intros Hm Hf s. specialize (Hm s).
  unfold mbind, M_bind, bind. destruct (m s) as [a s'|e s'|s']; simpl in *; auto.
  eapply same_output_trans; [exact Hm|apply Hf].
Qed.

Lemma echoes_step {A} (m : M A) :
  (forall s, output_buffer (final_state (m s)) = output_buffer s /\
             sys_stdout (final_state (m s)) = sys_stdout s) ->
  echoes m.
Proof. intros H s. destruct (H s). now apply same_output_refl. Qed.

Lemma echoes_ret {A} (a : A) : echoes (mret a).
Proof. now apply echoes_step. Qed.
Lemma echoes_raise {A} e : echoes (@raise A e).
Proof. now apply echoes_step. Qed.
Lemma echoes_gets {A} (f : state -> A) : echoes (gets f).
Proof. now apply echoes_step. Qed.
Lemma echoes_pass : echoes pass.
Proof. now apply echoes_step. Qed.
Lemma echoes_reg_getitem k : echoes (reg_getitem k).
Proof.
  apply echoes_step. intros s. unfold reg_getitem. now destruct (reg s !! k).
Qed.
Lemma echoes_register_dict_setitem k v : echoes (register_dict_setitem k v).
Proof. apply echoes_step. intros s. now destruct v. Qed.
Lemma echoes_reg_set k v : echoes (reg_set k v).
Proof. apply echoes_register_dict_setitem. Qed.
Lemma echoes_reg_get k : echoes (reg_get k).
Proof. now apply echoes_step. Qed.
Lemma echoes_memory_getitem i : echoes (memory_getitem i).
Proof.
  apply echoes_step. intros s. unfold memory_getitem.
  repeat case_match; auto.
Qed.
Lemma echoes_memory_setitem i v : echoes (memory_setitem i v).
Proof.
  apply echoes_step. intros s. unfold memory_setitem.
  repeat case_match; auto.
Qed.
Lemma echoes_memory_len : echoes memory_len.
Proof. apply echoes_step. intros s. unfold memory_len. now destruct (memory s). Qed.
Lemma echoes_getch : echoes getch_getch.
Proof.
  apply echoes_step. intros s. unfold getch_getch.
  repeat case_match; auto.
Qed.
Lemma echoes_check_key : echoes check_key.
Proof. apply echoes_step. intros s. now rewrite check_key_writable. Qed.
Lemma echoes_sys_stdout_read n : echoes (sys_stdout_read n).
Proof.
  apply echoes_step. intros s. unfold sys_stdout_read.
  now destruct (stdout_readable s).
Qed.
Lemma echoes_set_command_buffer c : echoes (set_command_buffer c).
Proof. now apply echoes_step. Qed.
Lemma echoes_vsys_stdout_flush : echoes vsys.stdout_flush.
Proof. now apply echoes_step. Qed.
Lemma echoes_vsys_stdout_write c : echoes (vsys.stdout_write c).
Proof.
  intros s. destruct (forallb encodable c) eqn:Hc.
  - rewrite (vsys_stdout_write_wrote c s Hc). now exists c.
  - rewrite (vsys_stdout_write_unencodable c s Hc). now apply same_output_refl.
Qed.

Create HintDb echo discriminated.
#[local] Hint Resolve echoes_bind echoes_ret echoes_raise echoes_gets echoes_pass
  echoes_reg_getitem echoes_register_dict_setitem echoes_reg_set echoes_reg_get
  echoes_memory_getitem echoes_memory_setitem echoes_memory_len echoes_getch
  echoes_check_key echoes_sys_stdout_read echoes_set_command_buffer
  echoes_vsys_stdout_flush echoes_vsys_stdout_write : echo.
#[local] Hint Extern 1 (echoes (if ?b then _ else _)) => destruct b : echo.
#[local] Hint Extern 1 (echoes (match ?x with _ => _ end)) => destruct x : echo.
#[local] Hint Extern 1 (echoes (let x := _ in _)) => cbv zeta : echo.
#[local] Hint Extern 1 (echoes (mret _)) => apply echoes_ret : echo.

Ltac echo_unfold f := unfold f; auto 40 with echo.

Lemma echoes_chr c : echoes (chr c).
Proof. echo_unfold chr. Qed.
Lemma echoes_ord c : echoes (ord c).
Proof. echo_unfold ord. Qed.
Lemma echoes_rshift x n : echoes (rshift x n).
Proof. echo_unfold rshift. Qed.
Lemma echoes_lshift x n : echoes (lshift x n).
Proof. echo_unfold lshift. Qed.
#[local] Hint Resolve echoes_chr echoes_ord echoes_rshift echoes_lshift : echo.
Lemma echoes_sign_extend x n : echoes (sign_extend x n).
Proof. echo_unfold sign_extend. Qed.
Lemma echoes_update_flags r : echoes (update_flags r).
Proof. echo_unfold update_flags. Qed.
Lemma echoes_mem_read a : echoes (mem_read a).
Proof. echo_unfold mem_read. Qed.
Lemma echoes_mem_write a v : echoes (mem_write a v).
Proof. echo_unfold mem_write. Qed.
Lemma echoes_py_mod v n : echoes (py_mod v n).
Proof. echo_unfold py_mod. Qed.
Lemma echoes_vsys_stdout_read n : echoes (vsys.stdout_read n).
Proof. echo_unfold vsys.stdout_read. Qed.
#[local] Hint Resolve echoes_sign_extend echoes_update_flags echoes_mem_read
  echoes_mem_write echoes_py_mod echoes_vsys_stdout_read : echo.

Lemma echoes_call_trap t : t <> Trap_halt -> echoes (call_trap t).
Proof.
  intros Ht. destruct t; simpl; try contradiction.
  - echo_unfold trap_getc.
  - echo_unfold trap_out.
  - unfold trap_puts.
    assert (forall l, echoes (trap_puts_for l)) as Hfor
      by (induction l; simpl; auto 40 with echo).
    auto 40 with echo.
  - echo_unfold trap_in.
  - unfold trap_putsp.
    assert (forall l, echoes (trap_putsp_for l)) as Hfor
      by (induction l; simpl; auto 40 with echo).
    auto 40 with echo.
Qed.

Lemma echoes_call f instr :
  (f = Ftrap -> traps !! Z.land instr 0xFF <> Some Trap_halt) ->
  echoes (call f instr).
Proof.
  intros Hhalt. destruct f; simpl.
  - echo_unfold add.
  - echo_unfold not_.
  - echo_unfold and_.
  - echo_unfold br.
  - echo_unfold jmp.
  - echo_unfold jsr.
  - echo_unfold ld.
  - echo_unfold ldi.
  - echo_unfold ldr.
  - echo_unfold lea.
  - echo_unfold st.
  - echo_unfold sti.
  - echo_unfold str_.
  - unfold trap. specialize (Hhalt eq_refl).
    destruct (traps !! Z.land instr 0xFF) as [t|]; [|apply echoes_raise].
    apply echoes_call_trap. congruence.
  - echo_unfold bad_opcode.
Qed.


Lemma same_output_weaken s s' : same_output s s' -> same_output_but_halt s s'.
Proof. intros (out & H1 & H2). exists out. auto. Qed.

Lemma same_output_then_halt s1 s2 s3 :
  same_output s1 s2 -> same_output_but_halt s2 s3 ->
  same_output_but_halt s1 s3.
Proof.
  intros (a & Ha1 & Ha2) (b & Hb1 & Hb2). exists (a ++ b). split.
  - rewrite Hb1, Ha1. now rewrite <- app_assoc.
  - destruct Hb2 as [Hb2|Hb2]; rewrite Hb2, Ha2; [left|right];
      now rewrite <- !app_assoc.
Qed.

Lemma call_output f instr s :
  same_output_but_halt s (final_state (call f instr s)).
Proof.
  assert ((f = Ftrap -> traps !! Z.land instr 0xFF <> Some Trap_halt) \/
          (f = Ftrap /\ traps !! Z.land instr 0xFF = Some Trap_halt))
    as [Hno|[-> Hhalt]].
  { destruct (traps !! Z.land instr 0xFF) as [t|] eqn:Ht;
      [|left; discriminate].
    assert (t = Trap_halt \/ t <> Trap_halt) as [-> | Hne]
      by (destruct t; (now left) || (now right)).
    - assert (f = Ftrap \/ f <> Ftrap) as [-> | Hf]
        by (destruct f; (now left) || (now right)); [now right|].
      left. intros Heq. contradiction.
    - left. intros _. congruence. }
  - apply same_output_weaken, (echoes_call f instr Hno).
  - simpl. unfold trap. rewrite Hhalt. simpl.
    exists []. rewrite !app_nil_r. auto.
Qed.

Lemma fetch_and_execute_output s :
  same_output_but_halt s (final_state (fetch_and_execute s)).
Proof.
  unfold fetch_and_execute.
  assert (forall {A B} (m : M A) (f : A -> M B) s0,
            echoes m ->
            (forall a s1, same_output_but_halt s1 (final_state (f a s1))) ->
            same_output_but_halt s0 (final_state ((m ≫= f) s0))) as Hbind.
  { intros A B m f s0 Hm Hf. specialize (Hm s0).
    unfold mbind, M_bind, bind.
    destruct (m s0) as [a s1|e s1|s1]; simpl in *;
      [|now apply same_output_weaken..].
    eapply same_output_then_halt; [exact Hm|apply Hf]. }
  apply Hbind; [apply echoes_reg_getitem|]. intros pc s1.
  apply Hbind; [apply echoes_mem_read|]. intros instr s2.
  apply Hbind; [apply echoes_reg_getitem|]. intros pc' s3.
  apply Hbind; [apply echoes_reg_set|]. intros [] s4. cbv zeta.
  pose proof (call_output (default Fbad_opcode (ops !! Z.shiftr instr 12))
                instr s4) as H.
  unfold mbind, M_bind, bind.
  destruct (call _ instr s4); exact H.
Qed.

Lemma gen_while_output s0 e g s' :
  gen_while s0 = Yield e g s' ->
  exists out,
    ev_output_buffer e = Some (output_buffer s0 ++ out) /\
    (sys_stdout s' = sys_stdout s0 ++ out \/
     sys_stdout s' = sys_stdout s0 ++ out ++ lit "HALT" ++ [10]).
Proof.
  intros Hnext. unfold gen_while in Hnext.
  destruct (truthy (is_running s0)); [|discriminate].
  destruct (gen_step s0) as [e0 s1|e0 s1|s1] eqn:Hstep; try discriminate.
  injection Hnext as -> _ ->.
  unfold gen_step in Hstep.
  apply bind_Ok_inv in Hstep as ([op f] & s2 & Hfetch & Hstep).
  apply bind_Ok_inv in Hstep as (pc & s3 & Hpc & Hstep).
  apply reg_getitem_Ok in Hpc as [-> _].
  injection Hstep as <- <-.
  pose proof (fetch_and_execute_output s0) as (out & Hob & Hso).
  rewrite Hfetch in Hob, Hso. simpl in Hob, Hso.
  exists out. split; [now rewrite Hob|exact Hso].
Qed.

(** X23: what a cycle appends to the output buffer is, character for
    character, what it sends to the console, but for the line HALT that
    the HALT trap prints on the console alone. The buffer is emptied when
    the generator resumes after a step, so the event of every later step
    carries exactly the console output of that step; it is not emptied
    when a run starts, so the event of the first step also carries what
    the buffer held before the run. *)
Theorem X23_event_output_is_console_output :
  (forall s,
      same_output_but_halt s (final_state (fetch_and_execute s))) /\
  (forall s e g s',
      gen_next GenYieldStep s = Yield e g s' ->
      exists out,
        ev_output_buffer e = Some out /\
        (sys_stdout s' = sys_stdout s ++ out \/
         sys_stdout s' = sys_stdout s ++ out ++ lit "HALT" ++ [10])) /\
  (forall s e g s',
      gen_next GenYieldOrig s = Yield e g s' ->
      exists out,
        ev_output_buffer e = Some (output_buffer s ++ out) /\
        (sys_stdout s' = sys_stdout s ++ out \/
         sys_stdout s' = sys_stdout s ++ out ++ lit "HALT" ++ [10])).
Proof.
  split; [exact fetch_and_execute_output|]. split.
  - intros s e g s' Hnext. exact (gen_while_output _ e g s' Hnext).
  - intros s e g s' Hnext. exact (gen_while_output s e g s' Hnext).
Qed.

Lemma halt_generator_step g s pc instr s1 :
  g = GenYieldOrig \/ g = GenYieldStep ->
  truthy (is_running (resumed g s)) = true ->
  reg (resumed g s) !! R.PC = Some pc ->
  mem_read pc (resumed g s) = Ok instr s1 ->
  Z.shiftr instr 12 = OP.TRAP -> Z.land instr 0xFF = Trap.HALT ->
  gen_next g s
  = Yield (mkEvent ((pc + 1) mod 65536) (lit "HALT ; end the program")
             "trap" (Some OP.TRAP) (Some (output_buffer s1)) (memory_id s1))
      GenYieldStep
      (halted (with_reg (<[R.PC := (pc + 1) mod 65536]> (reg s1)) s1)).
Proof.
  intros Hg Hrun Hpc Hread Hop Hvec.
  pose proof (halt_cycle _ pc instr s1 Hpc Hread Hop Hvec) as Hcycle.
  rewrite gen_next_resumed by exact Hg. unfold gen_while. rewrite Hrun.
  unfold gen_step. rewrite (bind_Ok _ _ _ _ _ Hcycle).
  rewrite (bind_Ok (reg_getitem R.PC) _ _ ((pc + 1) mod 65536) _)
    by (apply reg_getitem_Some, lookup_insert_eq).
  reflexivity.
Qed.

Lemma X23_event_output_witness :
  exists out,
    ev_output_buffer
      (mkEvent 0x3001 (lit "HALT ; end the program") "trap" (Some 15)
         (Some []) 0) = Some out /\
    (sys_stdout (halted (with_reg (<[R.PC := 0x3001]> (reg (about_to_run 0xF025)))
                           (about_to_run 0xF025)))
     = sys_stdout (about_to_run 0xF025) ++ out \/
     sys_stdout (halted (with_reg (<[R.PC := 0x3001]> (reg (about_to_run 0xF025)))
                           (about_to_run 0xF025)))
     = sys_stdout (about_to_run 0xF025) ++ out ++ lit "HALT" ++ [10]).
Proof.
  apply (proj1 (proj2 X23_event_output_is_console_output) (about_to_run 0xF025) _
           GenYieldStep).
  assert (gen_next GenYieldStep (about_to_run 0xF025)
          = gen_next GenYieldOrig (about_to_run 0xF025)) as -> by reflexivity.
  assert (mem_read PC_START (resumed GenYieldOrig (about_to_run 0xF025))
          = Ok 0xF025 (about_to_run 0xF025)) as Hread
    by (apply about_to_run_fetch; lia).
  assert (reg (resumed GenYieldOrig (about_to_run 0xF025)) !! R.PC
          = Some PC_START) as Hpc by apply lookup_insert_eq.
  exact (halt_generator_step GenYieldOrig (about_to_run 0xF025) PC_START
           0xF025 (about_to_run 0xF025) (or_introl eq_refl) eq_refl
           Hpc Hread eq_refl eq_refl).
Defined.

Lemma keeps_bind {A B C} (f : state -> C) (m : M A) (k : A -> M B) :
  keeps f m -> (forall a, keeps f (k a)) -> keeps f (m ≫= k).
Proof.
  intros Hm Hk s. specialize (Hm s).
  unfold mbind, M_bind, bind. destruct (m s) as [a s'|e s'|s']; simpl in *; auto.
  now rewrite Hk.
Qed.

Lemma keeps_ret {A C} (f : state -> C) (a : A) : keeps f (mret a).
Proof. now intros s. Qed.
Lemma keeps_raise {A C} (f : state -> C) e : keeps f (@raise A e).
Proof. now intros s. Qed.
Lemma keeps_gets {A C} (f : state -> C) (g : state -> A) : keeps f (gets g).
Proof. now intros s. Qed.

(** The operations that are one step on the state: the component is kept
    when every branch keeps it. *)
Ltac keeps_now :=
  intros ?;
  cbv [reg_getitem memory_getitem memory_setitem memory_len memory_update
       getch_getch select_select sys_stdout_read open_rb modify];
  simpl; repeat case_match; simplify_eq; reflexivity.

Create HintDb keep discriminated.
#[local] Hint Resolve keeps_bind keeps_ret keeps_raise keeps_gets : keep.
#[local] Hint Extern 1 (keeps _ (if ?b then _ else _)) => destruct b : keep.
#[local] Hint Extern 1 (keeps _ (match ?x with _ => _ end)) => destruct x : keep.
#[local] Hint Extern 1 (keeps _ (let x := _ in _)) => cbv zeta : keep.
#[local] Hint Extern 1 (keeps _ (mret _)) => apply keeps_ret : keep.
#[local] Hint Extern 1 (keeps _ pass) => apply keeps_ret : keep.
#[local] Hint Extern 2 (keeps _ (reg_getitem _)) => solve [keeps_now] : keep.
#[local] Hint Extern 2 (keeps _ (memory_getitem _)) => solve [keeps_now] : keep.
#[local] Hint Extern 2 (keeps _ (memory_setitem _ _)) => solve [keeps_now] : keep.
#[local] Hint Extern 2 (keeps _ memory_len) => solve [keeps_now] : keep.
#[local] Hint Extern 2 (keeps _ (memory_update _)) => solve [keeps_now] : keep.
#[local] Hint Extern 2 (keeps _ getch_getch) => solve [keeps_now] : keep.
#[local] Hint Extern 2 (keeps _ (select_select _ _ _)) => solve [keeps_now] : keep.
#[local] Hint Extern 2 (keeps _ (sys_stdout_read _)) => solve [keeps_now] : keep.
#[local] Hint Extern 2 (keeps _ (open_rb _)) => solve [keeps_now] : keep.
#[local] Hint Extern 2 (keeps _ (modify _)) => solve [keeps_now] : keep.
#[local] Hint Extern 3 (keeps _ (py_mod _ _)) => unfold py_mod : keep.
#[local] Hint Extern 3 (keeps _ (rshift _ _)) => unfold rshift : keep.
#[local] Hint Extern 3 (keeps _ (lshift _ _)) => unfold lshift : keep.
#[local] Hint Extern 3 (keeps _ (chr _)) => unfold chr : keep.
#[local] Hint Extern 3 (keeps _ (ord _)) => unfold ord : keep.
#[local] Hint Extern 3 (keeps _ (register_dict_setitem _ _)) =>
  unfold register_dict_setitem : keep.
#[local] Hint Extern 3 (keeps _ (reg_set _ _)) => unfold reg_set : keep.
#[local] Hint Extern 3 (keeps _ (reg_get _)) => unfold reg_get : keep.
#[local] Hint Extern 3 (keeps _ (sys_stdout_write _)) => unfold sys_stdout_write : keep.
#[local] Hint Extern 3 (keeps _ sys_stdout_flush) => unfold sys_stdout_flush : keep.
#[local] Hint Extern 3 (keeps _ (print _)) => unfold print : keep.
#[local] Hint Extern 3 (keeps _ vsys.stdin) => unfold vsys.stdin : keep.
#[local] Hint Extern 3 (keeps _ vsys.stdout_flush) => unfold vsys.stdout_flush : keep.
#[local] Hint Extern 3 (keeps _ (vsys.stdout_write _)) => unfold vsys.stdout_write : keep.
#[local] Hint Extern 3 (keeps _ (vsys.stdout_read _)) => unfold vsys.stdout_read : keep.
#[local] Hint Extern 3 (keeps _ check_key) => unfold check_key : keep.
#[local] Hint Extern 3 (keeps _ (mem_write _ _)) => unfold mem_write : keep.
#[local] Hint Extern 3 (keeps _ (mem_read _)) => unfold mem_read : keep.
#[local] Hint Extern 3 (keeps _ (sign_extend _ _)) => unfold sign_extend : keep.
#[local] Hint Extern 3 (keeps _ (update_flags _)) => unfold update_flags : keep.
#[local] Hint Extern 3 (keeps _ (set_command_buffer _)) =>
  unfold set_command_buffer : keep.

Ltac keeps_unfold f := unfold f; auto 60 with keep.

(** No instruction rebinds [memory]. *)
Lemma keeps_memory_id_call f instr : keeps memory_id (call f instr).
Proof.
  destruct f; simpl.
  - keeps_unfold add.
  - keeps_unfold not_.
  - keeps_unfold and_.
  - keeps_unfold br.
  - keeps_unfold jmp.
  - keeps_unfold jsr.
  - keeps_unfold ld.
  - keeps_unfold ldi.
  - keeps_unfold ldr.
  - keeps_unfold lea.
  - keeps_unfold st.
  - keeps_unfold sti.
  - keeps_unfold str_.
  - unfold trap. destruct (traps !! _) as [t|]; [|auto with keep].
    destruct t; simpl.
    + keeps_unfold trap_getc.
    + keeps_unfold trap_out.
    + unfold trap_puts.
      assert (forall l, keeps memory_id (trap_puts_for l)) as Hfor
        by (induction l; simpl; auto 60 with keep).
      auto 60 with keep.
    + keeps_unfold trap_in.
    + unfold trap_putsp.
      assert (forall l, keeps memory_id (trap_putsp_for l)) as Hfor
        by (induction l; simpl; auto 60 with keep).
      auto 60 with keep.
    + keeps_unfold trap_halt.
  - keeps_unfold bad_opcode.
Qed.

Lemma keeps_memory_id_fetch_and_execute : keeps memory_id fetch_and_execute.
Proof.
  pose proof keeps_memory_id_call. keeps_unfold fetch_and_execute.
Qed.

(** Only [jmp], [lea] and [trap] write the command buffer. *)
Lemma keeps_command_buffer_call f instr :
  silent f -> keeps command_buffer (call f instr).
Proof.
  intros (Hjmp & Hlea & Htrap). destruct f; simpl; try contradiction.
  - keeps_unfold add.
  - keeps_unfold not_.
  - keeps_unfold and_.
  - keeps_unfold br.
  - keeps_unfold jsr.
  - keeps_unfold ld.
  - keeps_unfold ldi.
  - keeps_unfold ldr.
  - keeps_unfold st.
  - keeps_unfold sti.
  - keeps_unfold str_.
  - keeps_unfold bad_opcode.
Qed.

Lemma keeps_memory_id_gen_step : keeps memory_id gen_step.
Proof.
  pose proof keeps_memory_id_fetch_and_execute. keeps_unfold gen_step.
Qed.

Lemma gen_step_event s e s' :
  gen_step s = Ok e s' -> ev_memory e = memory_id s'.
Proof.
  intros Hstep. unfold gen_step in Hstep.
  apply bind_Ok_inv in Hstep as ([op f] & s2 & Hfetch & Hstep).
  apply bind_Ok_inv in Hstep as (pc & s3 & Hpc & Hstep).
  apply reg_getitem_Ok in Hpc as [-> _].
  now injection Hstep as <- <-.
Qed.

Lemma gen_while_array s :
  memory_id (gen_state_after (gen_while s)) = memory_id s /\
  forall e g s', gen_while s = Yield e g s' ->
                 g = GenYieldStep /\ ev_memory e = memory_id s.
Proof.
  unfold gen_while. destruct (truthy (is_running s)); [|now split].
  pose proof (keeps_memory_id_gen_step s) as Hid.
  destruct (gen_step s) as [e0 s1|e0 s1|s1] eqn:Hstep; simpl in *;
    (split; [exact Hid|]); try discriminate.
  intros e g s' [= <- <- <-]. split; [reflexivity|].
  rewrite (gen_step_event _ _ _ Hstep). exact Hid.
Qed.

Lemma gen_next_array g s :
  (forall args, g <> GenCreated args) ->
  memory_id (gen_state_after (gen_next g s)) = memory_id s /\
  forall e g' s', gen_next g s = Yield e g' s' ->
                  g' = GenYieldStep /\ ev_memory e = memory_id s.
Proof.
  intros Hc. destruct g as [args| | |]; simpl.
  - now destruct (Hc args).
  - apply gen_while_array.
  - apply (gen_while_array
             (with_command_buffer (lit "") (with_output_buffer (lit "") s))).
  - now split.
Qed.

Lemma drive_array fuel : forall g s,
  (forall args, g <> GenCreated args) ->
  Forall (fun e => ev_memory e = memory_id s) (drive fuel g s).1.1 /\
  memory_id (drive fuel g s).2 = memory_id s.
Proof.
  induction fuel as [|fuel IH]; intros g s Hc; [now split|].
  rewrite drive_S. destruct (gen_next_array g s Hc) as [Hid Hev].
  destruct (gen_next g s) as [e g' s'|s'|e s'|s'] eqn:Hnext; simpl in Hid;
    try (now split).
  destruct (Hev e g' s' eq_refl) as [-> He].
  destruct (IH GenYieldStep s' ltac:(discriminate)) as [Hall Hlast].
  destruct (drive fuel GenYieldStep s') as [[es d] s''] eqn:Hd. simpl in *.
  rewrite Hid in Hall, Hlast. split; [|exact Hlast].
  constructor; assumption.
Qed.

Lemma load_args_array args s s' :
  load_args args s = Ok tt s' -> memory_id s' = S (memory_id s).
Proof.
  unfold load_args, exit. intros Hload.
  apply bind_Ok_inv in Hload as ([] & s1 & Hcheck & Hload).
  apply bind_Ok_inv in Hload as ([] & s2 & Hread & Hset).
  destruct (Z.of_nat (length args) <? 2); [discriminate|].
  injection Hcheck as <-.
  destruct (args !! 1%nat) as [path|]; [|discriminate].
  assert (keeps memory_id (reg_set R.PC PC_START)) as Hpc by auto 20 with keep.
  specialize (Hpc s2). rewrite Hset in Hpc. simpl in Hpc. rewrite Hpc.
  destruct (files s !! path) as [bs|] eqn:Hfile.
  - rewrite (read_image_file_spec s path bs Hfile) in Hread. cbv zeta in Hread.
    destruct (_ =? _); [|discriminate]. now injection Hread as <-.
  - unfold read_image_file in Hread.
    rewrite (bind_Raise (open_rb path) _ s FileNotFoundError s) in Hread
      by (unfold open_rb; now rewrite Hfile).
    discriminate.
Qed.

Lemma gen_prologue_array args s e s' :
  gen_prologue args s = Ok e s' ->
  ev_memory e = S (memory_id s) /\ memory_id s' = S (memory_id s).
Proof.
  unfold gen_prologue. intros H.
  apply bind_Ok_inv in H as ([] & s1 & Hrun & H).
  injection Hrun as <-.
  apply bind_Ok_inv in H as ([] & s2 & Hload & H).
  apply load_args_array in Hload. simpl in Hload.
  apply bind_Ok_inv in H as (pc & s3 & Hpc & H).
  apply reg_getitem_Ok in Hpc as [-> _].
  injection H as <- <-. now split.
Qed.

(** X24: no instruction rebinds [memory], only the loader does, and each
    event holds the array itself, not a copy. So every event of one drive
    of the generator refers to one and the same array, the one the loader
    of that run made, which at the end of the drive holds the memory as the
    last instruction left it: the list the view collects shows that final
    memory at every step. A later run makes a new array and leaves the
    events of the earlier run alone. *)
Theorem X24_events_share_one_array :
  (forall s, memory_id (final_state (fetch_and_execute s)) = memory_id s) /\
  (forall fuel args s,
      let r := drive fuel (main_generator args) s in
      Forall (fun e => ev_memory e = S (memory_id s)) r.1.1 /\
      (r.1.1 <> [] -> memory_id r.2 = S (memory_id s))).
Proof.
  split; [exact keeps_memory_id_fetch_and_execute|].
  intros fuel args s. cbv zeta. unfold main_generator.
  destruct fuel as [|fuel]; [now split|].
  rewrite drive_S. simpl gen_next.
  destruct (gen_prologue args s) as [e s'|e s'|s'] eqn:Hpro; try (now split).
  destruct (gen_prologue_array _ _ _ _ Hpro) as [He Hid].
  destruct (drive_array fuel GenYieldOrig s' ltac:(discriminate)) as [Hall Hlast].
  destruct (drive fuel GenYieldOrig s') as [[es d] s''] eqn:Hd. simpl in *.
  rewrite Hid in Hall, Hlast. split; [|intros _; exact Hlast].
  constructor; assumption.
Qed.

Lemma X24_events_share_witness :
  first_run.1.1 <> [] /\
  memory_id first_run.2 = 1%nat /\
  Forall (fun e => ev_memory e = 1%nat) first_run.1.1.
Proof.
  assert (first_run.1.1 <> []) as H by (vm_compute; discriminate).
  pose proof (proj2 X24_events_share_one_array 10%nat
                ["vm.py"%string; "count.obj"%string] host) as [Hall Hlast].
  split; [exact H|]. split; [exact (Hlast H)|exact Hall].
Defined.

(** A cycle that comes back has called the handler that [ops] holds for
    the opcode, on a state whose command buffer the fetch has not touched. *)
Lemma fetch_and_execute_handler s op f s2 :
  fetch_and_execute s = Ok (op, f) s2 ->
  ops !! op = Some f /\
  exists instr s1,
    op = Z.shiftr instr 12 /\
    command_buffer s1 = command_buffer s /\
    call f instr s1 = Ok tt s2.
Proof.
  unfold fetch_and_execute. intros H.
  apply bind_Ok_inv in H as (pc & s0 & Hpc & H).
  apply reg_getitem_Ok in Hpc as [-> Hpc].
  apply bind_Ok_inv in H as (instr & s1 & Hread & H).
  apply bind_Ok_inv in H as (pc' & s1' & Hpc' & H).
  apply reg_getitem_Ok in Hpc' as [-> Hpc'].
  apply bind_Ok_inv in H as ([] & s1' & Hset & H).
  cbv zeta in H.
  apply bind_Ok_inv in H as ([] & s2' & Hcall & H).
  injection H as <- <- <-.
  assert (command_buffer s1' = command_buffer s) as Hcmd.
  { assert (keeps command_buffer (mem_read pc)) as H1 by auto 40 with keep.
    specialize (H1 s). rewrite Hread in H1. simpl in H1.
    assert (keeps command_buffer (reg_set R.PC (pc' + 1))) as H2
      by auto 20 with keep.
    specialize (H2 s1). rewrite Hset in H2. simpl in H2. congruence. }
  split.
  - destruct (ops !! Z.shiftr instr 12) as [f|]; [reflexivity|].
    simpl in Hcall. discriminate.
  - exists instr, s1'. auto.
Qed.

Lemma gen_step_describes s e s' :
  gen_step s = Ok e s' ->
  exists op f,
    ev_op_code e = Some op /\ ops !! op = Some f /\
    ev_op_name e = function_name f /\
    reg s' !! R.PC = Some (ev_PC e) /\
    ev_command e = command_buffer s' /\
    (silent f -> command_buffer s' = command_buffer s).
Proof.
  intros Hstep. unfold gen_step in Hstep.
  apply bind_Ok_inv in Hstep as ([op f] & s2 & Hfetch & Hstep).
  apply bind_Ok_inv in Hstep as (pc & s3 & Hpc & Hstep).
  apply reg_getitem_Ok in Hpc as [-> Hpc].
  injection Hstep as <- <-.
  apply fetch_and_execute_handler in Hfetch
    as (Hops & instr & s1 & -> & Hcmd & Hcall).
  exists (Z.shiftr instr 12), f. simpl. repeat split; auto.
  intros Hf.
  pose proof (keeps_command_buffer_call f instr Hf s1) as H.
  rewrite Hcall in H. simpl in H. congruence.
Qed.

(** X25: an event yielded in the loop describes the instruction that has
    just run: its opcode has an entry in [ops] (so it is never 8 or 13, and
    no event is named [bad_opcode]), its name is the name of that entry,
    its PC is the program counter after the instruction, and its command
    is the command buffer. Only [jmp], [lea] and [trap] write the command
    buffer: for every other handler the command is empty from the second
    step on, and at the first step it is whatever the buffer held when the
    run began, since the buffer is emptied after a step and not before the
    first. *)
Theorem X25_event_describes_instruction g s e g' s' :
  g = GenYieldOrig \/ g = GenYieldStep ->
  gen_next g s = Yield e g' s' ->
  exists op f,
    ev_op_code e = Some op /\ ops !! op = Some f /\
    op <> OP.RTI /\ op <> OP.RES /\
    ev_op_name e = function_name f /\
    reg s' !! R.PC = Some (ev_PC e) /\
    ev_command e = command_buffer s' /\
    (silent f ->
     ev_command e = match g with GenYieldStep => [] | _ => command_buffer s end).
Proof.
  intros Hg Hnext.
  assert (exists s0, gen_while s0 = Yield e g' s' /\
                     command_buffer s0
                     = match g with GenYieldStep => [] | _ => command_buffer s end)
    as (s0 & Hwhile & Hs0).
  { destruct Hg as [-> | ->]; simpl in Hnext; eexists; (split; [exact Hnext|]).
    - reflexivity.
    - reflexivity. }
  unfold gen_while in Hwhile.
  destruct (truthy (is_running s0)); [|discriminate].
  destruct (gen_step s0) as [e0 s1|e0 s1|s1] eqn:Hstep; try discriminate.
  injection Hwhile as -> _ ->.
  apply gen_step_describes in Hstep
    as (op & f & Hop & Hops & Hname & Hpc & Hcmd & Hsilent).
  exists op, f. repeat split; auto.
  - intros ->. vm_compute in Hops. discriminate.
  - intros ->. vm_compute in Hops. discriminate.
  - intros Hf. rewrite Hcmd, (Hsilent Hf). exact Hs0.
Qed.

Lemma X25_event_describes_witness :
  match gen_next GenYieldStep (about_to_run 0x1021) with
  | Yield e _ _ => ev_op_name e = "add"%string /\ ev_command e = []
  | _ => False
  end.
Proof.
  assert (match gen_next GenYieldStep (about_to_run 0x1021) with
          | Yield e _ _ => ev_op_code e = Some 1
          | _ => False
          end) as Hrun by (vm_compute; reflexivity).
  destruct (gen_next GenYieldStep (about_to_run 0x1021))
    as [e g' s'|s'|x s'|s'] eqn:Hnext; try contradiction.
  destruct (X25_event_describes_instruction GenYieldStep _ _ _ _
              (or_intror eq_refl) Hnext)
    as (op & f & Hop & Hops & _ & _ & Hname & _ & _ & Hsilent).
  rewrite Hrun in Hop. injection Hop as <-.
  vm_compute in Hops. injection Hops as <-.
  split; [exact Hname|]. apply Hsilent. repeat split; discriminate.
Defined.


Lemma one_key_keeps {A} (m : M A) : keeps stdin_pending m -> one_key m.
Proof. intros H s. left. apply H. Qed.

Lemma one_key_bind_l {A B} (m : M A) (k : A -> M B) :
  keeps stdin_pending m -> (forall a, one_key (k a)) -> one_key (m ≫= k).
Proof.
  intros Hm Hk s. specialize (Hm s).
  unfold mbind, M_bind, bind. destruct (m s) as [a s'|e s'|s']; simpl in *;
    try (now left).
  unfold at_most_one_key. rewrite <- Hm. apply Hk.
Qed.

Lemma one_key_bind_r {A B} (m : M A) (k : A -> M B) :
  one_key m -> (forall a, keeps stdin_pending (k a)) -> one_key (m ≫= k).
Proof.
  intros Hm Hk s. specialize (Hm s).
  unfold mbind, M_bind, bind. destruct (m s) as [a s'|e s'|s']; simpl in *;
    try exact Hm.
  unfold at_most_one_key. rewrite (Hk a s'). exact Hm.
Qed.

Lemma one_key_getch : one_key getch_getch.
Proof.
  intros s. unfold getch_getch.
  destruct (stdin_pending s) as [|c rest] eqn:Hin; simpl.
  - now left.
  - right. exists c. rewrite Hin. now destruct (byte_value c <? 0x80).
Qed.

(** A read of another address than the keyboard status takes nothing. *)
Lemma mem_read_other_keeps a :
  a mod 65536 <> Mr.KBSR -> keeps stdin_pending (mem_read a).
Proof.
  intros Ha. unfold mem_read. change UINT16_MAX with 65536.
  destruct (Z.eqb_spec (a mod 65536) Mr.KBSR) as [|_]; [contradiction|].
  auto 20 with keep.
Qed.

(** The poll of a writable keyboard: the status is set, a character is
    taken and stored in the data cell; after it the status cell reads
    0x8000. *)
Lemma array_index_nonneg m i k :
  0 <= i -> array_index m i = Some k ->
  k = Z.to_nat i /\ (k < length m)%nat.
Proof.
  intros Hi. unfold array_index.
  destruct (Z.ltb_spec i 0) as [|_]; [lia|].
  destruct (Z.ltb_spec i 0) as [|_]; [lia|]. simpl.
  destruct (Z.leb_spec (Z.of_nat (length m)) i); [discriminate|].
  intros [= <-]. split; [reflexivity|lia].
Qed.

Lemma poll_key s :
  match (memory_setitem Mr.KBSR (Z.shiftl 1 15);;
         c ← getch_getch; o ← ord c; memory_setitem Mr.KBDR o) s with
  | Ok _ s' =>
      (exists c, stdin_pending s = c :: stdin_pending s') /\
      memory_getitem Mr.KBSR s' = Ok 0x8000 s'
  | Raise _ s' | Block s' => at_most_one_key s s'
  end.
Proof.
  unfold mbind, M_bind, bind, memory_setitem, getch_getch. simpl.
  destruct (memory s) as [m|] eqn:Hm; [|now left].
  destruct (array_index m Mr.KBSR) as [k|] eqn:Hk; [|now left].
  apply array_index_nonneg in Hk as [-> Hlen]; [|cbv; discriminate].
  simpl. destruct (stdin_pending s) as [|c rest] eqn:Hin; simpl; [now left|].
  assert (forall s', stdin_pending s' = rest -> at_most_one_key s s') as Htook
    by (intros s' Hs'; right; exists c; now rewrite Hin, Hs').
  destruct (byte_value c <? 0x80); [|now apply Htook]. simpl.
  destruct (array_index _ Mr.KBDR) as [k2|] eqn:Hk2; [|now apply Htook].
  apply array_index_nonneg in Hk2 as [-> Hlen2]; [|cbv; discriminate].
  destruct ((byte_value c <? 0) || (65535 <? byte_value c));
    [now apply Htook|].
  split; [now exists c|].
  unfold memory_getitem. cbn [memory with_memory with_stdin_pending].
  rewrite array_index_in_range
    by (rewrite !length_insert; unfold Mr.KBSR in *; lia).
  rewrite list_lookup_insert_ne by (unfold Mr.KBDR, Mr.KBSR; lia).
  rewrite list_lookup_insert_eq by exact Hlen. reflexivity.
Qed.

(** A read of the keyboard status takes at most one character, and when
    it has taken one it returns the status 0x8000. *)
Lemma mem_read_key_status a s :
  a mod 65536 = Mr.KBSR ->
  match mem_read a s with
  | Ok v s' =>
      stdin_pending s' = stdin_pending s \/
      (v = 0x8000 /\ exists c, stdin_pending s = c :: stdin_pending s')
  | Raise _ s' | Block s' => at_most_one_key s s'
  end.
Proof.
  intros Ha. unfold mem_read. change UINT16_MAX with 65536. rewrite Ha.
  change (Mr.KBSR =? Mr.KBSR) with true. cbv iota.
  unfold mbind at 1, M_bind, bind at 1.
  rewrite (bind_Ok check_key _ s (stdin_writable s) s (check_key_writable s)).
  destruct (stdin_writable s).
  - pose proof (poll_key s) as H.
    destruct ((memory_setitem Mr.KBSR (Z.shiftl 1 15);;
               c ← getch_getch; o ← ord c; memory_setitem Mr.KBDR o) s)
      as [[] s'|e s'|s']; try exact H.
    destruct H as [Htook ->]. right. split; [reflexivity|exact Htook].
  - unfold memory_setitem, memory_getitem.
    repeat case_match; simplify_eq; simpl; now left.
Qed.

(** A read takes at most one character, and when it has taken one it was a
    read of the keyboard status, and it returns the status 0x8000. *)
Lemma mem_read_key a s :
  match mem_read a s with
  | Ok v s' =>
      stdin_pending s' = stdin_pending s \/
      (a mod 65536 = Mr.KBSR /\ v = 0x8000 /\
       exists c, stdin_pending s = c :: stdin_pending s')
  | Raise _ s' | Block s' => at_most_one_key s s'
  end.
Proof.
  destruct (Z.eq_dec (a mod 65536) Mr.KBSR) as [Ha|Ha].
  - pose proof (mem_read_key_status a s Ha) as H.
    destruct (mem_read a s); try exact H.
    destruct H as [H|[Hv H]]; [now left|right; auto].
  - pose proof (mem_read_other_keeps a Ha s) as H.
    destruct (mem_read a s); simpl in H; now left.
Qed.

Lemma one_key_mem_read a : one_key (mem_read a).
Proof.
  intros s. pose proof (mem_read_key a s) as H.
  destruct (mem_read a s) as [v s'|e s'|s']; simpl; try exact H.
  destruct H as [H|(_ & _ & H)]; [now left|now right].
Qed.

#[local] Hint Resolve one_key_getch one_key_mem_read : keep.
#[local] Hint Resolve one_key_bind_l one_key_bind_r | 2 : keep.
#[local] Hint Resolve one_key_keeps | 5 : keep.
#[local] Hint Extern 1 (one_key (if ?b then _ else _)) => destruct b : keep.
#[local] Hint Extern 1 (one_key (match ?x with _ => _ end)) => destruct x : keep.
#[local] Hint Extern 1 (one_key (let x := _ in _)) => cbv zeta : keep.

(** Two reads in a row, the second at the address the first returned: a
    first read that took a character returned 0x8000, which is not the
    address of the keyboard status. *)
Lemma one_key_two_reads {B} x (rest : Z -> M B) :
  (forall v, keeps stdin_pending (rest v)) ->
  one_key (a ← mem_read x; v ← mem_read a; rest v).
Proof.
  intros Hrest s. pose proof (mem_read_key x s) as H.
  unfold mbind at 1, M_bind, bind at 1.
  destruct (mem_read x s) as [a s1|e s1|s1]; simpl; try exact H.
  destruct H as [H|(_ & -> & c & H)].
  - unfold at_most_one_key. rewrite <- H.
    apply (one_key_bind_r (mem_read a) rest (one_key_mem_read a) Hrest).
  - right. exists c. rewrite H. f_equal. symmetry.
    apply (keeps_bind stdin_pending (mem_read 0x8000) rest); [|exact Hrest].
    apply mem_read_other_keeps. cbv. discriminate.
Qed.

Lemma one_key_call f instr : one_key (call f instr).
Proof.
  destruct f; simpl.
  - unfold add; auto 60 with keep.
  - unfold not_; auto 60 with keep.
  - unfold and_; auto 60 with keep.
  - unfold br; auto 60 with keep.
  - unfold jmp; auto 60 with keep.
  - unfold jsr; auto 60 with keep.
  - unfold ld; auto 60 with keep.
  - unfold ldi. cbv zeta.
    apply one_key_bind_l; [auto 40 with keep|]. intros off.
    apply one_key_bind_l; [auto 40 with keep|]. intros pc.
    apply one_key_two_reads. intros v. auto 60 with keep.
  - unfold ldr; auto 60 with keep.
  - unfold lea; auto 60 with keep.
  - unfold st; auto 60 with keep.
  - unfold sti; auto 60 with keep.
  - unfold str_; auto 60 with keep.
  - unfold trap. destruct (traps !! _) as [t|]; [|auto with keep].
    destruct t; simpl.
    + unfold trap_getc; auto 60 with keep.
    + unfold trap_out; auto 60 with keep.
    + unfold trap_puts.
      assert (forall l, keeps stdin_pending (trap_puts_for l)) as Hfor
        by (induction l; simpl; auto 60 with keep).
      auto 60 with keep.
    + unfold trap_in; auto 60 with keep.
    + unfold trap_putsp.
      assert (forall l, keeps stdin_pending (trap_putsp_for l)) as Hfor
        by (induction l; simpl; auto 60 with keep).
      auto 60 with keep.
    + unfold trap_halt; auto 60 with keep.
  - unfold bad_opcode; auto 60 with keep.
Qed.

(** The fetch is a read too: a fetch that took a character fetched the
    word 0x8000, whose opcode 8 has no handler. *)
Lemma one_key_fetch_and_execute : one_key fetch_and_execute.
Proof.
  unfold fetch_and_execute.
  apply one_key_bind_l; [auto with keep|]. intros pc s.
  pose proof (mem_read_key pc s) as H.
  unfold mbind at 1, M_bind, bind at 1.
  destruct (mem_read pc s) as [instr s1|e s1|s1]; simpl; try exact H.
  destruct H as [H|(_ & -> & c & H)].
  - unfold at_most_one_key. rewrite <- H.
    pose proof one_key_call as Hcall.
    assert (one_key (pc ← reg_getitem R.PC;
                     reg_set R.PC (pc + 1);;
                     let op := Z.shiftr instr 12 in
                     let fun_ := default Fbad_opcode (ops !! op) in
                     call fun_ instr;; mret (op, fun_))) as Hrest
      by auto 40 with keep.
    apply Hrest.
  - right. exists c. rewrite H. f_equal. symmetry.
    assert (ops !! Z.shiftr 0x8000 12 = None) as Hop by (vm_compute; reflexivity).
    cbv zeta. rewrite Hop. simpl default. simpl call.
    assert (keeps stdin_pending
              (pc ← reg_getitem R.PC;
               reg_set R.PC (pc + 1);;
               bad_opcode 0x8000;; mret (Z.shiftr 0x8000 12, Fbad_opcode)))
      as Hrest by (unfold bad_opcode; auto 40 with keep).
    apply Hrest.
Qed.

Lemma one_key_gen_step : one_key gen_step.
Proof.
  unfold gen_step. apply one_key_bind_r; [exact one_key_fetch_and_execute|].
  intros [op f]. auto 40 with keep.
Qed.

Lemma gen_while_one_key s : at_most_one_key s (gen_state_after (gen_while s)).
Proof.
  unfold gen_while. destruct (truthy (is_running s)); [|now left].
  pose proof (one_key_gen_step s) as H.
  destruct (gen_step s); exact H.
Qed.

(** X26: an instruction cycle takes at most one character from the
    keyboard, in [main] and in the generator alike, although a cycle reads
    the memory up to three times (the fetch, and two reads in LDI) and each
    read of the keyboard status can take one: a read that has taken a
    character was a read of address 0xFE00 and returns the status 0x8000,
    and neither is 0x8000 the address of the status, nor has the word
    0x8000 a handler. *)
Theorem X26_cycle_takes_at_most_one_key :
  (forall s, at_most_one_key s (final_state (fetch_and_execute s))) /\
  (forall g s,
      (forall args, g <> GenCreated args) ->
      at_most_one_key s (gen_state_after (gen_next g s))) /\
  (forall a s v s',
      mem_read a s = Ok v s' -> stdin_pending s' <> stdin_pending s ->
      a mod 65536 = Mr.KBSR /\ v = 0x8000).
Proof.
  split; [exact one_key_fetch_and_execute|]. split.
  - intros g s Hc. destruct g as [args| | |]; simpl.
    + now destruct (Hc args).
    + apply gen_while_one_key.
    + apply (gen_while_one_key
               (with_command_buffer (lit "") (with_output_buffer (lit "") s))).
    + now left.
  - intros a s v s' Hread Hne. pose proof (mem_read_key a s) as H.
    rewrite Hread in H. destruct H as [H|(Ha & Hv & _)]; [contradiction|].
    now split.
Qed.

Lemma X26_cycle_takes_witness :
  at_most_one_key (about_to_run 0xF020)
    (gen_state_after (gen_next GenYieldOrig (about_to_run 0xF020))).
Proof.
  apply (proj1 (proj2 X26_cycle_takes_at_most_one_key) GenYieldOrig).
  discriminate.
Defined.

Lemma same_machine_fields s1 s2 :
  same_machine s1 s2 <->
  reg s1 = reg s2 /\ memory s1 = memory s2 /\ memory_id s1 = memory_id s2 /\
  is_running s1 = is_running s2 /\ sys_stdout s1 = sys_stdout s2 /\
  stdin_pending s1 = stdin_pending s2 /\ stdin_writable s1 = stdin_writable s2 /\
  stdout_readable s1 = stdout_readable s2 /\ files s1 = files s2.
Proof.
  unfold same_machine, machine. destruct s1, s2. simpl. split.
  - intros [= -> -> -> -> -> -> -> -> ->]. repeat split.
  - intros (-> & -> & -> & -> & -> & -> & -> & -> & ->). reflexivity.
Qed.

Lemma same_machine_refl s : same_machine s s.
Proof. reflexivity. Qed.

Lemma same_machine_trans s1 s2 s3 :
  same_machine s1 s2 -> same_machine s2 s3 -> same_machine s1 s3.
Proof. unfold same_machine. congruence. Qed.

Lemma same_machine_resumed g s : same_machine s (resumed g s).
Proof. now destruct g, s. Qed.

Lemma blind_bind {A B} (m : M A) (f : A -> M B) :
  blind m -> (forall a, blind (f a)) -> blind (m ≫= f).
Proof.
  intros Hm Hf s1 s2 Hs. specialize (Hm s1 s2 Hs).
  unfold mbind, M_bind, bind.
  destruct (m s1) as [a s1'|e s1'|s1'], (m s2) as [b s2'|e' s2'|s2'];
    simpl in *; try contradiction; auto.
  destruct Hm as [<- Hs']. now apply Hf.
Qed.

Lemma blind_ret {A} (a : A) : blind (mret a).
Proof. intros s1 s2 Hs. now split. Qed.
Lemma blind_raise {A} e : blind (@raise A e).
Proof. intros s1 s2 Hs. now split. Qed.
Lemma blind_pass : blind pass.
Proof. apply blind_ret. Qed.

(** A primitive: the fields it reads are equal, the fields it writes are
    written alike. *)
Ltac blind_prim f :=
  intros s1 s2 Hs; apply same_machine_fields in Hs;
  destruct Hs as (Hr & Hm & Hi & Hrun & Hout & Hin & Hw & Hrd & Hf);
  unfold f, agree, modify, gets; simpl;
  rewrite <- ?Hr, <- ?Hm, <- ?Hi, <- ?Hrun, <- ?Hout, <- ?Hin, <- ?Hw, <- ?Hrd, <- ?Hf;
  repeat case_match; simplify_eq; simpl;
  rewrite ?same_machine_fields; simpl;
  repeat split; congruence.

Lemma blind_reg_getitem k : blind (reg_getitem k).
Proof. blind_prim reg_getitem. Qed.
Lemma blind_reg_get k : blind (reg_get k).
Proof. blind_prim reg_get. Qed.
Lemma blind_set_reg k v :
  blind (modify (fun s => with_reg (<[k := v]> (reg s)) s)).
Proof. blind_prim modify. Qed.
Lemma blind_memory_getitem i : blind (memory_getitem i).
Proof. blind_prim memory_getitem. Qed.
Lemma blind_memory_setitem i v : blind (memory_setitem i v).
Proof. blind_prim memory_setitem. Qed.
Lemma blind_memory_len : blind memory_len.
Proof. blind_prim memory_len. Qed.
Lemma blind_getch : blind getch_getch.
Proof. blind_prim getch_getch. Qed.
Lemma blind_select r w x : blind (select_select r w x).
Proof.
  intros s1 s2 Hs. pose proof Hs as Hs'. apply same_machine_fields in Hs'.
  destruct Hs' as (Hr & Hm & Hi & Hrun & Hout & Hin & Hw & Hrd & Hf).
  unfold select_select, agree. split; [|exact Hs].
  assert (forall f, ready_read s1 f = ready_read s2 f) as Hready
    by (intros []; simpl; now rewrite ?Hin).
  assert (forall f, ready_write s1 f = ready_write s2 f) as Hwrite
    by (intros []; simpl; now rewrite ?Hw).
  assert (filter (fun f => ready_read s1 f = true) r
          = filter (fun f => ready_read s2 f = true) r) as ->.
  { induction r as [|f r IH]; [reflexivity|].
    rewrite !filter_cons, IH, Hready. reflexivity. }
  assert (filter (fun f => ready_write s1 f = true) w
          = filter (fun f => ready_write s2 f = true) w) as ->.
  { induction w as [|f w IH]; [reflexivity|].
    rewrite !filter_cons, IH, Hwrite. reflexivity. }
  reflexivity.
Qed.
Lemma blind_sys_stdout_write c : blind (sys_stdout_write c).
Proof.
  unfold sys_stdout_write. destruct (forallb encodable c).
  - blind_prim modify.
  - apply blind_raise.
Qed.
Lemma blind_sys_stdout_read n : blind (sys_stdout_read n).
Proof. blind_prim sys_stdout_read. Qed.
Lemma blind_sys_stdout_flush : blind sys_stdout_flush.
Proof. apply blind_ret. Qed.
Lemma blind_append_output c :
  blind (modify (fun s => with_output_buffer (output_buffer s ++ c) s)).
Proof. blind_prim modify. Qed.
Lemma blind_set_command_buffer c : blind (set_command_buffer c).
Proof. blind_prim set_command_buffer. Qed.
Lemma blind_set_is_running b : blind (modify (with_is_running b)).
Proof. blind_prim modify. Qed.

(** The text a trap composes from the output buffer goes to the command
    buffer and nowhere else. *)
Lemma blind_describe (k : pystr -> pystr) :
  blind (buf ← gets output_buffer; set_command_buffer (k buf)).
Proof. blind_prim set_command_buffer. Qed.
Lemma blind_describe_then {A} (k : pystr -> pystr) (rest : M A) :
  blind rest ->
  blind (buf ← gets output_buffer; set_command_buffer (k buf);; rest).
Proof.
  intros Hrest s1 s2 Hs.
  apply (blind_bind (buf ← gets output_buffer; set_command_buffer (k buf))
           (fun _ => rest) (blind_describe k) (fun _ => Hrest) s1 s2 Hs).
Qed.

Create HintDb blindness discriminated.
#[local] Hint Resolve blind_describe blind_describe_then | 0 : blindness.
#[local] Hint Resolve blind_bind blind_ret blind_raise blind_pass
  blind_reg_getitem blind_reg_get blind_set_reg blind_memory_getitem
  blind_memory_setitem blind_memory_len blind_getch blind_select
  blind_sys_stdout_write blind_sys_stdout_read blind_sys_stdout_flush
  blind_append_output blind_set_command_buffer blind_set_is_running
  : blindness.
#[local] Hint Extern 1 (blind (if ?b then _ else _)) => destruct b : blindness.
#[local] Hint Extern 1 (blind (match ?x with _ => _ end)) => destruct x : blindness.
#[local] Hint Extern 1 (blind (let x := _ in _)) => cbv zeta : blindness.
#[local] Hint Extern 1 (blind (mret _)) => apply blind_ret : blindness.

Ltac blind_unfold f := unfold f; auto 40 with blindness.

Lemma blind_py_mod v n : blind (py_mod v n).
Proof. blind_unfold py_mod. Qed.
Lemma blind_chr c : blind (chr c).
Proof. blind_unfold chr. Qed.
Lemma blind_ord c : blind (ord c).
Proof. blind_unfold ord. Qed.
Lemma blind_rshift x n : blind (rshift x n).
Proof. blind_unfold rshift. Qed.
Lemma blind_lshift x n : blind (lshift x n).
Proof. blind_unfold lshift. Qed.
Lemma blind_vsys_stdin : blind vsys.stdin.
Proof. blind_unfold vsys.stdin. Qed.
Lemma blind_vsys_stdout_flush : blind vsys.stdout_flush.
Proof. apply blind_ret. Qed.
#[local] Hint Resolve blind_py_mod blind_chr blind_ord blind_rshift blind_lshift
  blind_vsys_stdin blind_vsys_stdout_flush : blindness.
Lemma blind_register_dict_setitem k v : blind (register_dict_setitem k v).
Proof. blind_unfold register_dict_setitem. Qed.
#[local] Hint Resolve blind_register_dict_setitem : blindness.
Lemma blind_reg_set k v : blind (reg_set k v).
Proof. blind_unfold reg_set. Qed.
Lemma blind_print t : blind (print t).
Proof. blind_unfold print. Qed.
Lemma blind_vsys_stdout_write c : blind (vsys.stdout_write c).
Proof. blind_unfold vsys.stdout_write. Qed.
Lemma blind_vsys_stdout_read n : blind (vsys.stdout_read n).
Proof. blind_unfold vsys.stdout_read. Qed.
Lemma blind_check_key : blind check_key.
Proof. blind_unfold check_key. Qed.
#[local] Hint Resolve blind_reg_set blind_print blind_vsys_stdout_write
  blind_vsys_stdout_read blind_check_key : blindness.
Lemma blind_mem_write a v : blind (mem_write a v).
Proof. blind_unfold mem_write. Qed.
Lemma blind_mem_read a : blind (mem_read a).
Proof. blind_unfold mem_read. Qed.
Lemma blind_sign_extend x n : blind (sign_extend x n).
Proof. blind_unfold sign_extend. Qed.
Lemma blind_update_flags r : blind (update_flags r).
Proof. blind_unfold update_flags. Qed.
#[local] Hint Resolve blind_mem_write blind_mem_read blind_sign_extend
  blind_update_flags : blindness.

Lemma blind_call f instr : blind (call f instr).
Proof.
  destruct f; simpl.
  - blind_unfold add.
  - blind_unfold not_.
  - blind_unfold and_.
  - blind_unfold br.
  - blind_unfold jmp.
  - blind_unfold jsr.
  - blind_unfold ld.
  - blind_unfold ldi.
  - blind_unfold ldr.
  - blind_unfold lea.
  - blind_unfold st.
  - blind_unfold sti.
  - blind_unfold str_.
  - unfold trap. destruct (traps !! _) as [t|]; [|auto with blindness].
    destruct t; simpl.
    + blind_unfold trap_getc.
    + blind_unfold trap_out.
    + unfold trap_puts.
      assert (forall l, blind (trap_puts_for l)) as Hfor
        by (induction l; simpl; auto 40 with blindness).
      auto 40 with blindness.
    + blind_unfold trap_in.
    + unfold trap_putsp.
      assert (forall l, blind (trap_putsp_for l)) as Hfor
        by (induction l; simpl; auto 40 with blindness).
      auto 40 with blindness.
    + blind_unfold trap_halt.
  - blind_unfold bad_opcode.
Qed.
#[local] Hint Resolve blind_call : blindness.

Lemma blind_fetch_and_execute : blind fetch_and_execute.
Proof. blind_unfold fetch_and_execute. Qed.

Lemma good_same_machine s1 s2 : same_machine s1 s2 -> good s1 -> good s2.
Proof.
  intros Hs. apply same_machine_fields in Hs.
  destruct Hs as (Hr & Hm & _ & _ & _ & Hin & _).
  now apply good_same.
Qed.

(** One turn of the loop of the generator against one turn of the loop of
    [main], from states that differ in the buffers at most. *)
Lemma gen_step_agrees s1 s2 :
  good s1 -> same_machine s1 s2 ->
  match fetch_and_execute s1, gen_step s2 with
  | Ok _ s1', Ok _ s2' => same_machine s1' s2' /\ good s1'
  | Raise e1 s1', Raise e2 s2' => e1 = e2 /\ same_machine s1' s2'
  | Block s1', Block s2' => same_machine s1' s2'
  | _, _ => False
  end.
Proof.
  intros Hgood Hs.
  pose proof (blind_fetch_and_execute s1 s2 Hs) as Hagree.
  pose proof (triple_fetch_and_execute s1 Hgood) as Hsafe.
  unfold gen_step, mbind, M_bind, bind.
  destruct (fetch_and_execute s1) as [[op f] s1'|e s1'|s1'],
           (fetch_and_execute s2) as [[op' f'] s2'|e' s2'|s2'];
    simpl in *; try contradiction; try exact Hagree.
  destruct Hagree as [_ Hs'], Hsafe as [Hgood' _].
  pose proof (good_same_machine _ _ Hs' Hgood') as (Hfull & _).
  destruct (Hfull R.PC) as [pc Hpc]; [cbv; split; [discriminate|reflexivity]|].
  unfold reg_getitem. rewrite Hpc. simpl. split; assumption.
Qed.

Lemma main_while_drive n : forall g s1 s2 r,
  g = GenYieldOrig \/ g = GenYieldStep ->
  good s1 -> same_machine s1 s2 ->
  main_while n s1 = Some r ->
  same_machine (final_state r) (drive (S n) g s2).2 /\
  (drive (S n) g s2).1.2 = end_of r.
Proof.
  induction n as [|n IH]; intros g s1 s2 r Hg Hgood Hs Hmain;
    rewrite drive_S, (gen_next_resumed g s2 Hg); unfold gen_while;
    pose proof (same_machine_trans _ _ _ Hs (same_machine_resumed g s2)) as Hs0;
    assert (is_running (resumed g s2) = is_running s1) as ->
      by (apply same_machine_fields in Hs0; symmetry; apply Hs0).
  - simpl in Hmain. destruct (truthy (is_running s1)); [discriminate|].
    injection Hmain as <-. now split.
  - cbn [main_while] in Hmain.
    destruct (truthy (is_running s1)); [|injection Hmain as <-; now split].
    pose proof (gen_step_agrees s1 (resumed g s2) Hgood Hs0) as Hstep.
    destruct (fetch_and_execute s1) as [a s1'|e s1'|s1'],
             (gen_step (resumed g s2)) as [ev s2'|e' s2'|s2'];
      try contradiction.
    + destruct Hstep as [Hs' Hgood'].
      destruct (IH GenYieldStep s1' s2' r (or_intror eq_refl) Hgood' Hs' Hmain)
        as [Hfin Hend].
      destruct (drive (S n) GenYieldStep s2') as [[es d] s''].
      now split.
    + destruct Hstep as [<- Hs']. injection Hmain as <-. now split.
    + injection Hmain as <-. now split.
Qed.

Lemma with_is_running_same s : with_is_running (is_running s) s = s.
Proof. now destruct s. Qed.

Lemma gen_next_load args s :
  is_running s = 1 ->
  gen_next (GenCreated args) s
  = match load_args args s with
    | Ok _ s1 =>
        match reg s1 !! R.PC with
        | Some pc =>
            Yield (mkEvent pc (lit ".ORIG x3000") ".ORIG" None None (memory_id s1))
              GenYieldOrig s1
        | None => GenRaise (KeyError R.PC) s1
        end
    | Raise e s1 => GenRaise e s1
    | Block s1 => GenBlock s1
    end.
Proof.
  intros Hrun. simpl. unfold gen_prologue.
  unfold mbind at 1, M_bind, bind at 1. simpl.
  rewrite <- Hrun, with_is_running_same.
  unfold mbind at 1, M_bind, bind at 1.
  destruct (load_args args s) as [[] s1|e s1|s1]; try reflexivity.
  unfold mbind at 1, M_bind, bind at 1, reg_getitem.
  destruct (reg s1 !! R.PC); reflexivity.
Qed.

(** X27: the generator is [main] with a yield after each instruction. In a
    process whose registers are present and where [is_running] is 1, as at
    import, when [main] ends within [n] instructions the generator driven
    for [n + 2] calls of [next] ends the same way: exhausted where [main]
    returns, with the same exception where [main] raises, waiting at the
    keyboard where [main] waits; and it leaves the same registers, memory,
    console, keyboard and [is_running]. Only the two buffers of [vsys],
    which the generator empties after each step and [main] never does, can
    differ, and no instruction's effect on the machine depends on them. *)
Theorem X27_generator_runs_what_main_runs n args s r :
  process_ok s -> is_running s = 1 ->
  main n args s = Some r ->
  same_machine (final_state r) (drive (n + 2) (main_generator args) s).2 /\
  (drive (n + 2) (main_generator args) s).1.2 = end_of r.
Proof.
  intros Hs Hrun Hmain.
  replace (n + 2)%nat with (S (S n)) by lia.
  rewrite drive_S. unfold main_generator. unfold main in Hmain.
  pose proof (load_args_outcomes args s Hs) as Hload.
  pose proof (gen_next_load args s Hrun) as Hnext.
  destruct (load_args args s) as [[] s1|e s1|s1]; [| |contradiction].
  - destruct Hload as (Hgood & Hpc & _). rewrite Hpc in Hnext. rewrite Hnext.
    destruct (main_while_drive n GenYieldOrig s1 s1 r (or_introl eq_refl)
                Hgood (same_machine_refl s1) Hmain) as [Hfin Hend].
    destruct (drive (S n) GenYieldOrig s1) as [[es d] s''].
    now split.
  - rewrite Hnext. injection Hmain as <-. now split.
Qed.

Lemma X27_generator_runs_witness :
  match main 10 ["vm.py"%string; "count.obj"%string] host with
  | Some r =>
      same_machine (final_state r)
        (drive (10 + 2) (main_generator ["vm.py"%string; "count.obj"%string])
           host).2 /\
      (drive (10 + 2) (main_generator ["vm.py"%string; "count.obj"%string])
         host).1.2 = end_of r
  | None => False
  end.
Proof.
  assert (match main 10 ["vm.py"%string; "count.obj"%string] host with
          | Some r => True
          | None => False
          end) as Hrun by (vm_compute; exact I).
  destruct (main 10 ["vm.py"%string; "count.obj"%string] host) as [r|] eqn:Hmain;
    [|contradiction].
  apply (X27_generator_runs_what_main_runs 10
           ["vm.py"%string; "count.obj"%string] host r).
  - apply process_ok_initial.
  - reflexivity.
  - exact Hmain.
Defined.
